(** * vllm/compilation/backends.py: piecewise compilation backend

    A shallow embedding of [CompilerManager], [split_graph],
    [PiecewiseCompileInterpreter] and [VllmBackend], and the properties the
    specification states about them.

    Python objects that are mutated in place (the manager, the shared
    [CompilationConfig], the module globals, the files of the cache
    directory) are fields of one explicit state that every method threads
    through an exception monad; an exception leaves the effects that
    happened before it in the state, as in Python. *)

From Stdlib Require Import Ascii Floats DecimalString DecimalNat DecimalZ.
From Stdlib Require DecimalPos DecimalFacts.
From stdpp Require Import gmap strings list fin_maps sorting.

Open Scope string_scope.
Open Scope list_scope.

(** ** Python basics *)

(** The exceptions the module can raise. *)
Inductive exn : Type :=
| AssertionError (msg : string)
| KeyError
| IndexError
| ValueError
| SyntaxError
| TypeError
| AttributeError (attr : string)
| RuntimeError (msg : string).

(** [str(n)] for a non-negative [int] and for any [int]. *)
Definition str_of_nat (n : nat) : string :=
  NilZero.string_of_uint (Nat.to_uint n).

Definition str_of_Z (z : Z) : string :=
  NilZero.string_of_int (Z.to_int z).

(** [int(s)] restricted to plain decimal digit strings; [ValueError] is
    [None]. *)
Definition int_of_string (s : string) : option nat :=
  Nat.of_uint <$> NilZero.uint_of_string s.

(** [str(x)] for an [Optional[int]]. *)
Definition str_of_optional_int (x : option Z) : string :=
  match x with
  | None => "None"
  | Some z => str_of_Z z
  end.

(** [old in s]: substring test. *)
Fixpoint contains (old s : string) : bool :=
  String.prefix old s ||
  match s with
  | EmptyString => false
  | String _ s' => contains old s'
  end.

(** [s.replace(old, new)] for a non-empty [old]: occurrences are replaced
    from the left and do not overlap.  [skip] counts the characters of a
    matched occurrence that are still to be dropped. *)
Fixpoint replace_go (old new : string) (skip : nat) (s : string) : string :=
  match s with
  | EmptyString => EmptyString
  | String c s' =>
      match skip with
      | S k => replace_go old new k s'
      | O =>
          if String.prefix old s
          then new +:+ replace_go old new (String.length old - 1) s'
          else String c (replace_go old new 0 s')
      end
  end.

Definition replace (old new s : string) : string := replace_go old new 0 s.

(** ** Python literal data

    The values [ast.literal_eval] builds, restricted to [None], integers,
    strings, tuples, lists and dictionaries.  A string is a sequence of code
    points below 256.  A dictionary keeps its items in insertion order, as
    Python's does. *)

#[warnings="-register-all"]
Inductive pyval : Type :=
| PyNone
| PyInt (z : Z)
| PyStr (s : string)
| PyTuple (items : list pyval)
| PyList (items : list pyval)
| PyDict (items : list (pyval * pyval)).

(** Structural equality: Python's [==] on values without dictionaries, and
    so on every dictionary key. *)
Fixpoint pyval_eqb (a b : pyval) {struct a} : bool :=
  let fix list_eqb (l1 l2 : list pyval) {struct l1} : bool :=
    match l1, l2 with
    | [], [] => true
    | x :: l1', y :: l2' => pyval_eqb x y && list_eqb l1' l2'
    | _, _ => false
    end in
  let fix items_eqb (l1 l2 : list (pyval * pyval)) {struct l1} : bool :=
    match l1, l2 with
    | [], [] => true
    | (k1, v1) :: l1', (k2, v2) :: l2' =>
        pyval_eqb k1 k2 && pyval_eqb v1 v2 && items_eqb l1' l2'
    | _, _ => false
    end in
  match a, b with
  | PyNone, PyNone => true
  | PyInt x, PyInt y => bool_decide (x = y)
  | PyStr x, PyStr y => bool_decide (x = y)
  | PyTuple x, PyTuple y => list_eqb x y
  | PyList x, PyList y => list_eqb x y
  | PyDict x, PyDict y => items_eqb x y
  | _, _ => false
  end.

(** Values that can be dictionary keys: lists and dictionaries cannot. *)
Fixpoint hashable (v : pyval) : bool :=
  match v with
  | PyNone | PyInt _ | PyStr _ => true
  | PyTuple items => forallb hashable items
  | PyList _ | PyDict _ => false
  end.

(** [d[k]], [k in d] and [d[k] = v] on the items of a dictionary. *)
Fixpoint dict_get (k : pyval) (items : list (pyval * pyval)) : option pyval :=
  match items with
  | [] => None
  | (k', v) :: rest => if pyval_eqb k' k then Some v else dict_get k rest
  end.

Fixpoint dict_set (k v : pyval) (items : list (pyval * pyval))
  : list (pyval * pyval) :=
  match items with
  | [] => [(k, v)]
  | (k', v') :: rest =>
      if pyval_eqb k' k then (k', v) :: rest
      else (k', v') :: dict_set k v rest
  end.

(** [key in obj] for an arbitrary left-hand tuple [key]. *)
Definition py_contains (key obj : pyval) : exn + bool :=
  match obj with
  | PyDict items =>
      if hashable key then inr (bool_decide (is_Some (dict_get key items)))
      else inl TypeError
  | PyTuple items | PyList items => inr (existsb (pyval_eqb key) items)
  | PyStr _ | PyNone | PyInt _ => inl TypeError
  end.

(** [obj[key]] for a tuple [key]. *)
Definition py_getitem (obj key : pyval) : exn + pyval :=
  match obj with
  | PyDict items =>
      if hashable key then
        match dict_get key items with
        | Some v => inr v
        | None => inl KeyError
        end
      else inl TypeError
  | _ => inl TypeError
  end.

(** [obj[key] = v] *)
Definition py_setitem (obj key v : pyval) : exn + pyval :=
  match obj with
  | PyDict items =>
      if hashable key then inr (PyDict (dict_set key v items))
      else inl TypeError
  | _ => inl TypeError
  end.

(** *** Tokens of the literal syntax *)

Inductive token : Type :=
| TLParen | TRParen
| TLBrack | TRBrack
| TLBrace | TRBrace
| TComma | TColon | TMinus
| TNone
| TNum (n : N)
| TStr (s : string).

#[global] Instance token_eq_dec : EqDecision token.
Proof. solve_decision. Defined.

Definition sq : ascii := "039"%char.
Definition dq : ascii := "034"%char.
Definition backslash : ascii := "\"%char.
Definition newline : ascii := "010"%char.
Definition tab : ascii := "009"%char.
Definition cr : ascii := "013"%char.

Definition is_space (c : ascii) : bool :=
  bool_decide (c = " "%char) || bool_decide (c = newline)
  || bool_decide (c = tab) || bool_decide (c = cr)
  || bool_decide (c = "012"%char).

Definition digit_of (c : ascii) : option N :=
  let n := N_of_ascii c in
  if (48 <=? n)%N && (n <=? 57)%N then Some (n - 48)%N else None.

Definition hex_of (c : ascii) : option N :=
  let n := N_of_ascii c in
  if (48 <=? n)%N && (n <=? 57)%N then Some (n - 48)%N
  else if (97 <=? n)%N && (n <=? 102)%N then Some (n - 87)%N
  else if (65 <=? n)%N && (n <=? 70)%N then Some (n - 55)%N
  else None.

(** The tokenizer is a state machine over the characters of the text. *)
Inductive lex_mode : Type :=
| LStart
| LWord (pending : string)
| LZero
| LNum (acc : N)
| LStr (q : ascii) (acc : string)
| LEsc (q : ascii) (acc : string)
| LHex1 (q : ascii) (acc : string)
| LHex2 (q : ascii) (acc : string) (hi : N).

(** A character met between tokens: the token it completes, if any, and the
    mode it leaves the tokenizer in. *)
Definition lex_start (c : ascii) : option (list token * lex_mode) :=
  if is_space c then Some ([], LStart)
  else if bool_decide (c = "("%char) then Some ([TLParen], LStart)
  else if bool_decide (c = ")"%char) then Some ([TRParen], LStart)
  else if bool_decide (c = "["%char) then Some ([TLBrack], LStart)
  else if bool_decide (c = "]"%char) then Some ([TRBrack], LStart)
  else if bool_decide (c = "{"%char) then Some ([TLBrace], LStart)
  else if bool_decide (c = "}"%char) then Some ([TRBrace], LStart)
  else if bool_decide (c = ","%char) then Some ([TComma], LStart)
  else if bool_decide (c = ":"%char) then Some ([TColon], LStart)
  else if bool_decide (c = "-"%char) then Some ([TMinus], LStart)
  else if bool_decide (c = "N"%char) then Some ([], LWord "one")
  else if bool_decide (c = sq) || bool_decide (c = dq)
  then Some ([], LStr c "")
  else match digit_of c with
       | Some 0%N => Some ([], LZero)
       | Some d => Some ([], LNum d)
       | None => None
       end.

Definition snoc (s : string) (c : ascii) : string := s +:+ String c "".

(** One step: the tokens completed by [c] and the next mode. *)
Definition lex_step (m : lex_mode) (c : ascii)
  : option (list token * lex_mode) :=
  match m with
  | LStart => lex_start c
  | LWord pending =>
      match pending with
      | String x "" => if bool_decide (c = x) then Some ([TNone], LStart) else None
      | String x rest => if bool_decide (c = x) then Some ([], LWord rest) else None
      | "" => None
      end
  | LZero =>
      match digit_of c with
      | Some _ => None
      | None =>
          match lex_start c with
          | Some (ts, m') => Some (TNum 0 :: ts, m')
          | None => None
          end
      end
  | LNum acc =>
      match digit_of c with
      | Some d => Some ([], LNum (10 * acc + d)%N)
      | None =>
          match lex_start c with
          | Some (ts, m') => Some (TNum acc :: ts, m')
          | None => None
          end
      end
  | LStr q acc =>
      if bool_decide (c = q) then Some ([TStr acc], LStart)
      else if bool_decide (c = backslash) then Some ([], LEsc q acc)
      else if bool_decide (c = newline) || bool_decide (c = cr) then None
      else Some ([], LStr q (snoc acc c))
  | LEsc q acc =>
      if bool_decide (c = backslash) || bool_decide (c = sq)
         || bool_decide (c = dq)
      then Some ([], LStr q (snoc acc c))
      else if bool_decide (c = "n"%char) then Some ([], LStr q (snoc acc newline))
      else if bool_decide (c = "r"%char) then Some ([], LStr q (snoc acc cr))
      else if bool_decide (c = "t"%char) then Some ([], LStr q (snoc acc tab))
      else if bool_decide (c = "x"%char) then Some ([], LHex1 q acc)
      else None
  | LHex1 q acc =>
      match hex_of c with
      | Some hi => Some ([], LHex2 q acc hi)
      | None => None
      end
  | LHex2 q acc hi =>
      match hex_of c with
      | Some lo => Some ([], LStr q (snoc acc (ascii_of_N (16 * hi + lo))))
      | None => None
      end
  end.

(** At the end of the text a pending number is completed; an unfinished
    word or string is an error. *)
Definition lex_end (m : lex_mode) : option (list token) :=
  match m with
  | LStart => Some []
  | LZero => Some [TNum 0]
  | LNum acc => Some [TNum acc]
  | _ => None
  end.

Fixpoint lex_go (m : lex_mode) (s : string) : option (list token) :=
  match s with
  | "" => lex_end m
  | String c s' =>
      match lex_step m c with
      | None => None
      | Some (ts, m') =>
          match lex_go m' s' with
          | None => None
          | Some ts' => Some (ts ++ ts')
          end
      end
  end.

Definition lex (s : string) : option (list token) := lex_go LStart s.

(** *** Parsing *)

(** Adjacent string literals are one string. *)
Fixpoint take_strs (ts : list token) : string * list token :=
  match ts with
  | TStr s :: rest => let '(s', r) := take_strs rest in (s +:+ s', r)
  | _ => ("", ts)
  end.

(** A dictionary display is evaluated left to right; a later item with an
    equal key replaces the value of the earlier one. *)
Fixpoint build_dict (acc : list (pyval * pyval)) (items : list (pyval * pyval))
  : option (list (pyval * pyval)) :=
  match items with
  | [] => Some acc
  | (k, v) :: rest =>
      if hashable k then build_dict (dict_set k v acc) rest else None
  end.

(** Recursive descent over the tokens: a value, the rest of a sequence up
    to its closing bracket, and the rest of the items of a dictionary
    display.  A call either consumes a token or passes its tokens on to a
    call that does, so [fuel] above the number of tokens is enough. *)
Fixpoint parse_value (fuel : nat) (ts : list token)
  : option (pyval * list token) :=
  match fuel with
  | O => None
  | S fuel' =>
      match ts with
      | TNone :: r => Some (PyNone, r)
      | TNum n :: r => Some (PyInt (Z.of_N n), r)
      | TMinus :: TNum n :: r => Some (PyInt (- Z.of_N n), r)
      | TStr s :: r =>
          let '(s', r') := take_strs r in Some (PyStr (s +:+ s'), r')
      | TLBrack :: r =>
          match parse_seq fuel' TRBrack r with
          | None => None
          | Some (vs, r') => Some (PyList vs, r')
          end
      | TLParen :: TRParen :: r => Some (PyTuple [], r)
      | TLParen :: r =>
          match parse_value fuel' r with
          | Some (v, TRParen :: r1) => Some (v, r1)
          | Some (v, TComma :: r1) =>
              match parse_seq fuel' TRParen r1 with
              | None => None
              | Some (vs, r2) => Some (PyTuple (v :: vs), r2)
              end
          | _ => None
          end
      | TLBrace :: r =>
          match parse_items fuel' r with
          | None => None
          | Some (kvs, r') =>
              match build_dict [] kvs with
              | None => None
              | Some items => Some (PyDict items, r')
              end
          end
      | _ => None
      end
  end
with parse_seq (fuel : nat) (close : token) (ts : list token)
  : option (list pyval * list token) :=
  match fuel with
  | O => None
  | S fuel' =>
      match ts with
      | [] => None
      | t :: r =>
          if decide (t = close) then Some ([], r)
          else
            match parse_value fuel' ts with
            | None => None
            | Some (v, r1) =>
                match r1 with
                | TComma :: r2 =>
                    match parse_seq fuel' close r2 with
                    | None => None
                    | Some (vs, r3) => Some (v :: vs, r3)
                    end
                | t1 :: r2 =>
                    if decide (t1 = close) then Some ([v], r2) else None
                | [] => None
                end
            end
      end
  end
with parse_items (fuel : nat) (ts : list token)
  : option (list (pyval * pyval) * list token) :=
  match fuel with
  | O => None
  | S fuel' =>
      match ts with
      | [] => None
      | TRBrace :: r => Some ([], r)
      | _ =>
          match parse_value fuel' ts with
          | Some (k, TColon :: r1) =>
              match parse_value fuel' r1 with
              | Some (v, TComma :: r2) =>
                  match parse_items fuel' r2 with
                  | None => None
                  | Some (kvs, r3) => Some ((k, v) :: kvs, r3)
                  end
              | Some (v, TRBrace :: r2) => Some ([(k, v)], r2)
              | _ => None
              end
          | _ => None
          end
      end
  end.

(** [ast.literal_eval(text)] on the literal syntax above.  Python raises
    [SyntaxError], [ValueError] or [TypeError] on a text that is not a
    literal; the model has one parse error for all of them. *)
Definition literal_eval (text : string) : exn + pyval :=
  match lex text with
  | None => inl SyntaxError
  | Some ts =>
      match parse_value (2 * S (length ts)) ts with
      | Some (v, []) => inr v
      | _ => inl SyntaxError
      end
  end.

(** *** Printing *)

(** Code points [repr] writes as [\xNN]: the control characters, DEL, and
    the unprintable part of Latin-1. *)
Definition needs_hex (c : ascii) : bool :=
  let n := N_of_ascii c in
  (n <? 32)%N || (n =? 127)%N || ((128 <=? n)%N && (n <=? 160)%N)
  || (n =? 173)%N.

Definition hex_digit (n : N) : ascii :=
  if (n <? 10)%N then ascii_of_N (48 + n) else ascii_of_N (87 + n).

Definition escape_char (q c : ascii) : string :=
  if bool_decide (c = backslash) || bool_decide (c = q)
  then String backslash (String c "")
  else if bool_decide (c = newline) then String backslash "n"
  else if bool_decide (c = cr) then String backslash "r"
  else if bool_decide (c = tab) then String backslash "t"
  else if needs_hex c then
    let n := N_of_ascii c in
    String backslash
      (String "x" (String (hex_digit (n / 16)) (String (hex_digit (n mod 16)) "")))
  else String c "".

Fixpoint escape (q : ascii) (s : string) : string :=
  match s with
  | "" => ""
  | String c s' => escape_char q c +:+ escape q s'
  end.

Fixpoint has_char (c : ascii) (s : string) : bool :=
  match s with
  | "" => false
  | String x s' => bool_decide (x = c) || has_char c s'
  end.

(** [repr(s)] for a [str]: single quotes unless the string has a single
    quote and no double quote. *)
Definition repr_quote (s : string) : ascii :=
  if has_char sq s && negb (has_char dq s) then dq else sq.

Definition repr_str (s : string) : string :=
  let q := repr_quote s in
  String q (escape q s +:+ String q "").

Fixpoint join (sep : string) (l : list string) : string :=
  match l with
  | [] => ""
  | [x] => x
  | x :: rest => x +:+ sep +:+ join sep rest
  end.

(** [repr(v)]; it is also what [pprint] writes for a value that fits on
    one line, up to the order of dictionary items. *)
Fixpoint py_repr (v : pyval) : string :=
  match v with
  | PyNone => "None"
  | PyInt z => str_of_Z z
  | PyStr s => repr_str s
  | PyTuple [x] => "(" +:+ py_repr x +:+ ",)"
  | PyTuple items => "(" +:+ join ", " (map py_repr items) +:+ ")"
  | PyList items => "[" +:+ join ", " (map py_repr items) +:+ "]"
  | PyDict items =>
      "{" +:+ join ", "
                (map (fun kv => py_repr (fst kv) +:+ ": " +:+ py_repr (snd kv))
                   items) +:+ "}"
  end.

(** *** Displays

    [Display v ts]: the tokens [ts] are a display of [v] in the literal
    syntax.  A string may be written as several adjacent literals, which is
    how [pprint] wraps a long one.  Handles are displayed by these rules;
    they contain no dictionary. *)
Inductive Display : pyval -> list token -> Prop :=
| Display_none : Display PyNone [TNone]
| Display_nonneg (z : Z) :
    (0 <= z)%Z -> Display (PyInt z) [TNum (Z.to_N z)]
| Display_neg (z : Z) :
    (z < 0)%Z -> Display (PyInt z) [TMinus; TNum (Z.to_N (- z))]
| Display_str (chunk : string) (chunks : list string) :
    Display (PyStr (chunk +:+ foldr String.append "" chunks))
      (TStr chunk :: map TStr chunks)
| Display_tuple0 : Display (PyTuple []) [TLParen; TRParen]
| Display_tuple1 (v : pyval) (ts : list token) :
    Display v ts ->
    Display (PyTuple [v]) (TLParen :: ts ++ [TComma; TRParen])
| Display_tuple (v w : pyval) (vs : list pyval) (tv ts : list token) :
    Display v tv -> DisplaySeq (w :: vs) ts ->
    Display (PyTuple (v :: w :: vs)) (TLParen :: tv ++ TComma :: ts ++ [TRParen])
| Display_list (vs : list pyval) (ts : list token) :
    DisplaySeq vs ts ->
    Display (PyList vs) (TLBrack :: ts ++ [TRBrack])
with DisplaySeq : list pyval -> list token -> Prop :=
| DisplaySeq_nil : DisplaySeq [] []
| DisplaySeq_one (v : pyval) (ts : list token) :
    Display v ts -> DisplaySeq [v] ts
| DisplaySeq_cons (v w : pyval) (vs : list pyval) (ts ts' : list token) :
    Display v ts -> DisplaySeq (w :: vs) ts' ->
    DisplaySeq (v :: w :: vs) (ts ++ TComma :: ts').

(** The items of a dictionary display, in the order they are written. *)
Inductive DisplayItems : list (pyval * pyval) -> list token -> Prop :=
| DisplayItems_nil : DisplayItems [] []
| DisplayItems_one (k v : pyval) (tk tv : list token) :
    Display k tk -> Display v tv ->
    DisplayItems [(k, v)] (tk ++ TColon :: tv)
| DisplayItems_cons (k v : pyval) (kv : pyval * pyval)
    (items : list (pyval * pyval)) (tk tv ts : list token) :
    Display k tk -> Display v tv -> DisplayItems (kv :: items) ts ->
    DisplayItems ((k, v) :: kv :: items) (tk ++ TColon :: tv ++ TComma :: ts).

(** A display of a dictionary writes its items in some order: [pprint]
    sorts them, and falls back on object addresses for keys it cannot
    compare (a [None] shape against an [int] shape). *)
Definition DisplayDict (items : list (pyval * pyval)) (ts : list token)
  : Prop :=
  exists (written : list (pyval * pyval)) (body : list token),
    written ≡ₚ items
    /\ DisplayItems written body
    /\ ts = TLBrace :: body ++ [TRBrace].

(** ** torch.fx graphs *)

Module Fx.

(** [Node.op] takes one of six values. *)
Inductive Opcode : Type :=
| placeholder
| get_attr
| call_function
| call_method
| call_module
| output.

#[global] Instance Opcode_eq_dec : EqDecision Opcode.
Proof. solve_decision. Defined.

(** A node: its unique name, its opcode and [str(node.target)]. *)
Record Node : Type := mkNode {
  name : string;
  op : Opcode;
  target : string;
}.

#[global] Instance Node_eq_dec : EqDecision Node.
Proof. solve_decision. Defined.

(** A graph module produced by [split_module]: its direct children, in
    registration order, each with the nodes that were moved into it. *)
Record GraphModule : Type := mkGraphModule {
  children : list (string * list Node);
}.

(** [named_modules()]: the root under the empty name, then the children. *)
Definition named_modules (gm : GraphModule) : list (string * list Node) :=
  ("", []) :: children gm.

(** [getattr(gm, name)] for a child module. *)
Fixpoint getattr (cs : list (string * list Node)) (nm : string)
  : option (list Node) :=
  match cs with
  | [] => None
  | (n, m) :: rest => if decide (n = nm) then Some m else getattr rest nm
  end.

(** The nodes [split_module] asks its callback about: it keeps
    placeholders, attribute fetches and the output node out of the
    partitioning. *)
Definition partitioned (node : Node) : bool :=
  match op node with
  | placeholder | get_attr | output => false
  | _ => true
  end.

(** Append [node] to partition [pid], creating the partition after the
    existing ones when it is new. *)
Fixpoint add_to_partition (pid : nat) (node : Node)
    (parts : list (nat * list Node)) : list (nat * list Node) :=
  match parts with
  | [] => [(pid, [node])]
  | (p, ns) :: rest =>
      if decide (p = pid) then (p, ns ++ [node]) :: rest
      else (p, ns) :: add_to_partition pid node rest
  end.

(** The partitioning pass of [split_module]: nodes are visited in graph
    order ([keep_original_order=True]); [i] is the position of the head of
    [nodes], which stands for the node object the callback receives. *)
Fixpoint partition_nodes (callback : nat -> option nat) (i : nat)
    (nodes : list Node) (parts : list (nat * list Node))
  : exn + list (nat * list Node) :=
  match nodes with
  | [] => inr parts
  | node :: rest =>
      if partitioned node then
        match callback i with
        | None => inl KeyError
        | Some pid =>
            partition_nodes callback (S i) rest
              (add_to_partition pid node parts)
        end
      else partition_nodes callback (S i) rest parts
  end.

(** [torch.fx.passes.split_module.split_module(graph, None, callback,
    keep_original_order=True)], as far as [split_graph] observes it: one
    child [submod_<pid>] per partition id the callback returned. *)
Definition split_module (nodes : list Node) (callback : nat -> option nat)
  : exn + GraphModule :=
  match partition_nodes callback 0 nodes [] with
  | inl e => inl e
  | inr parts =>
      inr (mkGraphModule
             (map (fun p => ("submod_" +:+ str_of_nat (fst p), snd p)) parts))
  end.

End Fx.

(** ** split_graph *)

Record SplitItem : Type := mkSplitItem {
  submod_name : string;
  graph_id : nat;
  is_splitting_graph : bool;
  graph : list Fx.Node;
}.

(** The three locals of the first loop of [split_graph].  The dictionary
    [node_to_subgraph_id] is keyed by node objects, which are identified by
    their position in [graph.graph.nodes]. *)
Record SplitLoop : Type := mkSplitLoop {
  subgraph_id : nat;
  node_to_subgraph_id : gmap nat nat;
  split_op_graphs : list nat;
}.

(** [node.op == 'call_function' and str(node.target) in ops] *)
Definition is_split_op (ops : list string) (node : Fx.Node) : bool :=
  bool_decide (Fx.op node = Fx.call_function)
  && bool_decide (Fx.target node ∈ ops).

(** [node.op in ("output", "placeholder")] *)
Definition is_structural (node : Fx.Node) : bool :=
  bool_decide (Fx.op node = Fx.output)
  || bool_decide (Fx.op node = Fx.placeholder).

(** One iteration of the loop over [graph.graph.nodes]. *)
Definition assign_node (ops : list string) (st : SplitLoop) (i : nat)
    (node : Fx.Node) : SplitLoop :=
  if is_structural node then st
  else if is_split_op ops node then
    let sid := S (subgraph_id st) in
    {| subgraph_id := S sid;
       node_to_subgraph_id := <[i := sid]> (node_to_subgraph_id st);
       split_op_graphs := split_op_graphs st ++ [sid] |}
  else
    {| subgraph_id := subgraph_id st;
       node_to_subgraph_id :=
         <[i := subgraph_id st]> (node_to_subgraph_id st);
       split_op_graphs := split_op_graphs st |}.

Fixpoint assign_nodes (ops : list string) (st : SplitLoop) (i : nat)
    (nodes : list Fx.Node) : SplitLoop :=
  match nodes with
  | [] => st
  | node :: rest => assign_nodes ops (assign_node ops st i node) (S i) rest
  end.

(** The second loop: one [SplitItem] per direct child of the stitched
    module. *)
Fixpoint collect_items (split_gm : Fx.GraphModule) (split_ops : list nat)
    (names : list string) : exn + list SplitItem :=
  match names with
  | [] => inr []
  | nm :: rest =>
      if contains "." nm || bool_decide (nm = "")
      then collect_items split_gm split_ops rest
      else
        match Fx.getattr (Fx.children split_gm) nm with
        | None => inl (AttributeError nm)
        | Some module =>
            match int_of_string (replace "submod_" "" nm) with
            | None => inl ValueError
            | Some gid =>
                match collect_items split_gm split_ops rest with
                | inl e => inl e
                | inr outputs =>
                    inr (mkSplitItem nm gid (bool_decide (gid ∈ split_ops))
                           module :: outputs)
                end
            end
        end
  end.

(** [outputs.sort(key=lambda x: x.graph_id)]: the sort is stable. *)
Fixpoint insert_by_graph_id (x : SplitItem) (l : list SplitItem)
  : list SplitItem :=
  match l with
  | [] => [x]
  | y :: l' =>
      if decide (graph_id x <= graph_id y) then x :: y :: l'
      else y :: insert_by_graph_id x l'
  end.

Definition sort_by_graph_id (l : list SplitItem) : list SplitItem :=
  foldr insert_by_graph_id [] l.

Definition split_graph (nodes : list Fx.Node) (ops : list string)
  : exn + (Fx.GraphModule * list SplitItem) :=
  let st := assign_nodes ops (mkSplitLoop 0 ∅ []) 0 nodes in
  match Fx.split_module nodes (fun i => node_to_subgraph_id st !! i) with
  | inl e => inl e
  | inr split_gm =>
      let names := map fst (Fx.named_modules split_gm) in
      match collect_items split_gm (split_op_graphs st) names with
      | inl e => inl e
      | inr outputs => inr (split_gm, sort_by_graph_id outputs)
      end
  end.

(** ** Collaborators *)

(** A compiled callable is opaque to this module. *)
Inductive Callable : Type :=
| CompiledGraph (label : string).

(** A tensor is the list of its rows along the leading dimension. *)
Definition Tensor : Type := list (list Z).

(** An argument of the traced graph.  [symbolic] tells whether the fake
    tensor made from a tensor has a symbolic dimension.  A static slice is
    the view [self.input_buffers[buffer][:rows]]: it has no data of its
    own, it shows the first rows of a buffer of the backend. *)
Inductive Arg : Type :=
| ArgTensor (symbolic : bool) (data : Tensor)
| ArgStaticSlice (buffer : nat) (rows : nat)
| ArgSymInt (hint : Z)
| ArgOther (label : string).

(** The rows an argument shows, given the buffers of the backend; [None]
    for an argument that is not a tensor. *)
Definition tensor_data (buffers : list Tensor) (a : Arg) : option Tensor :=
  match a with
  | ArgTensor _ data => Some data
  | ArgStaticSlice buffer rows => take rows <$> buffers !! buffer
  | ArgSymInt _ | ArgOther _ => None
  end.

(** The three subclasses of [CompilerInterface]. *)
Inductive AdaptorClass : Type :=
| EagerAdaptor
| InductorAdaptor
| InductorStandaloneAdaptor.

#[global] Instance AdaptorClass_eq_dec : EqDecision AdaptorClass.
Proof. solve_decision. Defined.

(** An adaptor instance: its class, its [name], and what its [compile] and
    [load] return.  [compile(graph, example_inputs, config, runtime_shape,
    key)] returns the pair [(compiled_graph, handle)]; a missing callable is
    [None] and a missing handle is [PyNone]. *)
Record CompilerInterface : Type := mkCompilerInterface {
  adaptor_class : AdaptorClass;
  compiler_name : string;
  compiler_compile :
    list Fx.Node -> list Arg -> pyval -> option Z -> option string ->
    option Callable * pyval;
  compiler_load :
    pyval -> list Fx.Node -> list Arg -> Z -> option Z -> option Callable;
}.

(** Calls that leave this module, in the order they happen. *)
Inductive Event : Type :=
| AdaptorInitializeCache (cache_dir : string) (disable_cache : bool)
    (prefix : string)
| AdaptorLoad (handle : pyval) (graph_index : Z) (runtime_shape : option Z)
| AdaptorCompile (graph : list Fx.Node) (runtime_shape : option Z)
    (key : option string)
| SplitModule (nodes : list Fx.Node)
| InstallPiecewiseBackend (target : string) (index total : nat)
| RunStitchedGraph (args : list Arg).

(** [vllm.envs] and the installed torch. *)
Record Envs : Type := mkEnvs {
  VLLM_DISABLE_COMPILE_CACHE : bool;
  VLLM_USE_STANDALONE_COMPILE : bool;
  VLLM_CACHE_ROOT : string;
  torch_equal_or_newer_2_8 : bool;
  (** the adaptor instance each class constructs *)
  new_adaptor : AdaptorClass -> CompilerInterface;
  (** the ten hex digits [__call__] derives from its hash factors *)
  hash_key : string;
  (** [GraphModule.print_readable(print_output=False)] *)
  print_readable : Fx.GraphModule -> string;
}.

(** [compilation_counter] *)
Record CompilationCounter : Type := mkCounter {
  num_graphs_seen : nat;
  num_piecewise_graphs_seen : nat;
  num_piecewise_capturable_graphs_seen : nat;
  num_backend_compilations : nat;
  num_cache_entries_updated : nat;
}.

(** What [inductor_compile_config] holds under the key
    ["post_grad_custom_post_pass"]: a [PostGradPassManager] (with the uuid
    of the backend's own manager or another one), some other
    [InductorPass], or an object that is neither. *)
Inductive PassEntry : Type :=
| PassManager (same_uuid : bool)
| CustomInductorPass
| OtherObject.

(** The fields of [CompilationConfig] the module reads or writes. *)
Record CompilationConfig : Type := mkConfig {
  use_inductor : bool;
  cache_dir : string;
  local_cache_dir : string;
  compilation_time : float;
  splitting_ops : list string;
  use_cudagraph : bool;
  cudagraph_copy_inputs : bool;
  inductor_compile_config : pyval;
  post_grad_custom_post_pass : option PassEntry;
  traced_files : list string;
}.

(** [os.path.join(a, b)] on POSIX paths. *)
Fixpoint ends_with_slash (s : string) : bool :=
  match s with
  | "" => false
  | String c "" => bool_decide (c = "/"%char)
  | String _ s' => ends_with_slash s'
  end.

Definition path_join (a b : string) : string :=
  if String.prefix "/" b then b
  else if bool_decide (a = "") || ends_with_slash a then a +:+ b
  else a +:+ "/" +:+ b.

(** ** CompilerManager *)

(** The attributes of a manager.  [disable_cache], [cache_dir] and
    [cache_file_path] do not exist before [initialize_cache].  The cache is
    whatever value [ast.literal_eval] returned, or the dictionary
    [__init__] made. *)
Record CompilerManager : Type := mkManager {
  cache : pyval;
  is_cache_updated : bool;
  compiler : CompilerInterface;
  disable_cache : option bool;
  mgr_cache_dir : option string;
  cache_file_path : option string;
}.

(** The key [(runtime_shape, graph_index, self.compiler.name)]. *)
Definition cache_key (runtime_shape : option Z) (graph_index : Z)
    (name : string) : pyval :=
  PyTuple [match runtime_shape with
           | None => PyNone
           | Some z => PyInt z
           end; PyInt graph_index; PyStr name].

Definition make_compiler (envs : Envs) (compilation_config : CompilationConfig)
  : CompilerInterface :=
  if use_inductor compilation_config then
    if VLLM_USE_STANDALONE_COMPILE envs && torch_equal_or_newer_2_8 envs
    then new_adaptor envs InductorStandaloneAdaptor
    else new_adaptor envs InductorAdaptor
  else new_adaptor envs EagerAdaptor.

(** [CompilerManager.__init__] *)
Definition new_manager (envs : Envs) (compilation_config : CompilationConfig)
  : CompilerManager :=
  {| cache := PyDict [];
     is_cache_updated := false;
     compiler := make_compiler envs compilation_config;
     disable_cache := None;
     mgr_cache_dir := None;
     cache_file_path := None |}.

(** ** The state the methods share *)

(** The attributes of a [VllmBackend] other than its manager and
    configuration, which are fields of the state below. *)
Record VllmBackend : Type := mkBackend {
  prefix : string;
  _called : bool;
  traced_graph : option (list Fx.Node);
  split_gm : option Fx.GraphModule;
  piecewise_graphs : list SplitItem;
  sym_tensor_indices : list nat;
  input_buffers : list Tensor;
}.

(** One backend instance with its manager, the configuration object it
    shares with its callers, and the module and process globals. *)
Record State : Type := mkState {
  envs : Envs;
  rank : Z;
  data_parallel_rank : Z;
  files : gmap string string;
  clock : nat;
  time_source : nat -> float;
  compilation_start_time : float;
  torch_compile_start_time : float;
  compilation_counter : CompilationCounter;
  events : list Event;
  config : CompilationConfig;
  manager : CompilerManager;
  backend : VllmBackend;
}.

Definition set_files (f : gmap string string) (s : State) : State :=
  mkState (envs s) (rank s) (data_parallel_rank s) f (clock s)
    (time_source s) (compilation_start_time s) (torch_compile_start_time s)
    (compilation_counter s) (events s) (config s) (manager s) (backend s).

Definition set_clock (n : nat) (s : State) : State :=
  mkState (envs s) (rank s) (data_parallel_rank s) (files s) n
    (time_source s) (compilation_start_time s) (torch_compile_start_time s)
    (compilation_counter s) (events s) (config s) (manager s) (backend s).

Definition set_compilation_start_time (t : float) (s : State) : State :=
  mkState (envs s) (rank s) (data_parallel_rank s) (files s) (clock s)
    (time_source s) t (torch_compile_start_time s)
    (compilation_counter s) (events s) (config s) (manager s) (backend s).

Definition set_counter (c : CompilationCounter) (s : State) : State :=
  mkState (envs s) (rank s) (data_parallel_rank s) (files s) (clock s)
    (time_source s) (compilation_start_time s) (torch_compile_start_time s)
    c (events s) (config s) (manager s) (backend s).

Definition set_events (e : list Event) (s : State) : State :=
  mkState (envs s) (rank s) (data_parallel_rank s) (files s) (clock s)
    (time_source s) (compilation_start_time s) (torch_compile_start_time s)
    (compilation_counter s) e (config s) (manager s) (backend s).

Definition set_config (c : CompilationConfig) (s : State) : State :=
  mkState (envs s) (rank s) (data_parallel_rank s) (files s) (clock s)
    (time_source s) (compilation_start_time s) (torch_compile_start_time s)
    (compilation_counter s) (events s) c (manager s) (backend s).

Definition set_manager (m : CompilerManager) (s : State) : State :=
  mkState (envs s) (rank s) (data_parallel_rank s) (files s) (clock s)
    (time_source s) (compilation_start_time s) (torch_compile_start_time s)
    (compilation_counter s) (events s) (config s) m (backend s).

Definition set_backend (b : VllmBackend) (s : State) : State :=
  mkState (envs s) (rank s) (data_parallel_rank s) (files s) (clock s)
    (time_source s) (compilation_start_time s) (torch_compile_start_time s)
    (compilation_counter s) (events s) (config s) (manager s) b.

(** A method: it returns a value or raises, and either way leaves a
    state. *)
Definition M (A : Type) : Type := State -> (exn + A) * State.

Definition ret {A : Type} (a : A) : M A := fun s => (inr a, s).

Definition raise {A : Type} (e : exn) : M A := fun s => (inl e, s).

Definition bind {A B : Type} (m : M A) (k : A -> M B) : M B :=
  fun s =>
    match m s with
    | (inl e, s') => (inl e, s')
    | (inr a, s') => k a s'
    end.

Notation "'let*' x ':=' m 'in' k" := (bind m (fun x => k))
  (at level 10, x pattern, m at level 100, k at level 200).
Notation "m ';;' k" := (bind m (fun _ => k))
  (at level 100, k at level 200, right associativity).

Definition gets {A : Type} (f : State -> A) : M A := fun s => (inr (f s), s).

Definition modify (f : State -> State) : M unit := fun s => (inr tt, f s).

(** Propagate the exception of a pure computation. *)
Definition lift {A : Type} (r : exn + A) : M A :=
  match r with
  | inl e => raise e
  | inr a => ret a
  end.

Definition when (b : bool) (m : M unit) : M unit := if b then m else ret tt.

Definition emit (e : Event) : M unit :=
  modify (fun s => set_events (events s ++ [e]) s).

(** [time.time()] *)
Definition time_time : M float :=
  fun s => (inr (time_source s (clock s)), set_clock (S (clock s)) s).

(** ** CompilerManager methods *)

Definition set_cache (v : pyval) (m : CompilerManager) : CompilerManager :=
  mkManager v (is_cache_updated m) (compiler m) (disable_cache m)
    (mgr_cache_dir m) (cache_file_path m).

Definition set_is_cache_updated (b : bool) (m : CompilerManager)
  : CompilerManager :=
  mkManager (cache m) b (compiler m) (disable_cache m)
    (mgr_cache_dir m) (cache_file_path m).

Definition set_compilation_time (t : float) (c : CompilationConfig)
  : CompilationConfig :=
  mkConfig (use_inductor c) (cache_dir c) (local_cache_dir c) t
    (splitting_ops c) (use_cudagraph c) (cudagraph_copy_inputs c)
    (inductor_compile_config c) (post_grad_custom_post_pass c)
    (traced_files c).

(** [self.<attr>] for an attribute that [initialize_cache] creates. *)
Definition attribute {A : Type} (attr : string) (f : CompilerManager -> option A)
  : M A :=
  let* m := gets manager in
  match f m with
  | Some a => ret a
  | None => raise (AttributeError attr)
  end.

(** [CompilerManager.initialize_cache] *)
Definition initialize_cache (cache_dir : string) (disable_cache : bool)
    (prefix : string) : M unit :=
  let cache_file_path := path_join cache_dir "vllm_compile_cache.py" in
  modify (fun s =>
    set_manager
      (mkManager (cache (manager s)) (is_cache_updated (manager s))
         (compiler (manager s)) (Some disable_cache) (Some cache_dir)
         (Some cache_file_path)) s);;
  let* fs := gets files in
  (match fs !! cache_file_path with
   | Some text =>
       when (negb disable_cache)
         (let* v := lift (literal_eval text) in
          modify (fun s => set_manager (set_cache v (manager s)) s))
   | None => ret tt
   end);;
  emit (AdaptorInitializeCache cache_dir disable_cache prefix).

(** [CompilerManager.save_to_file]; [pformat] is
    [pprint.PrettyPrinter(indent=4).pformat]. *)
Definition save_to_file (pformat : pyval -> string) : M unit :=
  let* disabled := attribute "disable_cache" disable_cache in
  let* m := gets manager in
  if disabled || negb (is_cache_updated m) then ret tt
  else
    let data := pformat (cache m) in
    let* path := attribute "cache_file_path" cache_file_path in
    modify (fun s => set_files (<[path := data]> (files s)) s).

(** [CompilerManager.load] *)
Definition load (graph : list Fx.Node) (example_inputs : list Arg)
    (graph_index : Z) (runtime_shape : option Z) : M (option Callable) :=
  let* m := gets manager in
  let key := cache_key runtime_shape graph_index (compiler_name (compiler m)) in
  let* present := lift (py_contains key (cache m)) in
  if negb present then ret None
  else
    let* handle := lift (py_getitem (cache m) key) in
    emit (AdaptorLoad handle graph_index runtime_shape);;
    ret (compiler_load (compiler m) handle graph example_inputs graph_index
           runtime_shape).

Definition bump_backend_compilations (c : CompilationCounter)
  : CompilationCounter :=
  mkCounter (num_graphs_seen c) (num_piecewise_graphs_seen c)
    (num_piecewise_capturable_graphs_seen c)
    (S (num_backend_compilations c)) (num_cache_entries_updated c).

Definition bump_cache_entries_updated (c : CompilationCounter)
  : CompilationCounter :=
  mkCounter (num_graphs_seen c) (num_piecewise_graphs_seen c)
    (num_piecewise_capturable_graphs_seen c)
    (num_backend_compilations c) (S (num_cache_entries_updated c)).

(** [CompilerManager.compile].  [compilation_config] is the configuration
    object of the state: every caller passes the one it shares with the
    backend.  Logging is left out. *)
Definition compile (graph : list Fx.Node) (example_inputs : list Arg)
    (additional_inductor_config : pyval) (graph_index num_graphs : Z)
    (runtime_shape : option Z) : M Callable :=
  when (bool_decide (graph_index = 0%Z))
    (let* now := time_time in
     modify (set_compilation_start_time now));;
  modify (fun s =>
    set_counter (bump_backend_compilations (compilation_counter s)) s);;
  let* compiled_graph := load graph example_inputs graph_index runtime_shape in
  match compiled_graph with
  | Some compiled_graph =>
      when (bool_decide (graph_index = (num_graphs - 1)%Z))
        (let* now := time_time in ret tt);;
      ret compiled_graph
  | None =>
      let* m := gets manager in
      let maybe_key :=
        if decide (adaptor_class (compiler m) = InductorAdaptor) then None
        else Some ("artifact_shape_" +:+ str_of_optional_int runtime_shape
                   +:+ "_subgraph_" +:+ str_of_Z graph_index) in
      emit (AdaptorCompile graph runtime_shape maybe_key);;
      let '(compiled_graph, handle) :=
        compiler_compile (compiler m) graph example_inputs
          additional_inductor_config runtime_shape maybe_key in
      match compiled_graph with
      | None => raise (AssertionError "Failed to compile the graph")
      | Some compiled_graph =>
          let* disabled := gets (fun s => VLLM_DISABLE_COMPILE_CACHE (envs s)) in
          when (negb disabled && negb (pyval_eqb handle PyNone))
            (let key :=
               cache_key runtime_shape graph_index (compiler_name (compiler m)) in
             let* cache' := lift (py_setitem (cache m) key handle) in
             modify (fun s => set_manager (set_cache cache' (manager s)) s);;
             modify (fun s =>
               set_counter
                 (bump_cache_entries_updated (compilation_counter s)) s);;
             modify (fun s =>
               set_manager (set_is_cache_updated true (manager s)) s));;
          when (bool_decide (graph_index = (num_graphs - 1)%Z))
            (let* now := time_time in
             let* start := gets compilation_start_time in
             let elapsed := (now - start)%float in
             modify (fun s =>
               set_config
                 (set_compilation_time
                    (compilation_time (config s) + elapsed)%float (config s))
                 s));;
          ret compiled_graph
      end
  end.

(** ** PiecewiseCompileInterpreter *)

(** [names.index(target)] *)
Fixpoint index_of (target : string) (names : list string) : option nat :=
  match names with
  | [] => None
  | n :: rest =>
      if decide (n = target) then Some 0 else S <$> index_of target rest
  end.

Definition bump_capturable_graphs_seen (c : CompilationCounter)
  : CompilationCounter :=
  mkCounter (num_graphs_seen c) (num_piecewise_graphs_seen c)
    (S (num_piecewise_capturable_graphs_seen c))
    (num_backend_compilations c) (num_cache_entries_updated c).

(** [PiecewiseCompileInterpreter.call_module].  The values that flow
    between the submodules of the fake run are not modelled: a submodule
    is handed the arguments of the run. *)
Definition call_module (module : Fx.GraphModule)
    (compile_submod_names : list string) (target : string) (args : list Arg)
  : M unit :=
  if bool_decide (target ∈ compile_submod_names) then
    let* index :=
      match index_of target compile_submod_names with
      | Some i => ret i
      | None => raise ValueError
      end in
    let* submod :=
      match Fx.getattr (Fx.children module) target with
      | Some m => ret m
      | None => raise (AttributeError target)
      end in
    let* cfg := gets config in
    let* compiled_graph_for_dynamic_shape :=
      compile submod args (inductor_compile_config cfg) (Z.of_nat index)
        (Z.of_nat (length compile_submod_names)) None in
    emit (InstallPiecewiseBackend target index (length compile_submod_names));;
    modify (fun s =>
      set_counter (bump_capturable_graphs_seen (compilation_counter s)) s)
  else ret tt.

(** [PiecewiseCompileInterpreter.run]: the stitched graph calls its
    submodules in order. *)
Fixpoint run_targets (module : Fx.GraphModule)
    (compile_submod_names : list string) (targets : list string)
    (args : list Arg) : M unit :=
  match targets with
  | [] => ret tt
  | target :: rest =>
      call_module module compile_submod_names target args;;
      run_targets module compile_submod_names rest args
  end.

Definition run (module : Fx.GraphModule) (compile_submod_names : list string)
    (args : list Arg) : M unit :=
  run_targets module compile_submod_names (map fst (Fx.children module)) args.

(** ** VllmBackend *)

Definition set_called (b : bool) (v : VllmBackend) : VllmBackend :=
  mkBackend (prefix v) b (traced_graph v) (split_gm v) (piecewise_graphs v)
    (sym_tensor_indices v) (input_buffers v).

Definition set_input_buffers (l : list Tensor) (v : VllmBackend) : VllmBackend :=
  mkBackend (prefix v) (_called v) (traced_graph v) (split_gm v)
    (piecewise_graphs v) (sym_tensor_indices v) l.

Definition set_post_pass (e : option PassEntry) (c : CompilationConfig)
  : CompilationConfig :=
  mkConfig (use_inductor c) (cache_dir c) (local_cache_dir c)
    (compilation_time c) (splitting_ops c) (use_cudagraph c)
    (cudagraph_copy_inputs c) (inductor_compile_config c) e (traced_files c).

Definition bump_graphs_seen (c : CompilationCounter) : CompilationCounter :=
  mkCounter (S (num_graphs_seen c)) (num_piecewise_graphs_seen c)
    (num_piecewise_capturable_graphs_seen c)
    (num_backend_compilations c) (num_cache_entries_updated c).

Definition add_piecewise_graphs_seen (n : nat) (c : CompilationCounter)
  : CompilationCounter :=
  mkCounter (num_graphs_seen c) (num_piecewise_graphs_seen c + n)
    (num_piecewise_capturable_graphs_seen c)
    (num_backend_compilations c) (num_cache_entries_updated c).

(** [VllmBackend.__init__]: a new instance, with a new manager, in a
    process whose globals are those of [s].  [model_tag] is the module
    global of that name. *)
Definition new_backend (prefix model_tag : string) (s : State) : State :=
  set_backend
    {| prefix := if bool_decide (prefix = "") then model_tag else prefix;
       _called := false;
       traced_graph := None;
       split_gm := None;
       piecewise_graphs := [];
       sym_tensor_indices := [];
       input_buffers := [] |}
    (set_manager (new_manager (envs s) (config s)) s).

(** [VllmBackend.configure_post_pass] *)
Definition configure_post_pass : M unit :=
  let* cfg := gets config in
  (match post_grad_custom_post_pass cfg with
   | Some (PassManager same_uuid) =>
       if same_uuid then ret tt else raise (AssertionError "")
   | Some CustomInductorPass => ret tt
   | Some OtherObject => raise (AssertionError "")
   | None => ret tt
   end);;
  modify (fun s =>
    set_config (set_post_pass (Some (PassManager true)) (config s)) s).

(** What [__call__] returns to Dynamo: the stitched module, or the
    [copy_and_call] closure over the backend. *)
Inductive Returned : Type :=
| ReturnSplitGm (split_gm : Fx.GraphModule)
| ReturnCopyAndCall.

(** [i for i, x in enumerate(fake_args) if x is a fake tensor with a
    symbolic dimension] *)
Fixpoint symbolic_indices (i : nat) (args : list Arg) : list nat :=
  match args with
  | [] => []
  | ArgTensor true _ :: rest => i :: symbolic_indices (S i) rest
  | _ :: rest => symbolic_indices (S i) rest
  end.

(** [example_inputs[x].clone() for x in indices] *)
Fixpoint clone_inputs (buffers : list Tensor) (example_inputs : list Arg)
    (indices : list nat) : exn + list Tensor :=
  match indices with
  | [] => inr []
  | x :: rest =>
      match example_inputs !! x with
      | Some a =>
          match tensor_data buffers a with
          | Some data =>
              match clone_inputs buffers example_inputs rest with
              | inl e => inl e
              | inr l => inr (data :: l)
              end
          | None => inl (AttributeError "clone")
          end
      | None => inl IndexError
      end
  end.

(** [VllmBackend.__call__].  Creating directories and logging are left
    out; the digest of the hash factors is [hash_key]. *)
Definition __call__ (graph : list Fx.Node) (example_inputs : list Arg)
  : M Returned :=
  let* cfg := gets config in
  when (bool_decide (cache_dir cfg = ""))
    (let* e := gets envs in
     let cache_dir :=
       path_join (path_join (VLLM_CACHE_ROOT e) "torch_compile_cache")
         (hash_key e) in
     modify (fun s =>
       set_config
         (mkConfig (use_inductor (config s)) cache_dir
            (local_cache_dir (config s)) (compilation_time (config s))
            (splitting_ops (config s)) (use_cudagraph (config s))
            (cudagraph_copy_inputs (config s))
            (inductor_compile_config (config s))
            (post_grad_custom_post_pass (config s)) []) s));;
  let* cfg := gets config in
  let* r := gets rank in
  let* dp_rank := gets data_parallel_rank in
  let* self := gets backend in
  let local_cache_dir :=
    path_join
      (path_join (cache_dir cfg)
         ("rank_" +:+ str_of_Z r +:+ "_" +:+ str_of_Z dp_rank))
      (prefix self) in
  modify (fun s =>
    set_config
      (mkConfig (use_inductor (config s)) (cache_dir (config s))
         local_cache_dir (compilation_time (config s))
         (splitting_ops (config s)) (use_cudagraph (config s))
         (cudagraph_copy_inputs (config s))
         (inductor_compile_config (config s))
         (post_grad_custom_post_pass (config s)) (traced_files (config s)))
      s);;
  let* disable_cache := gets (fun s => VLLM_DISABLE_COMPILE_CACHE (envs s)) in
  initialize_cache local_cache_dir disable_cache (prefix self);;
  modify (fun s => set_counter (bump_graphs_seen (compilation_counter s)) s);;
  let* now := time_time in
  let* start := gets torch_compile_start_time in
  let dynamo_time := (now - start)%float in
  modify (fun s =>
    set_config
      (set_compilation_time
         (compilation_time (config s) + dynamo_time)%float (config s)) s);;
  let* self := gets backend in
  if _called self
  then raise (AssertionError "VllmBackend can only be called once")
  else
    configure_post_pass;;
    let* cfg := gets config in
    emit (SplitModule graph);;
    let* (gm, items) := lift (split_graph graph (splitting_ops cfg)) in
    modify (fun s =>
      set_backend
        (mkBackend (prefix (backend s)) (_called (backend s)) (Some graph)
           (Some gm) items (sym_tensor_indices (backend s))
           (input_buffers (backend s))) s);;
    modify (fun s =>
      set_counter
        (add_piecewise_graphs_seen (length items) (compilation_counter s)) s);;
    let submod_names_to_compile :=
      map submod_name (filter (fun item => is_splitting_graph item = false) items) in
    run gm submod_names_to_compile example_inputs;;
    let graph_path := path_join local_cache_dir "computation_graph.py" in
    let* fs := gets files in
    let* e := gets envs in
    when (bool_decide (fs !! graph_path = None))
      (let src :=
         replace "<lambda>" "GraphModule"
           ("from __future__ import annotations" +:+ String newline ""
            +:+ "import torch" +:+ String newline ""
            +:+ print_readable e gm) in
       modify (fun s => set_files (<[graph_path := src]> (files s)) s));;
    modify (fun s => set_backend (set_called true (backend s)) s);;
    if negb (use_cudagraph cfg) || negb (cudagraph_copy_inputs cfg)
    then ret (ReturnSplitGm gm)
    else
      let indices := symbolic_indices 0 example_inputs in
      let* self := gets backend in
      let* buffers :=
        lift (clone_inputs (input_buffers self) example_inputs indices) in
      modify (fun s =>
        set_backend
          (mkBackend (prefix (backend s)) (_called (backend s))
             (traced_graph (backend s)) (split_gm (backend s))
             (piecewise_graphs (backend s)) indices buffers) s);;
      ret ReturnCopyAndCall.

(** [dst.copy_(src)] along the leading dimension: the new rows of [dst].
    Equal lengths copy row by row, a single source row is broadcast, and
    any other pair of lengths is an error. *)
Definition copy_ (dst src : Tensor) : exn + Tensor :=
  if decide (length src = length dst) then inr src
  else
    match src with
    | [row] => inr (replicate (length dst) row)
    | _ => inl (RuntimeError "size mismatch")
    end.

(** The loop of [copy_and_call].  The static tensor is a view of the first
    rows of its buffer: [copy_] writes the buffer, and the argument list
    gets the view.  [i] counts the iterations. *)
Fixpoint copy_inputs (i : nat) (indices : list nat) (list_args : list Arg)
  : M (list Arg) :=
  match indices with
  | [] => ret list_args
  | index :: rest =>
      let* self := gets backend in
      match list_args !! index with
      | None => raise IndexError
      | Some arg =>
          match tensor_data (input_buffers self) arg with
          | None => raise (AttributeError "shape")
          | Some runtime_tensor =>
              let runtime_shape := length runtime_tensor in
              match input_buffers self !! i with
              | None => raise IndexError
              | Some buffer =>
                  let static_rows := length (take runtime_shape buffer) in
                  let* copied :=
                    lift (copy_ (take runtime_shape buffer) runtime_tensor) in
                  modify (fun s =>
                    set_backend
                      (set_input_buffers
                         (<[i := copied ++ drop runtime_shape buffer]>
                            (input_buffers (backend s))) (backend s)) s);;
                  copy_inputs (S i) rest
                    (<[index := ArgStaticSlice i static_rows]> list_args)
              end
          end
      end
  end.

(** [copy_and_call]: the arguments handed to [self.split_gm]. *)
Definition copy_and_call (args : list Arg) : M (list Arg) :=
  let* self := gets backend in
  let* list_args := copy_inputs 0 (sym_tensor_indices self) args in
  emit (RunStitchedGraph list_args);;
  ret list_args.

(** ** The model tag *)

(** The module global [model_tag], which starts as ["backbone"], beside the
    state of the process. *)
Record Tagged : Type := mkTagged {
  model_tag : string;
  process : State;
}.

(** Code that runs in a process and may read or set its model tag. *)
Definition Block (A : Type) : Type := Tagged -> (exn + A) * Tagged.

(** [with set_model_tag(tag): body].  The generator asserts that the tag is
    new and sets it before the body runs; its [finally] clause puts the old
    tag back when the body has returned and when it has raised, and an
    exception of the body goes on to the caller. *)
Definition set_model_tag {A : Type} (tag : string) (body : Block A) : Block A :=
  fun g =>
    if bool_decide (tag = model_tag g) then
      (inl (AssertionError
              ("Model tag " +:+ tag +:+ " is the same as the current tag "
               +:+ model_tag g +:+ ".")), g)
    else
      let old_tag := model_tag g in
      let '(r, g') := body (mkTagged tag (process g)) in
      (r, mkTagged old_tag (process g')).

(** [VllmBackend(vllm_config, prefix)] in a process with its model tag. *)
Definition construct_backend (prefix : string) : Block unit :=
  fun g =>
    (inr tt,
     mkTagged (model_tag g) (new_backend prefix (model_tag g) (process g))).

(** * Properties *)

(** ** split_graph: what the first loop computes *)

Section SplitLoop.

Variable ops : list string.

(** The value of [subgraph_id] after the loop has visited [nodes]. *)
Fixpoint final_id (sid : nat) (nodes : list Fx.Node) : nat :=
  match nodes with
  | [] => sid
  | node :: rest =>
      if is_structural node then final_id sid rest
      else if is_split_op ops node then final_id (S (S sid)) rest
      else final_id sid rest
  end.

(** The entry of [node_to_subgraph_id] for each visited node, in order. *)
Fixpoint assigned_ids (sid : nat) (nodes : list Fx.Node) : list (option nat) :=
  match nodes with
  | [] => []
  | node :: rest =>
      if is_structural node then None :: assigned_ids sid rest
      else if is_split_op ops node
           then Some (S sid) :: assigned_ids (S (S sid)) rest
           else Some sid :: assigned_ids sid rest
  end.

(** The ids appended to [split_op_graphs]. *)
Fixpoint split_ids (sid : nat) (nodes : list Fx.Node) : list nat :=
  match nodes with
  | [] => []
  | node :: rest =>
      if is_structural node then split_ids sid rest
      else if is_split_op ops node then S sid :: split_ids (S (S sid)) rest
      else split_ids sid rest
  end.

(** The nodes [split_module] partitions, each with the id the callback
    returns for it. *)
Fixpoint assigned (sid : nat) (nodes : list Fx.Node) : list (nat * Fx.Node) :=
  match nodes with
  | [] => []
  | node :: rest =>
      if is_structural node then assigned sid rest
      else if is_split_op ops node
           then (S sid, node) :: assigned (S (S sid)) rest
           else if Fx.partitioned node
                then (sid, node) :: assigned sid rest
                else assigned sid rest
  end.

Lemma assign_nodes_subgraph_id nodes : forall st i,
  subgraph_id (assign_nodes ops st i nodes) = final_id (subgraph_id st) nodes.
Proof.
  induction nodes as [|node rest IH]; intros st i; simpl; [done|].
  rewrite IH. unfold assign_node.
  destruct (is_structural node); [done|].
  destruct (is_split_op ops node); done.
Qed.

Lemma assign_nodes_split_op_graphs nodes : forall st i,
  split_op_graphs (assign_nodes ops st i nodes)
  = split_op_graphs st ++ split_ids (subgraph_id st) nodes.
Proof.
  induction nodes as [|node rest IH]; intros st i; simpl.
  - by rewrite app_nil_r.
  - rewrite IH. unfold assign_node.
    destruct (is_structural node); [done|].
    destruct (is_split_op ops node); simpl; [|done].
    by rewrite <- app_assoc.
Qed.

Lemma assign_nodes_lookup_lt nodes : forall st i j,
  j < i ->
  node_to_subgraph_id (assign_nodes ops st i nodes) !! j
  = node_to_subgraph_id st !! j.
Proof.
  induction nodes as [|node rest IH]; intros st i j Hj; simpl; [done|].
  rewrite IH by lia. unfold assign_node.
  destruct (is_structural node); [done|].
  destruct (is_split_op ops node); simpl; rewrite lookup_insert_ne; auto; lia.
Qed.

Lemma assign_nodes_lookup nodes : forall st i k,
  node_to_subgraph_id (assign_nodes ops st i nodes) !! (i + k)
  = match assigned_ids (subgraph_id st) nodes !! k with
    | Some (Some id) => Some id
    | _ => node_to_subgraph_id st !! (i + k)
    end.
Proof.
  induction nodes as [|node rest IH]; intros st i k; simpl; [done|].
  destruct k as [|k].
  - rewrite Nat.add_0_r, assign_nodes_lookup_lt by lia.
    unfold assign_node.
    destruct (is_structural node); [done|].
    destruct (is_split_op ops node); simpl; by rewrite lookup_insert_eq.
  - replace (i + S k) with (S i + k) by lia. rewrite IH.
    unfold assign_node.
    destruct (is_structural node); simpl; [done|].
    destruct (is_split_op ops node); simpl;
      destruct (_ !! k) as [[id|]|]; try done;
      rewrite lookup_insert_ne; auto; lia.
Qed.

Lemma final_id_app a : forall sid b,
  final_id sid (a ++ b) = final_id (final_id sid a) b.
Proof.
  induction a as [|node rest IH]; intros sid b; simpl; [done|].
  destruct (is_structural node); [done|].
  destruct (is_split_op ops node); done.
Qed.

Lemma final_id_ge nodes : forall sid, sid <= final_id sid nodes.
Proof.
  induction nodes as [|node rest IH]; intros sid; simpl; [done|].
  destruct (is_structural node); [done|].
  destruct (is_split_op ops node); [|done].
  specialize (IH (S (S sid))). lia.
Qed.

Lemma assigned_ge nodes : forall sid p n,
  (p, n) ∈ assigned sid nodes -> sid <= p.
Proof.
  induction nodes as [|node rest IH]; intros sid p n; simpl.
  - by intros ?%elem_of_nil.
  - destruct (is_structural node); [by apply IH|].
    destruct (is_split_op ops node).
    + intros [Heq|Hin]%elem_of_cons.
      * injection Heq as -> _. lia.
      * apply IH in Hin. lia.
    + destruct (Fx.partitioned node); [|by apply IH].
      intros [Heq|Hin]%elem_of_cons.
      * injection Heq as -> _. lia.
      * by apply IH in Hin.
Qed.

Lemma split_ids_gt nodes : forall sid p, p ∈ split_ids sid nodes -> sid < p.
Proof.
  induction nodes as [|node rest IH]; intros sid p; simpl.
  - by intros ?%elem_of_nil.
  - destruct (is_structural node); [by apply IH|].
    destruct (is_split_op ops node); [|by apply IH].
    intros [->|Hin]%elem_of_cons; [lia|].
    apply IH in Hin. lia.
Qed.

End SplitLoop.

(** ** Names of submodules *)

Definition is_digit (c : ascii) : bool :=
  bool_decide (c ∈ ["0"; "1"; "2"; "3"; "4"; "5"; "6"; "7"; "8"; "9"]%char).

Fixpoint all_digits (s : string) : bool :=
  match s with
  | "" => true
  | String c s' => is_digit c && all_digits s'
  end.

Lemma string_of_uint_digits d : all_digits (NilEmpty.string_of_uint d) = true.
Proof. induction d; simpl; auto. Qed.

Lemma str_of_nat_digits n : all_digits (str_of_nat n) = true.
Proof.
  unfold str_of_nat, NilZero.string_of_uint.
  destruct (Nat.to_uint n) eqn:E; try done;
    rewrite <- E; apply string_of_uint_digits.
Qed.

Lemma to_uint_nonnil n : Nat.to_uint n <> Decimal.Nil.
Proof.
  rewrite <- (Unsigned.of_to n) at 1. rewrite Unsigned.to_of.
  apply DecimalFacts.unorm_nonnil.
Qed.

Lemma int_of_string_str_of_nat n : int_of_string (str_of_nat n) = Some n.
Proof.
  unfold int_of_string, str_of_nat.
  rewrite NilZero.usu by apply to_uint_nonnil.
  simpl. by rewrite Unsigned.of_to.
Qed.

Lemma is_digit_cases c :
  is_digit c = true ->
  c ∈ ["0"; "1"; "2"; "3"; "4"; "5"; "6"; "7"; "8"; "9"]%char.
Proof. unfold is_digit. by intros ?%bool_decide_eq_true. Qed.

Lemma replace_go_digits s :
  all_digits s = true -> replace_go "submod_" "" 0 s = s.
Proof.
  induction s as [|c s IH]; simpl; [done|].
  intros [Hc Hs]%andb_prop. apply is_digit_cases in Hc.
  rewrite IH by done.
  repeat (apply elem_of_cons in Hc as [->|Hc]; [reflexivity|]).
  by apply elem_of_nil in Hc.
Qed.

Lemma contains_dot_digits s : all_digits s = true -> contains "." s = false.
Proof.
  induction s as [|c s IH]; simpl; [done|].
  intros [Hc Hs]%andb_prop. apply is_digit_cases in Hc.
  rewrite IH by done.
  repeat (apply elem_of_cons in Hc as [->|Hc]; [reflexivity|]).
  by apply elem_of_nil in Hc.
Qed.

(** The name [split_module] gives the submodule of partition [pid]. *)
Definition submod (pid : nat) : string := "submod_" +:+ str_of_nat pid.

Arguments submod : simpl never.

Lemma submod_graph_id pid :
  int_of_string (replace "submod_" "" (submod pid)) = Some pid.
Proof.
  unfold submod, replace.
  assert (forall x, replace_go "submod_" "" 0 ("submod_" +:+ x)
                    = replace_go "submod_" "" 0 x) as ->
    by (intros x; destruct x; reflexivity).
  rewrite replace_go_digits by apply str_of_nat_digits.
  apply int_of_string_str_of_nat.
Qed.

Lemma submod_inj p q : submod p = submod q -> p = q.
Proof.
  intros H. pose proof (submod_graph_id p) as Hp.
  rewrite H, submod_graph_id in Hp. congruence.
Qed.

Lemma submod_not_skipped pid :
  contains "." (submod pid) || bool_decide (submod pid = "") = false.
Proof.
  unfold submod.
  change (contains "." ("submod_" +:+ str_of_nat pid))
    with (contains "." (str_of_nat pid)).
  rewrite contains_dot_digits by apply str_of_nat_digits.
  done.
Qed.

(** ** Partitions *)

(** The nodes of partition [pid], in graph order. *)
Definition nodes_of (pid : nat) (l : list (nat * Fx.Node)) : list Fx.Node :=
  map snd (filter (fun x => fst x = pid) l).

Fixpoint part_lookup (pid : nat) (parts : list (nat * list Fx.Node))
  : option (list Fx.Node) :=
  match parts with
  | [] => None
  | (p, ns) :: rest => if decide (p = pid) then Some ns else part_lookup pid rest
  end.

Definition group (parts : list (nat * list Fx.Node)) (l : list (nat * Fx.Node))
  : list (nat * list Fx.Node) :=
  foldl (fun acc x => Fx.add_to_partition (fst x) (snd x) acc) parts l.

Definition nonempty (ns : list Fx.Node) : option (list Fx.Node) :=
  match ns with
  | [] => None
  | _ => Some ns
  end.

Lemma nodes_of_app pid l1 l2 :
  nodes_of pid (l1 ++ l2) = nodes_of pid l1 ++ nodes_of pid l2.
Proof. unfold nodes_of. by rewrite filter_app, map_app. Qed.

Lemma nodes_of_cons pid p n l :
  nodes_of pid ((p, n) :: l)
  = if decide (p = pid) then n :: nodes_of pid l else nodes_of pid l.
Proof.
  unfold nodes_of. rewrite filter_cons. simpl.
  destruct (decide (p = pid)); done.
Qed.

Lemma part_lookup_add_eq pid node parts :
  part_lookup pid (Fx.add_to_partition pid node parts)
  = Some (default [] (part_lookup pid parts) ++ [node]).
Proof.
  induction parts as [|[p ns] rest IH]; simpl.
  - by rewrite decide_True.
  - destruct (decide (p = pid)); simpl.
    + by rewrite decide_True.
    + by rewrite decide_False.
Qed.

Lemma part_lookup_add_ne pid q node parts :
  q <> pid ->
  part_lookup q (Fx.add_to_partition pid node parts) = part_lookup q parts.
Proof.
  intros Hne. induction parts as [|[p ns] rest IH]; simpl.
  - by rewrite decide_False.
  - destruct (decide (p = pid)); simpl.
    + subst. by rewrite !decide_False by congruence.
    + destruct (decide (p = q)); done.
Qed.

Lemma part_lookup_elem pid ns parts :
  part_lookup pid parts = Some ns -> (pid, ns) ∈ parts.
Proof.
  induction parts as [|[p ms] rest IH]; simpl; [done|].
  destruct (decide (p = pid)).
  - intros [= ->]. subst. apply elem_of_cons. by left.
  - intros H. apply elem_of_cons. right. by apply IH.
Qed.

Lemma add_to_partition_fst pid node parts :
  map fst (Fx.add_to_partition pid node parts)
  = if decide (pid ∈ map fst parts) then map fst parts
    else map fst parts ++ [pid].
Proof.
  induction parts as [|[p ns] rest IH]; [done|].
  cbn [Fx.add_to_partition map fst].
  destruct (decide (p = pid)) as [->|Hne].
  - rewrite decide_True; [done|]. apply elem_of_cons. auto.
  - cbn [map fst]. rewrite IH. destruct (decide (pid ∈ map fst rest)).
    + rewrite decide_True; [done|]. apply elem_of_cons. auto.
    + rewrite decide_False; [done|].
      intros [?|?]%elem_of_cons; congruence.
Qed.

Lemma add_to_partition_keys pid node parts :
  NoDup (map fst parts) -> NoDup (map fst (Fx.add_to_partition pid node parts)).
Proof.
  intros Hnd. rewrite add_to_partition_fst.
  destruct (decide (pid ∈ map fst parts)) as [|Hnotin]; [done|].
  apply NoDup_app. split; [done|]. split; [|apply NoDup_singleton].
  intros x Hx [->|[]%elem_of_nil]%elem_of_cons. done.
Qed.

Lemma elem_part_lookup pid ns parts :
  NoDup (map fst parts) -> (pid, ns) ∈ parts -> part_lookup pid parts = Some ns.
Proof.
  induction parts as [|[p ms] rest IH]; simpl; intros Hnd Hin.
  - by apply elem_of_nil in Hin.
  - apply NoDup_cons in Hnd as [Hp Hrest].
    apply elem_of_cons in Hin as [Heq|Hin].
    + injection Heq as <- <-. by rewrite decide_True.
    + destruct (decide (p = pid)) as [->|]; [|by apply IH].
      exfalso. apply Hp. apply list_elem_of_fmap. by exists (pid, ns).
Qed.

(** Grouping keeps the keys distinct and collects, under each id, the
    nodes assigned to it. *)
Lemma group_spec l : forall parts seen,
  NoDup (map fst parts) ->
  (forall pid, part_lookup pid parts = nonempty (nodes_of pid seen)) ->
  NoDup (map fst (group parts l))
  /\ forall pid,
       part_lookup pid (group parts l) = nonempty (nodes_of pid (seen ++ l)).
Proof.
  induction l as [|[p n] l IH]; intros parts seen Hnd Hlook; simpl.
  - by rewrite app_nil_r.
  - replace (seen ++ (p, n) :: l) with ((seen ++ [(p, n)]) ++ l)
      by by rewrite <- app_assoc.
    apply IH; [by apply add_to_partition_keys|].
    intros pid. rewrite nodes_of_app, nodes_of_cons.
    destruct (decide (p = pid)) as [->|Hne].
    + rewrite part_lookup_add_eq, Hlook.
      unfold nodes_of at 3. simpl.
      destruct (nodes_of pid seen); done.
    + rewrite part_lookup_add_ne by congruence.
      unfold nodes_of at 2. simpl. by rewrite app_nil_r.
Qed.

Lemma group_lookup l pid :
  part_lookup pid (group [] l) = nonempty (nodes_of pid l).
Proof.
  destruct (group_spec l [] []) as [_ H]; [apply NoDup_nil_2|done|].
  apply H.
Qed.

Lemma group_keys l : NoDup (map fst (group [] l)).
Proof. destruct (group_spec l [] []) as [H _]; [apply NoDup_nil_2|done|done]. Qed.

(** ** From the loops to the list of items *)

Lemma partition_nodes_group ops nodes : forall st i parts,
  let fin := assign_nodes ops st i nodes in
  Fx.partition_nodes (fun j => node_to_subgraph_id fin !! j) i nodes parts
  = inr (group parts (assigned ops (subgraph_id st) nodes)).
Proof.
  induction nodes as [|node rest IH]; intros st i parts; simpl; [done|].
  rewrite assign_nodes_lookup_lt by lia.
  specialize (IH (assign_node ops st i node) (S i)). simpl in IH.
  unfold assign_node in *. unfold is_structural, is_split_op, Fx.partitioned in *.
  destruct node as [nm [] tg]; simpl in *; try apply IH.
  - destruct (bool_decide (tg ∈ ops)); simpl in *;
      rewrite lookup_insert_eq; apply IH.
  - rewrite lookup_insert_eq; apply IH.
  - rewrite lookup_insert_eq; apply IH.
Qed.

(** The item [split_graph] makes of a partition. *)
Definition item_of (split_ops : list nat) (p : nat * list Fx.Node) : SplitItem :=
  mkSplitItem (submod (fst p)) (fst p) (bool_decide (fst p ∈ split_ops)) (snd p).

Lemma getattr_children parts pid :
  Fx.getattr (map (fun p => (submod (fst p), snd p)) parts) (submod pid)
  = part_lookup pid parts.
Proof.
  induction parts as [|[p ns] rest IH]; simpl; [done|].
  destruct (decide (submod p = submod pid)) as [Heq|Hne].
  - apply submod_inj in Heq as ->. by rewrite decide_True.
  - rewrite decide_False by congruence. done.
Qed.

Lemma collect_items_parts split_ops parts sub :
  NoDup (map fst parts) ->
  sub ⊆ parts ->
  collect_items
    (Fx.mkGraphModule (map (fun p => (submod (fst p), snd p)) parts))
    split_ops (map (fun p => submod (fst p)) sub)
  = inr (map (item_of split_ops) sub).
Proof.
  intros Hnd. induction sub as [|[pid ns] sub IH]; intros Hsub; [done|].
  cbn [map collect_items fst snd Fx.children].
  rewrite submod_not_skipped.
  rewrite getattr_children.
  rewrite (elem_part_lookup pid ns) by (auto; apply Hsub, elem_of_cons; auto).
  rewrite submod_graph_id.
  rewrite IH; [done|].
  intros x Hx. apply Hsub, elem_of_cons. auto.
Qed.

Lemma insert_by_graph_id_perm x l : insert_by_graph_id x l ≡ₚ x :: l.
Proof.
  induction l as [|y l IH]; simpl; [done|].
  destruct (decide (graph_id x <= graph_id y)); [done|].
  rewrite IH. apply Permutation_swap.
Qed.

Lemma sort_by_graph_id_perm l : sort_by_graph_id l ≡ₚ l.
Proof.
  induction l as [|x l IH]; simpl; [done|].
  rewrite insert_by_graph_id_perm. by rewrite IH.
Qed.

Lemma insert_by_graph_id_sorted x l :
  Sorted (fun a b => graph_id a <= graph_id b) l ->
  Sorted (fun a b => graph_id a <= graph_id b) (insert_by_graph_id x l).
Proof.
  induction 1 as [|y l Hs IH Hhd]; simpl.
  - repeat constructor.
  - destruct (decide (graph_id x <= graph_id y)).
    + repeat constructor; auto.
    + constructor; [done|].
      destruct l as [|z l]; simpl in *.
      * constructor. lia.
      * destruct (decide (graph_id x <= graph_id z)); constructor; try lia.
        by inversion Hhd.
Qed.

Lemma sort_by_graph_id_sorted l :
  Sorted (fun a b => graph_id a <= graph_id b) (sort_by_graph_id l).
Proof.
  induction l as [|x l IH]; simpl; [constructor|].
  by apply insert_by_graph_id_sorted.
Qed.

(** [split_graph] never raises, and its items are the partitions of the
    assigned nodes, sorted. *)
Lemma split_graph_items nodes ops :
  let parts := group [] (assigned ops 0 nodes) in
  split_graph nodes ops
  = inr (Fx.mkGraphModule (map (fun p => (submod (fst p), snd p)) parts),
         sort_by_graph_id (map (item_of (split_ids ops 0 nodes)) parts)).
Proof.
  intros parts. unfold split_graph, Fx.split_module.
  rewrite (partition_nodes_group ops nodes (mkSplitLoop 0 ∅ []) 0 []).
  simpl. fold parts. fold submod.
  rewrite assign_nodes_split_op_graphs. simpl.
  change (fun p : nat * list Fx.Node => ("submod_" +:+ str_of_nat p.1, p.2))
    with (fun p : nat * list Fx.Node => (submod (fst p), snd p)).
  rewrite map_map. simpl.
  pose proof (collect_items_parts (split_ids ops 0 nodes) parts parts
                (group_keys _) (reflexivity _)) as H.
  simpl in H. rewrite H. done.
Qed.

(** ** Boundary isolation *)

Lemma nodes_of_above pid nodes ops : forall sid,
  pid < sid -> nodes_of pid (assigned ops sid nodes) = [].
Proof.
  intros sid Hlt. unfold nodes_of.
  destruct (filter _ _) as [|[p n] l] eqn:E; [done|].
  assert ((p, n) ∈ filter (fun x => x.1 = pid) (assigned ops sid nodes)) as Hin
    by (rewrite E; apply elem_of_cons; auto).
  apply list_elem_of_filter in Hin as [Hp Hin]. simpl in Hp. subst.
  apply assigned_ge in Hin. lia.
Qed.

(** A node that is a splitting op is alone under its id, and its id is
    recorded in [split_op_graphs]. *)
Lemma split_op_alone ops nodes : forall sid p n,
  (p, n) ∈ assigned ops sid nodes ->
  is_split_op ops n = true ->
  p ∈ split_ids ops sid nodes /\ nodes_of p (assigned ops sid nodes) = [n].
Proof.
  induction nodes as [|node rest IH]; intros sid p n Hin Hn; simpl in *.
  - by apply elem_of_nil in Hin.
  - destruct (is_structural node); [by apply IH|].
    destruct (is_split_op ops node) eqn:Hnode.
    + rewrite nodes_of_cons.
      apply elem_of_cons in Hin as [Heq|Hin].
      * injection Heq as -> ->. rewrite decide_True by done.
        rewrite nodes_of_above by lia. split; [|done].
        apply elem_of_cons. auto.
      * pose proof (assigned_ge _ _ _ _ _ Hin).
        rewrite decide_False by lia.
        destruct (IH _ _ _ Hin Hn) as [H1 H2].
        split; [|done]. apply elem_of_cons. auto.
    + assert (forall q, q ∈ split_ids ops sid rest -> sid <> q) as Hsid.
      { intros q Hq%split_ids_gt. lia. }
      destruct (Fx.partitioned node).
      * rewrite nodes_of_cons.
        apply elem_of_cons in Hin as [Heq|Hin]; [congruence|].
        destruct (IH _ _ _ Hin Hn) as [H1 H2].
        rewrite decide_False by by apply Hsid. done.
      * by apply IH.
Qed.

(** An id recorded in [split_op_graphs] is the id of splitting ops only. *)
Lemma split_id_only_split_ops ops nodes : forall sid p n,
  (p, n) ∈ assigned ops sid nodes ->
  p ∈ split_ids ops sid nodes ->
  is_split_op ops n = true.
Proof.
  induction nodes as [|node rest IH]; intros sid p n Hin Hp; simpl in *.
  - by apply elem_of_nil in Hin.
  - destruct (is_structural node); [by eapply IH|].
    destruct (is_split_op ops node) eqn:Hnode.
    + apply elem_of_cons in Hin as [Heq|Hin]; [congruence|].
      apply elem_of_cons in Hp as [->|Hp]; [|by eapply IH].
      apply assigned_ge in Hin. lia.
    + destruct (Fx.partitioned node); [|by eapply IH].
      apply elem_of_cons in Hin as [Heq|Hin]; [|by eapply IH].
      injection Heq as -> ->. apply split_ids_gt in Hp. lia.
Qed.

Lemma elem_of_nodes_of pid n l : n ∈ nodes_of pid l <-> (pid, n) ∈ l.
Proof.
  unfold nodes_of. rewrite list_elem_of_fmap. split.
  - intros [[p m] [-> [Hp Hin]%list_elem_of_filter]]. simpl in *. by subst.
  - intros Hin. exists (pid, n). split; [done|].
    apply list_elem_of_filter. done.
Qed.

Lemma elem_of_assigned ops nodes : forall sid i node,
  nodes !! i = Some node ->
  is_structural node = false ->
  Fx.partitioned node = true ->
  exists p, (p, node) ∈ assigned ops sid nodes
            /\ assigned_ids ops sid nodes !! i = Some (Some p).
Proof.
  induction nodes as [|n rest IH]; intros sid i node Hi Hs Hp; [done|].
  destruct i as [|i]; simpl in *.
  - injection Hi as ->. rewrite Hs, Hp.
    destruct (is_split_op ops node); eexists; split;
      try (apply elem_of_cons; left; reflexivity); done.
  - destruct (is_structural n); [by apply IH|].
    destruct (is_split_op ops n).
    + destruct (IH (S (S sid)) i node) as [p [H1 H2]]; auto.
      exists p. split; [apply elem_of_cons|]; auto.
    + destruct (IH sid i node) as [p [H1 H2]]; auto.
      exists p. split; [|done].
      destruct (Fx.partitioned n); [apply elem_of_cons|]; auto.
Qed.

Lemma split_op_partitioned ops node :
  is_split_op ops node = true ->
  is_structural node = false /\ Fx.partitioned node = true.
Proof.
  unfold is_split_op, is_structural, Fx.partitioned.
  intros [Hop%bool_decide_eq_true _]%andb_prop. by rewrite Hop.
Qed.

(** The items of [split_graph], one by one. *)
Lemma elem_of_split_graph_items nodes ops item :
  item ∈ sort_by_graph_id
           (map (item_of (split_ids ops 0 nodes))
              (group [] (assigned ops 0 nodes)))
  <-> exists pid,
        graph item = nodes_of pid (assigned ops 0 nodes)
        /\ graph item <> []
        /\ graph_id item = pid
        /\ submod_name item = submod pid
        /\ is_splitting_graph item
           = bool_decide (pid ∈ split_ids ops 0 nodes).
Proof.
  rewrite sort_by_graph_id_perm, list_elem_of_fmap. split.
  - intros [[pid ns] [-> Hin]]. exists pid. simpl.
    apply elem_part_lookup in Hin; [|apply group_keys].
    rewrite group_lookup in Hin.
    destruct (nodes_of pid _) eqn:E; [done|].
    injection Hin as <-. done.
  - intros [pid (Hg & Hne & Hid & Hnm & Hsp)].
    exists (pid, graph item). split.
    + destruct item; simpl in *. unfold item_of. simpl. congruence.
    + apply part_lookup_elem. rewrite group_lookup, <- Hg.
      destruct (graph item); done.
Qed.

(** C1. Boundary isolation: [split_graph] returns, and every node it takes
    for a splitting op has an item of its own, flagged
    [is_splitting_graph], whose graph is that node alone and whose id is
    the one the loop assigned to the node; an item that is flagged holds
    exactly one node, a splitting op, and an item that is not flagged holds
    no splitting op. *)
Theorem split_graph_boundary_isolation
    (nodes : list Fx.Node) (ops : list string) :
  exists split_gm outputs,
    split_graph nodes ops = inr (split_gm, outputs)
    /\ (forall i node,
          nodes !! i = Some node ->
          is_split_op ops node = true ->
          exists item,
            item ∈ outputs
            /\ is_splitting_graph item = true
            /\ graph item = [node]
            /\ node_to_subgraph_id
                 (assign_nodes ops (mkSplitLoop 0 ∅ []) 0 nodes) !! i
               = Some (graph_id item))
    /\ (forall item,
          item ∈ outputs ->
          if is_splitting_graph item
          then exists node, graph item = [node] /\ is_split_op ops node = true
          else forall node, node ∈ graph item -> is_split_op ops node = false).
Proof.
  eexists _, _. split; [apply split_graph_items|]. split.
  - intros i node Hi Hsplit.
    destruct (split_op_partitioned _ _ Hsplit) as [Hs Hp].
    destruct (elem_of_assigned ops nodes 0 i node Hi Hs Hp) as [p [Hin Hid]].
    destruct (split_op_alone ops nodes 0 p node Hin Hsplit) as [Hp' Halone].
    exists (mkSplitItem (submod p) p true [node]).
    split; [|split; [done|split; [done|]]].
    + apply elem_of_split_graph_items. exists p. simpl.
      rewrite Halone, bool_decide_eq_true_2 by done. done.
    + pose proof (assign_nodes_lookup ops nodes (mkSplitLoop 0 ∅ []) 0 i) as H.
      simpl in H. rewrite H, Hid. done.
  - intros item (pid & Hg & Hne & Hid & Hnm & Hsp)%elem_of_split_graph_items.
    rewrite Hsp. case_bool_decide as Hpid.
    + destruct (graph item) as [|node rest] eqn:E; [done|].
      assert ((pid, node) ∈ assigned ops 0 nodes) as Hin.
      { apply elem_of_nodes_of. rewrite <- Hg. apply elem_of_cons. auto. }
      pose proof (split_id_only_split_ops _ _ _ _ _ Hin Hpid) as Hsplit.
      destruct (split_op_alone ops nodes 0 pid node Hin Hsplit) as [_ Halone].
      exists node. split; [congruence|done].
    + intros node Hnode. rewrite Hg in Hnode.
      apply elem_of_nodes_of in Hnode.
      destruct (is_split_op ops node) eqn:Hsplit; [|done].
      by destruct (split_op_alone ops nodes 0 pid node Hnode Hsplit).
Qed.

(** The loops skip structural nodes. *)
Lemma assigned_filter ops nodes : forall sid,
  assigned ops sid (filter (fun n => is_structural n = false) nodes)
  = assigned ops sid nodes.
Proof.
  induction nodes as [|node rest IH]; intros sid; [done|].
  rewrite filter_cons. simpl.
  destruct (is_structural node) eqn:Hs.
  - rewrite decide_False by done. apply IH.
  - rewrite decide_True by done. simpl. rewrite Hs, !IH. done.
Qed.

Lemma split_ids_filter ops nodes : forall sid,
  split_ids ops sid (filter (fun n => is_structural n = false) nodes)
  = split_ids ops sid nodes.
Proof.
  induction nodes as [|node rest IH]; intros sid; [done|].
  rewrite filter_cons. simpl.
  destruct (is_structural node) eqn:Hs.
  - rewrite decide_False by done. apply IH.
  - rewrite decide_True by done. simpl. rewrite Hs, !IH. done.
Qed.

(** A call node that is not a splitting op. *)
Definition regular_call (ops : list string) (node : Fx.Node) : Prop :=
  Fx.partitioned node = true /\ is_split_op ops node = false.

(** C2. Two regular call nodes, a splitting op and two more regular call
    nodes, with placeholders and the output node anywhere around them, are
    split into exactly three items, listed by ascending [graph_id] 0, 1, 2:
    the first two nodes, the splitting op alone and flagged, the last two
    nodes. *)
Theorem split_graph_five_nodes
    (nodes : list Fx.Node) (ops : list string) (n0 n1 b n3 n4 : Fx.Node) :
  filter (fun n => is_structural n = false) nodes = [n0; n1; b; n3; n4] ->
  Forall (regular_call ops) [n0; n1; n3; n4] ->
  is_split_op ops b = true ->
  exists split_gm,
    split_graph nodes ops
    = inr (split_gm,
           [ mkSplitItem "submod_0" 0 false [n0; n1];
             mkSplitItem "submod_1" 1 true [b];
             mkSplitItem "submod_2" 2 false [n3; n4] ]).
Proof.
  intros Hnodes Hreg Hb.
  eexists. rewrite split_graph_items. f_equal. f_equal.
  rewrite <- assigned_filter, <- split_ids_filter, Hnodes.
  assert (forall n, n ∈ [n0; n1; b; n3; n4] -> is_structural n = false) as Hns.
  { intros n Hn. rewrite <- Hnodes in Hn.
    by apply list_elem_of_filter in Hn as [? _]. }
  repeat (apply Forall_cons in Hreg as [[? ?] Hreg]).
  simpl.
  rewrite !Hns by (repeat (apply elem_of_cons; (by left) || right); done).
  repeat match goal with H : _ = _ |- _ => rewrite H end.
  reflexivity.
Qed.

(** ** The test that recognizes a splitting op *)

Lemma assigned_ids_lookup ops nodes : forall sid i node,
  nodes !! i = Some node ->
  assigned_ids ops sid nodes !! i
  = Some (if is_structural node then None
          else if is_split_op ops node
               then Some (S (final_id ops sid (take i nodes)))
               else Some (final_id ops sid (take i nodes))).
Proof.
  induction nodes as [|n rest IH]; intros sid i node Hi; [done|].
  destruct i as [|i]; simpl in *.
  - injection Hi as ->.
    destruct (is_structural node); [done|].
    destruct (is_split_op ops node); done.
  - destruct (is_structural n); [by apply IH|].
    destruct (is_split_op ops n); by apply IH.
Qed.

Lemma split_ids_app ops a : forall sid b,
  split_ids ops sid (a ++ b)
  = split_ids ops sid a ++ split_ids ops (final_id ops sid a) b.
Proof.
  induction a as [|node rest IH]; intros sid b; simpl; [done|].
  destruct (is_structural node); [done|].
  destruct (is_split_op ops node); [|done].
  by rewrite IH.
Qed.

Lemma split_ids_lt ops nodes : forall sid p,
  p ∈ split_ids ops sid nodes -> p < final_id ops sid nodes.
Proof.
  induction nodes as [|node rest IH]; intros sid p; simpl.
  - by intros ?%elem_of_nil.
  - destruct (is_structural node); [by apply IH|].
    destruct (is_split_op ops node); [|by apply IH].
    intros [->|Hin]%elem_of_cons; [|by apply IH].
    pose proof (final_id_ge ops rest (S (S sid))). lia.
Qed.

Lemma final_id_take_S ops nodes i node sid :
  nodes !! i = Some node ->
  final_id ops sid (take (S i) nodes)
  = if is_structural node then final_id ops sid (take i nodes)
    else if is_split_op ops node then S (S (final_id ops sid (take i nodes)))
    else final_id ops sid (take i nodes).
Proof.
  intros Hi. rewrite (take_S_r _ _ _ Hi), final_id_app. simpl.
  destruct (is_structural node); [done|].
  destruct (is_split_op ops node); done.
Qed.

(** C10. The test of the loop: a node is a splitting op exactly when it is
    a [call_function] node whose target string is in the list.  Where
    [before] and [after] are the counter before and after the loop visits
    the node at position [i]: a placeholder or output node gets no entry and
    leaves the counter alone; a splitting op gets the id [before + 1] and
    leaves the counter at [before + 2]; any other node, whatever its target,
    gets the id [before], leaves the counter alone, and that id is not the
    id of a splitting partition. *)
Theorem boundary_detection_predicate
    (nodes : list Fx.Node) (ops : list string) (i : nat) (node : Fx.Node) :
  nodes !! i = Some node ->
  let init := mkSplitLoop 0 ∅ [] in
  let final := assign_nodes ops init 0 nodes in
  let before := subgraph_id (assign_nodes ops init 0 (take i nodes)) in
  let after := subgraph_id (assign_nodes ops init 0 (take (S i) nodes)) in
  (is_split_op ops node = true
   <-> Fx.op node = Fx.call_function /\ Fx.target node ∈ ops)
  /\ (Fx.op node = Fx.placeholder \/ Fx.op node = Fx.output ->
      node_to_subgraph_id final !! i = None /\ after = before)
  /\ (is_split_op ops node = true ->
      node_to_subgraph_id final !! i = Some (S before)
      /\ after = S (S before)
      /\ S before ∈ split_op_graphs final)
  /\ (Fx.op node <> Fx.placeholder -> Fx.op node <> Fx.output ->
      is_split_op ops node = false ->
      node_to_subgraph_id final !! i = Some before
      /\ after = before
      /\ before ∉ split_op_graphs final).
Proof.
  intros Hi init final before after.
  assert (node_to_subgraph_id final !! i
          = mjoin (assigned_ids ops 0 nodes !! i)) as Hlook.
  { pose proof (assign_nodes_lookup ops nodes init 0 i) as H. simpl in H.
    subst final. rewrite H.
    by destruct (assigned_ids ops 0 nodes !! i) as [[?|]|]. }
  rewrite (assigned_ids_lookup ops nodes 0 i node Hi) in Hlook. simpl in Hlook.
  assert (before = final_id ops 0 (take i nodes)) as Hbefore
    by apply assign_nodes_subgraph_id.
  assert (after = final_id ops 0 (take (S i) nodes)) as Hafter
    by apply assign_nodes_subgraph_id.
  rewrite (final_id_take_S ops nodes i node 0 Hi), <- Hbefore in Hafter.
  rewrite <- Hbefore in Hlook.
  assert (split_op_graphs final
          = split_ids ops 0 (take i nodes)
            ++ split_ids ops before (node :: drop (S i) nodes)) as Hsplit.
  { subst final. rewrite assign_nodes_split_op_graphs. simpl.
    rewrite <- (take_drop_middle nodes i node Hi) at 1.
    rewrite split_ids_app. by rewrite Hbefore. }
  split; [|split; [|split]].
  - unfold is_split_op. rewrite andb_true_iff, !bool_decide_eq_true. done.
  - intros Hop.
    assert (is_structural node = true) as Hs.
    { unfold is_structural. destruct Hop as [-> | ->]; done. }
    rewrite Hs in Hlook, Hafter. done.
  - intros Hyes.
    destruct (split_op_partitioned _ _ Hyes) as [Hs _].
    rewrite Hs, Hyes in Hlook, Hafter. split; [done|split; [done|]].
    rewrite Hsplit. simpl. rewrite Hs, Hyes.
    apply elem_of_app. right. apply elem_of_cons. auto.
  - intros Hp Ho Hno.
    assert (is_structural node = false) as Hs.
    { unfold is_structural.
      rewrite !bool_decide_eq_false_2 by done. done. }
    rewrite Hs, Hno in Hlook, Hafter. split; [done|split; [done|]].
    rewrite Hsplit. simpl. rewrite Hs, Hno.
    intros [Hin|Hin]%elem_of_app.
    + apply split_ids_lt in Hin. lia.
    + apply split_ids_gt in Hin. lia.
Qed.

(** The list [split_graph] returns is in ascending order of [graph_id],
    whatever the names of the submodules. *)
Lemma split_graph_sorted nodes ops split_gm outputs :
  split_graph nodes ops = inr (split_gm, outputs) ->
  Sorted (fun a b => graph_id a <= graph_id b) outputs.
Proof.
  rewrite split_graph_items. intros [= _ <-]. apply sort_by_graph_id_sorted.
Qed.

Definition example_graph : list Fx.Node :=
  [ Fx.mkNode "x" Fx.placeholder "x";
    Fx.mkNode "add" Fx.call_function "_operator.add";
    Fx.mkNode "attn" Fx.call_method "vllm.unified_attention";
    Fx.mkNode "unified_attention" Fx.call_function "vllm.unified_attention";
    Fx.mkNode "mul" Fx.call_function "_operator.mul";
    Fx.mkNode "linear" Fx.call_module "L__self___linear";
    Fx.mkNode "output" Fx.output "output" ].

Lemma split_graph_five_nodes_witness :
  exists split_gm,
    split_graph example_graph ["vllm.unified_attention"]
    = inr (split_gm,
           [ mkSplitItem "submod_0" 0 false
               [ Fx.mkNode "add" Fx.call_function "_operator.add";
                 Fx.mkNode "attn" Fx.call_method "vllm.unified_attention" ];
             mkSplitItem "submod_1" 1 true
               [ Fx.mkNode "unified_attention" Fx.call_function
                   "vllm.unified_attention" ];
             mkSplitItem "submod_2" 2 false
               [ Fx.mkNode "mul" Fx.call_function "_operator.mul";
                 Fx.mkNode "linear" Fx.call_module "L__self___linear" ] ]).
Proof.
  apply split_graph_five_nodes.
  - reflexivity.
  - repeat constructor.
  - reflexivity.
Defined.

Lemma boundary_detection_predicate_witness :
  let final :=
    assign_nodes ["vllm.unified_attention"] (mkSplitLoop 0 ∅ []) 0
      example_graph in
  node_to_subgraph_id final !! 2 = Some 0 /\ 0 ∉ split_op_graphs final.
Proof.
  destruct (boundary_detection_predicate example_graph
              ["vllm.unified_attention"] 2
              (Fx.mkNode "attn" Fx.call_method "vllm.unified_attention")
              eq_refl) as (_ & _ & _ & H).
  destruct H as (H1 & _ & H3); [done|done|done|].
  split; [exact H1|exact H3].
Defined.

(** ** Python values *)

(** Induction over values, with the hypothesis for every item of a
    container. *)
Lemma pyval_induction (P : pyval -> Prop) :
  P PyNone ->
  (forall z, P (PyInt z)) ->
  (forall s, P (PyStr s)) ->
  (forall items, Forall P items -> P (PyTuple items)) ->
  (forall items, Forall P items -> P (PyList items)) ->
  (forall items,
     Forall (fun kv => P (fst kv) /\ P (snd kv)) items -> P (PyDict items)) ->
  forall v, P v.
Proof.
  intros Hnone Hint Hstr Htuple Hlist Hdict.
  fix IH 1. intros [ | z | s | items | items | items ].
  - exact Hnone.
  - apply Hint.
  - apply Hstr.
  - apply Htuple. induction items as [|x items IHitems]; constructor; auto.
  - apply Hlist. induction items as [|x items IHitems]; constructor; auto.
  - apply Hdict.
    induction items as [|[k v] items IHitems]; constructor; auto.
Qed.

Lemma pyval_eqb_eq a : forall b, pyval_eqb a b = true <-> a = b.
Proof.
  induction a as [ | z | s | items IH | items IH | items IH ]
    using pyval_induction; intros b.
  - destruct b; simpl; split; congruence.
  - destruct b; simpl; try (split; congruence).
    rewrite bool_decide_eq_true. split; congruence.
  - destruct b; simpl; try (split; congruence).
    rewrite bool_decide_eq_true. split; congruence.
  - destruct b as [ | | | items' | | ]; simpl; try (split; congruence).
    revert items'. induction IH as [|x items Hx _ IHitems]; intros [|y items'];
      try (split; congruence).
    rewrite andb_true_iff, Hx, IHitems. split.
    + intros [-> [= ->]]. done.
    + intros [= -> ->]. done.
  - destruct b as [ | | | | items' | ]; simpl; try (split; congruence).
    revert items'. induction IH as [|x items Hx _ IHitems]; intros [|y items'];
      try (split; congruence).
    rewrite andb_true_iff, Hx, IHitems. split.
    + intros [-> [= ->]]. done.
    + intros [= -> ->]. done.
  - destruct b as [ | | | | | items' ]; simpl; try (split; congruence).
    revert items'.
    induction IH as [|[k v] items [Hk Hv] _ IHitems]; intros [|[k' v'] items'];
      try (split; congruence).
    simpl in *. rewrite !andb_true_iff, Hk, Hv, IHitems. split.
    + intros [[-> ->] [= ->]]. done.
    + intros [= -> -> ->]. done.
Qed.

Lemma pyval_eqb_refl a : pyval_eqb a a = true.
Proof. by apply pyval_eqb_eq. Qed.

#[global] Instance pyval_eq_dec : EqDecision pyval.
Proof.
  intros a b. destruct (pyval_eqb a b) eqn:E.
  - left. by apply pyval_eqb_eq.
  - right. intros H. apply pyval_eqb_eq in H. congruence.
Defined.

Lemma pyval_eqb_neq a b : a <> b -> pyval_eqb a b = false.
Proof.
  intros H. destruct (pyval_eqb a b) eqn:E; [|done].
  by apply pyval_eqb_eq in E.
Qed.

Lemma dict_get_set_eq k v items : dict_get k (dict_set k v items) = Some v.
Proof.
  induction items as [|[k' v'] items IH]; simpl.
  - by rewrite pyval_eqb_refl.
  - destruct (pyval_eqb k' k) eqn:E; simpl; rewrite E; done.
Qed.

Lemma dict_get_set_ne k k' v items :
  k <> k' -> dict_get k' (dict_set k v items) = dict_get k' items.
Proof.
  intros Hne. induction items as [|[k0 v0] items IH]; simpl.
  - by rewrite pyval_eqb_neq.
  - destruct (pyval_eqb k0 k) eqn:E; simpl.
    + apply pyval_eqb_eq in E as ->. by rewrite pyval_eqb_neq.
    + rewrite IH. done.
Qed.

Lemma cache_key_hashable shape index name :
  hashable (cache_key shape index name) = true.
Proof. by destruct shape. Qed.

(** ** CompilerManager *)

Arguments cache_key : simpl never.

(** Unfold the monad of a method. *)
Ltac run_monad :=
  unfold attribute, bind, when, modify, gets, lift, emit, ret, raise,
    time_time in *;
  simpl in *.

(** The calls of the adaptor's [compile] among the events. *)
Definition adaptor_compiles (evs : list Event)
  : list (list Fx.Node * option Z * option string) :=
  omap (fun e => match e with
                 | AdaptorCompile g shape key => Some (g, shape, key)
                 | _ => None
                 end) evs.

Lemma adaptor_compiles_app l1 l2 :
  adaptor_compiles (l1 ++ l2) = adaptor_compiles l1 ++ adaptor_compiles l2.
Proof. apply omap_app. Qed.

(** The key [compile] hands to the adaptor. *)
Definition artifact_key (c : CompilerInterface) (runtime_shape : option Z)
    (graph_index : Z) : option string :=
  if decide (adaptor_class c = InductorAdaptor) then None
  else Some ("artifact_shape_" +:+ str_of_optional_int runtime_shape
             +:+ "_subgraph_" +:+ str_of_Z graph_index).

(** [load] step by step. *)
Lemma load_eq graph example_inputs graph_index runtime_shape s :
  let m := manager s in
  let key := cache_key runtime_shape graph_index (compiler_name (compiler m)) in
  load graph example_inputs graph_index runtime_shape s
  = match py_contains key (cache m) with
    | inl e => (inl e, s)
    | inr false => (inr None, s)
    | inr true =>
        match py_getitem (cache m) key with
        | inl e => (inl e, s)
        | inr handle =>
            (inr (compiler_load (compiler m) handle graph example_inputs
                    graph_index runtime_shape),
             set_events
               (events s ++ [AdaptorLoad handle graph_index runtime_shape]) s)
        end
    end.
Proof.
  unfold load. run_monad.
  destruct (py_contains _ _) as [e|[|]]; simpl; try done.
  destruct (py_getitem _ _); done.
Qed.

(** [load] reads the manager only and adds at most an [AdaptorLoad]
    event. *)
Lemma load_state graph example_inputs graph_index runtime_shape s :
  let r := load graph example_inputs graph_index runtime_shape s in
  snd r = s
  \/ exists handle,
       snd r
       = set_events (events s ++ [AdaptorLoad handle graph_index runtime_shape]) s.
Proof.
  simpl. rewrite load_eq.
  destruct (py_contains _ _) as [e|[|]]; simpl; auto.
  destruct (py_getitem _ _); simpl; eauto.
Qed.

(** The store of a handle after a successful compilation. *)
Definition store_handle (runtime_shape : option Z) (graph_index : Z)
    (handle : pyval) (s : State) : (exn + unit) * State :=
  if negb (VLLM_DISABLE_COMPILE_CACHE (envs s)) && negb (pyval_eqb handle PyNone)
  then
    match py_setitem (cache (manager s))
            (cache_key runtime_shape graph_index
               (compiler_name (compiler (manager s)))) handle with
    | inl e => (inl e, s)
    | inr cache' =>
        (inr tt,
         set_manager
           (set_is_cache_updated true (set_cache cache' (manager s)))
           (set_counter
              (bump_cache_entries_updated (compilation_counter s)) s))
    end
  else (inr tt, s).

(** The end of the timing: the elapsed time is added to the shared
    [compilation_time]. *)
Definition record_elapsed (s : State) : State :=
  let now := time_source s (clock s) in
  let elapsed := (now - compilation_start_time s)%float in
  set_config
    (set_compilation_time (compilation_time (config s) + elapsed)%float
       (config s))
    (set_clock (S (clock s)) s).

(** [compile] step by step. *)
Lemma compile_eq graph example_inputs additional_inductor_config
    graph_index num_graphs runtime_shape s :
  let s1 :=
    if bool_decide (graph_index = 0%Z)
    then set_compilation_start_time (time_source s (clock s))
           (set_clock (S (clock s)) s)
    else s in
  let s2 :=
    set_counter (bump_backend_compilations (compilation_counter s1)) s1 in
  let last := bool_decide (graph_index = (num_graphs - 1)%Z) in
  compile graph example_inputs additional_inductor_config graph_index
    num_graphs runtime_shape s
  = match load graph example_inputs graph_index runtime_shape s2 with
    | (inl e, s3) => (inl e, s3)
    | (inr (Some compiled_graph), s3) =>
        (inr compiled_graph, if last then set_clock (S (clock s3)) s3 else s3)
    | (inr None, s3) =>
        let c := compiler (manager s3) in
        let maybe_key := artifact_key c runtime_shape graph_index in
        let s4 :=
          set_events (events s3 ++ [AdaptorCompile graph runtime_shape maybe_key])
            s3 in
        match compiler_compile c graph example_inputs
                additional_inductor_config runtime_shape maybe_key with
        | (None, _) => (inl (AssertionError "Failed to compile the graph"), s4)
        | (Some compiled_graph, handle) =>
            match store_handle runtime_shape graph_index handle s4 with
            | (inl e, s5) => (inl e, s5)
            | (inr _, s5) =>
                (inr compiled_graph, if last then record_elapsed s5 else s5)
            end
        end
    end.
Proof.
  unfold compile, artifact_key, store_handle, record_elapsed. run_monad.
  destruct (bool_decide (graph_index = 0%Z)); simpl;
    destruct (load _ _ _ _ _) as [[e|[cg|]] s3]; simpl; try done;
    try (destruct (bool_decide (graph_index = (num_graphs - 1)%Z)); done);
    destruct (compiler_compile _ _ _ _ _ _) as [[cg|] handle]; simpl; try done;
    destruct (VLLM_DISABLE_COMPILE_CACHE (envs s3)),
      (pyval_eqb handle PyNone); simpl;
    try (destruct (bool_decide (graph_index = (num_graphs - 1)%Z)); done);
    destruct (py_setitem _ _ _); simpl; try done;
    destruct (bool_decide (graph_index = (num_graphs - 1)%Z)); done.
Qed.

Arguments adaptor_compiles : simpl never.

Lemma py_getitem_set key handle items :
  hashable key = true ->
  py_getitem (PyDict (dict_set key handle items)) key = inr handle.
Proof. intros H. unfold py_getitem. by rewrite H, dict_get_set_eq. Qed.

(** The store on a cache that is a dictionary. *)
Lemma store_handle_dict runtime_shape graph_index handle s items :
  cache (manager s) = PyDict items ->
  let key :=
    cache_key runtime_shape graph_index (compiler_name (compiler (manager s))) in
  store_handle runtime_shape graph_index handle s
  = if VLLM_DISABLE_COMPILE_CACHE (envs s) || bool_decide (handle = PyNone)
    then (inr tt, s)
    else
      (inr tt,
       set_manager
         (set_is_cache_updated true
            (set_cache (PyDict (dict_set key handle items)) (manager s)))
         (set_counter (bump_cache_entries_updated (compilation_counter s)) s)).
Proof.
  intros Hcache key. unfold store_handle. rewrite Hcache. fold key.
  unfold py_setitem. subst key. rewrite cache_key_hashable.
  destruct (VLLM_DISABLE_COMPILE_CACHE (envs s)); [done|].
  destruct (decide (handle = PyNone)) as [->|Hne]; [done|].
  by rewrite pyval_eqb_neq, bool_decide_eq_false_2.
Qed.

(** What [compile] does once [load] has returned nothing in [s3]. *)
Definition compile_after_miss (graph : list Fx.Node) (example_inputs : list Arg)
    (additional_inductor_config : pyval) (graph_index num_graphs : Z)
    (runtime_shape : option Z) (s3 : State) : (exn + Callable) * State :=
  let c := compiler (manager s3) in
  let maybe_key := artifact_key c runtime_shape graph_index in
  let s4 :=
    set_events (events s3 ++ [AdaptorCompile graph runtime_shape maybe_key]) s3 in
  match compiler_compile c graph example_inputs additional_inductor_config
          runtime_shape maybe_key with
  | (None, _) => (inl (AssertionError "Failed to compile the graph"), s4)
  | (Some compiled_graph, handle) =>
      match store_handle runtime_shape graph_index handle s4 with
      | (inl e, s5) => (inl e, s5)
      | (inr _, s5) =>
          (inr compiled_graph,
           if bool_decide (graph_index = (num_graphs - 1)%Z)
           then record_elapsed s5 else s5)
      end
  end.

Lemma compile_after_miss_spec graph example_inputs additional_inductor_config
    graph_index num_graphs runtime_shape s3 items :
  cache (manager s3) = PyDict items ->
  let c := compiler (manager s3) in
  let maybe_key := artifact_key c runtime_shape graph_index in
  let key := cache_key runtime_shape graph_index (compiler_name c) in
  let r := compile_after_miss graph example_inputs additional_inductor_config
             graph_index num_graphs runtime_shape s3 in
  adaptor_compiles (events (snd r))
  = adaptor_compiles (events s3) ++ [(graph, runtime_shape, maybe_key)]
  /\ match compiler_compile c graph example_inputs additional_inductor_config
             runtime_shape maybe_key with
     | (None, _) =>
         fst r = inl (AssertionError "Failed to compile the graph")
         /\ manager (snd r) = manager s3
     | (Some compiled_graph, handle) =>
         fst r = inr compiled_graph
         /\ if VLLM_DISABLE_COMPILE_CACHE (envs s3) || bool_decide (handle = PyNone)
            then manager (snd r) = manager s3
            else cache (manager (snd r)) = PyDict (dict_set key handle items)
                 /\ py_getitem (cache (manager (snd r))) key = inr handle
                 /\ is_cache_updated (manager (snd r)) = true
                 /\ num_cache_entries_updated (compilation_counter (snd r))
                    = S (num_cache_entries_updated (compilation_counter s3))
     end.
Proof.
  intros Hcache c maybe_key key r. subst r. unfold compile_after_miss.
  fold c. fold maybe_key. cbv zeta.
  set (s4 := set_events _ s3).
  assert (cache (manager s4) = PyDict items /\ manager s4 = manager s3
          /\ envs s4 = envs s3
          /\ adaptor_compiles (events s4)
             = adaptor_compiles (events s3) ++ [(graph, runtime_shape, maybe_key)]
          /\ compilation_counter s4 = compilation_counter s3)
    as (Hc4 & Hm4 & He4 & Hev4 & Hn4).
  { subst s4. cbn [manager events envs compilation_counter set_events].
    by rewrite adaptor_compiles_app. }
  clearbody s4.
  destruct (compiler_compile c _ _ _ _ _) as [[cg|] handle]; [|done].
  rewrite (store_handle_dict _ _ _ _ _ Hc4). cbv zeta.
  rewrite He4, Hm4. fold c. fold key.
  destruct (VLLM_DISABLE_COMPILE_CACHE (envs s3) || bool_decide (handle = PyNone)).
  - destruct (bool_decide (graph_index = (num_graphs - 1)%Z)); done.
  - assert (hashable key = true) as Hhash by apply cache_key_hashable.
    clearbody key.
    destruct (bool_decide (graph_index = (num_graphs - 1)%Z));
      cbn [fst snd record_elapsed set_config set_clock set_manager set_counter
           manager events compilation_counter set_cache set_is_cache_updated
           cache is_cache_updated bump_cache_entries_updated
           num_cache_entries_updated];
      rewrite Hev4, Hn4, (py_getitem_set _ _ _ Hhash); done.
Qed.

(** C4, as the code has it.  On a cache miss [compile] calls the adaptor's
    [compile] once, with no key for [InductorAdaptor] and with the key
    derived from the shape and the index otherwise.  A missing callable is an
    [AssertionError] and leaves the manager as it was.  Otherwise the
    callable is returned, and the handle is stored under
    [(runtime_shape, graph_index, name)] with the dirty flag set, unless
    the cache is disabled in the environment or the handle is [None]: then
    the manager is left as it was. *)
Theorem compile_miss_postcondition
    (graph : list Fx.Node) (example_inputs : list Arg)
    (additional_inductor_config : pyval) (graph_index num_graphs : Z)
    (runtime_shape : option Z) (s : State) (items : list (pyval * pyval)) :
  cache (manager s) = PyDict items ->
  fst (load graph example_inputs graph_index runtime_shape s) = inr None ->
  let c := compiler (manager s) in
  let maybe_key := artifact_key c runtime_shape graph_index in
  let key := cache_key runtime_shape graph_index (compiler_name c) in
  let r := compile graph example_inputs additional_inductor_config
             graph_index num_graphs runtime_shape s in
  adaptor_compiles (events (snd r))
  = adaptor_compiles (events s) ++ [(graph, runtime_shape, maybe_key)]
  /\ match compiler_compile c graph example_inputs additional_inductor_config
             runtime_shape maybe_key with
     | (None, _) =>
         fst r = inl (AssertionError "Failed to compile the graph")
         /\ manager (snd r) = manager s
     | (Some compiled_graph, handle) =>
         fst r = inr compiled_graph
         /\ if VLLM_DISABLE_COMPILE_CACHE (envs s) || bool_decide (handle = PyNone)
            then manager (snd r) = manager s
            else cache (manager (snd r)) = PyDict (dict_set key handle items)
                 /\ py_getitem (cache (manager (snd r))) key = inr handle
                 /\ is_cache_updated (manager (snd r)) = true
                 /\ num_cache_entries_updated (compilation_counter (snd r))
                    = S (num_cache_entries_updated (compilation_counter s))
     end.
Proof.
  intros Hcache Hmiss c maybe_key key r. subst r.
  rewrite compile_eq. cbv zeta.
  set (s1 := if bool_decide (graph_index = 0%Z) then _ else s).
  set (s2 := set_counter _ s1).
  assert (manager s2 = manager s /\ envs s2 = envs s
          /\ adaptor_compiles (events s2) = adaptor_compiles (events s)
          /\ num_cache_entries_updated (compilation_counter s2)
             = num_cache_entries_updated (compilation_counter s))
    as (Hm2 & He2 & Hev2 & Hn2).
  { subst s2 s1. by destruct (bool_decide (graph_index = 0%Z)). }
  clearbody s2. clear s1.
  assert (forall s3,
            manager s3 = manager s -> envs s3 = envs s ->
            adaptor_compiles (events s3) = adaptor_compiles (events s) ->
            num_cache_entries_updated (compilation_counter s3)
            = num_cache_entries_updated (compilation_counter s) ->
            let r := compile_after_miss graph example_inputs
                       additional_inductor_config graph_index num_graphs
                       runtime_shape s3 in
            adaptor_compiles (events (snd r))
            = adaptor_compiles (events s) ++ [(graph, runtime_shape, maybe_key)]
            /\ match compiler_compile c graph example_inputs
                       additional_inductor_config runtime_shape maybe_key with
               | (None, _) =>
                   fst r = inl (AssertionError "Failed to compile the graph")
                   /\ manager (snd r) = manager s
               | (Some compiled_graph, handle) =>
                   fst r = inr compiled_graph
                   /\ if VLLM_DISABLE_COMPILE_CACHE (envs s)
                         || bool_decide (handle = PyNone)
                      then manager (snd r) = manager s
                      else cache (manager (snd r))
                           = PyDict (dict_set key handle items)
                           /\ py_getitem (cache (manager (snd r))) key
                              = inr handle
                           /\ is_cache_updated (manager (snd r)) = true
                           /\ num_cache_entries_updated
                                (compilation_counter (snd r))
                              = S (num_cache_entries_updated
                                     (compilation_counter s))
               end) as Hafter.
  { intros s3 Hm3 He3 Hev3 Hn3.
    pose proof (compile_after_miss_spec graph example_inputs
                  additional_inductor_config graph_index num_graphs
                  runtime_shape s3 items) as H.
    cbv zeta in H. rewrite Hm3, He3, Hev3, Hn3 in H. by apply H. }
  rewrite load_eq in Hmiss |- *. cbv zeta in Hmiss |- *. rewrite Hm2.
  destruct (py_contains _ (cache (manager s))) as [e|[|]]; [done| |].
  - (* the key is there, but the adaptor's [load] returns [None] *)
    destruct (py_getitem (cache (manager s)) _) as [e|h]; [done|].
    cbn [fst] in Hmiss. injection Hmiss as ->.
    apply Hafter; try done.
    cbn [events set_events]. rewrite adaptor_compiles_app, Hev2.
    apply app_nil_r.
  - by apply Hafter.
Qed.

Lemma store_handle_frame runtime_shape graph_index handle s :
  let s' := snd (store_handle runtime_shape graph_index handle s) in
  config s' = config s /\ clock s' = clock s
  /\ compilation_start_time s' = compilation_start_time s
  /\ time_source s' = time_source s /\ files s' = files s
  /\ events s' = events s /\ envs s' = envs s /\ backend s' = backend s.
Proof.
  unfold store_handle. simpl.
  destruct (negb _ && negb _); [|done].
  destruct (py_setitem _ _ _); done.
Qed.

Lemma load_frame graph example_inputs graph_index runtime_shape s :
  let s' := snd (load graph example_inputs graph_index runtime_shape s) in
  config s' = config s /\ clock s' = clock s
  /\ compilation_start_time s' = compilation_start_time s
  /\ time_source s' = time_source s /\ files s' = files s
  /\ manager s' = manager s /\ envs s' = envs s /\ backend s' = backend s
  /\ compilation_counter s' = compilation_counter s
  /\ adaptor_compiles (events s') = adaptor_compiles (events s).
Proof.
  destruct (load_state graph example_inputs graph_index runtime_shape s)
    as [->|[h ->]]; simpl; [done|].
  rewrite adaptor_compiles_app. simpl. by rewrite app_nil_r.
Qed.

(** C8. [compile] records the start time when [graph_index] is 0 and only
    then.  It leaves [compilation_time] as it was whenever [graph_index] is
    not [num_graphs - 1], so for every index below it.  When it compiles
    the last graph (a miss, and the adaptor returns a callable) it adds the
    time elapsed since the recorded start. *)
(** Close a goal of [compile_timing] once both sides are the same. *)
Ltac timing_done :=
  repeat split; intros; try done; try lia;
  repeat match goal with H : exists _, _ |- _ => destruct H end;
  try done.

Theorem compile_timing
    (graph : list Fx.Node) (example_inputs : list Arg)
    (additional_inductor_config : pyval) (graph_index num_graphs : Z)
    (runtime_shape : option Z) (s : State) :
  let r := compile graph example_inputs additional_inductor_config
             graph_index num_graphs runtime_shape s in
  let s' := snd r in
  let clock_at_end :=
    if bool_decide (graph_index = 0%Z) then S (clock s) else clock s in
  compilation_start_time s'
  = (if bool_decide (graph_index = 0%Z) then time_source s (clock s)
     else compilation_start_time s)
  /\ (graph_index <> (num_graphs - 1)%Z ->
      compilation_time (config s') = compilation_time (config s))
  /\ ((graph_index < num_graphs - 1)%Z ->
      compilation_time (config s') = compilation_time (config s))
  /\ (graph_index = (num_graphs - 1)%Z ->
      fst (load graph example_inputs graph_index runtime_shape s) = inr None ->
      (exists compiled_graph, fst r = inr compiled_graph) ->
      compilation_time (config s')
      = (compilation_time (config s)
         + (time_source s clock_at_end - compilation_start_time s'))%float).
Proof.
  intros r s' clock_at_end. subst s' r clock_at_end.
  rewrite compile_eq. cbv zeta.
  set (s1 := if bool_decide (graph_index = 0%Z) then _ else s).
  set (s2 := set_counter _ s1).
  assert (config s2 = config s
          /\ compilation_start_time s2
             = (if bool_decide (graph_index = 0%Z) then time_source s (clock s)
                else compilation_start_time s)
          /\ clock s2
             = (if bool_decide (graph_index = 0%Z) then S (clock s) else clock s)
          /\ time_source s2 = time_source s
          /\ manager s2 = manager s) as (Hc & Hst & Hcl & Hts & Hm).
  { subst s2 s1. by destruct (bool_decide (graph_index = 0%Z)). }
  pose proof (load_frame graph example_inputs graph_index runtime_shape s2)
    as (Hc3 & Hcl3 & Hst3 & Hts3 & _).
  assert (fst (load graph example_inputs graph_index runtime_shape s2)
          = fst (load graph example_inputs graph_index runtime_shape s))
    as Hload.
  { rewrite !load_eq. cbv zeta. rewrite Hm.
    destruct (py_contains _ _) as [?|[|]]; try done.
    by destruct (py_getitem _ _). }
  destruct (load graph example_inputs graph_index runtime_shape s2)
    as [[e|[cg|]] s3]; cbn [fst snd] in *.
  - rewrite Hc3, Hst3, Hc, Hst. rewrite <- Hload. timing_done.
  - rewrite <- Hload.
    destruct (bool_decide (graph_index = (num_graphs - 1)%Z)); simpl;
      rewrite Hc3, Hst3, Hc, Hst; timing_done.
  - set (s4 := set_events _ s3).
    destruct (compiler_compile _ _ _ _ _ _) as [[cg|] handle]; cbn [fst snd].
    + pose proof (store_handle_frame runtime_shape graph_index handle s4)
        as (Hc5 & Hcl5 & Hst5 & Hts5 & _).
      destruct (store_handle _ _ _ _) as [[e|[]] s5]; cbn [fst snd] in *.
      * simpl in *. rewrite Hc5, Hst5, Hc3, Hst3, Hc, Hst. timing_done.
      * destruct (bool_decide (graph_index = (num_graphs - 1)%Z)) eqn:Hlast;
          simpl in *.
        -- unfold record_elapsed. simpl.
           rewrite Hc5, Hst5, Hcl5, Hts5, Hc3, Hcl3, Hst3, Hts3, Hc, Hst, Hcl, Hts.
           apply bool_decide_eq_true in Hlast. timing_done.
        -- apply bool_decide_eq_false in Hlast.
           rewrite Hc5, Hst5, Hc3, Hst3, Hc, Hst. timing_done.
    + simpl in *. rewrite Hc3, Hst3, Hc, Hst. timing_done.
Qed.

(** ** initialize_cache and save_to_file *)

(** The manager once [initialize_cache] has set its three attributes. *)
Definition with_cache_dir (cache_dir : string) (disable_cache : bool)
    (m : CompilerManager) : CompilerManager :=
  mkManager (cache m) (is_cache_updated m) (compiler m) (Some disable_cache)
    (Some cache_dir) (Some (path_join cache_dir "vllm_compile_cache.py")).

(** [initialize_cache] step by step. *)
Lemma initialize_cache_eq cache_dir disable_cache prefix s :
  let path := path_join cache_dir "vllm_compile_cache.py" in
  let s1 := set_manager (with_cache_dir cache_dir disable_cache (manager s)) s in
  let done_ s2 :=
    (inr tt,
     set_events
       (events s2 ++ [AdaptorInitializeCache cache_dir disable_cache prefix])
       s2) in
  initialize_cache cache_dir disable_cache prefix s
  = match files s !! path with
    | Some text =>
        if disable_cache then done_ s1
        else
          match literal_eval text with
          | inl e => (inl e, s1)
          | inr v => done_ (set_manager (set_cache v (manager s1)) s1)
          end
    | None => done_ s1
    end.
Proof.
  unfold initialize_cache, with_cache_dir. run_monad.
  destruct (files s !! _); [|done].
  destruct disable_cache; simpl; [done|].
  destruct (literal_eval _); done.
Qed.



(** A text that calls a function is not a literal. *)
Example literal_eval_rejects_call :
  literal_eval "__import__('os').system('true')" = inl SyntaxError.
Proof. reflexivity. Qed.

(** [save_to_file] step by step. *)
Lemma save_to_file_eq pformat s :
  save_to_file pformat s
  = match disable_cache (manager s) with
    | None => (inl (AttributeError "disable_cache"), s)
    | Some disabled =>
        if disabled || negb (is_cache_updated (manager s)) then (inr tt, s)
        else
          match cache_file_path (manager s) with
          | None => (inl (AttributeError "cache_file_path"), s)
          | Some path =>
              (inr tt,
               set_files (<[path := pformat (cache (manager s))]> (files s)) s)
          end
    end.
Proof.
  unfold save_to_file. run_monad.
  destruct (disable_cache (manager s)) as [[|]|]; simpl; try done.
  destruct (is_cache_updated (manager s)); simpl; [|done].
  destruct (cache_file_path (manager s)); done.
Qed.

(** ** The cache file *)

(** *** Parsing a display *)

(** A token that can begin a value. *)
Definition starts_value (t : token) : bool :=
  match t with
  | TNone | TNum _ | TMinus | TStr _ | TLParen | TLBrack => true
  | _ => false
  end.

(** A token that can follow a value: a closing bracket, a comma or a
    colon. *)
Definition follows_value (ts : list token) : Prop :=
  match ts with
  | [] => True
  | t :: _ => starts_value t = false /\ t <> TLBrace
  end.

Scheme Display_mut := Minimality for Display Sort Prop
  with DisplaySeq_mut := Minimality for DisplaySeq Sort Prop.

Lemma Display_head v ts :
  Display v ts -> exists t ts', ts = t :: ts' /\ starts_value t = true.
Proof. destruct 1; by eexists _, _. Qed.

Lemma take_strs_chunks chunks rest :
  follows_value rest ->
  take_strs (map TStr chunks ++ rest) = (foldr String.append "" chunks, rest).
Proof.
  intros Hrest. induction chunks as [|chunk chunks IH]; simpl.
  - destruct rest as [|[] rest]; try done. by destruct Hrest.
  - by rewrite IH.
Qed.

(** One unfolding of the parser on a value in brackets. *)
Lemma parse_seq_step fuel close t ts :
  t <> close ->
  parse_seq (S fuel) close (t :: ts)
  = match parse_value fuel (t :: ts) with
    | None => None
    | Some (v, r1) =>
        match r1 with
        | TComma :: r2 =>
            match parse_seq fuel close r2 with
            | None => None
            | Some (vs, r3) => Some (v :: vs, r3)
            end
        | t1 :: r2 => if decide (t1 = close) then Some ([v], r2) else None
        | [] => None
        end
    end.
Proof. intros Hne. simpl. by rewrite decide_False. Qed.

(** A closing bracket of a sequence. *)
Definition closes_seq (close : token) : Prop :=
  close = TRParen \/ close = TRBrack.

Combined Scheme Display_mutind from Display_mut, DisplaySeq_mut.

Lemma closes_seq_spec close :
  closes_seq close ->
  follows_value [close] /\ close <> TComma
  /\ forall t, starts_value t = true -> t <> close.
Proof. intros [-> | ->]; repeat split; try done; by intros [] ?. Qed.

(** The parser reads a display back: the value of a display that is
    followed by a closing bracket, a comma, a colon or nothing, and the
    values of a sequence up to its closing bracket. *)
Lemma Display_parse :
  (forall v ts,
     Display v ts ->
     forall fuel rest,
       length ts <= fuel -> follows_value rest ->
       parse_value fuel (ts ++ rest) = Some (v, rest))
  /\ (forall vs ts,
        DisplaySeq vs ts ->
        forall fuel close rest,
          closes_seq close -> length ts + 1 <= fuel ->
          parse_seq fuel close (ts ++ close :: rest) = Some (vs, rest)).
Proof.
  apply Display_mutind.
  - intros fuel rest Hfuel _. destruct fuel; [simpl in *; lia|]. done.
  - intros z Hz fuel rest Hfuel _. destruct fuel; [simpl in *; lia|]. simpl.
    by rewrite Z2N.id by done.
  - intros z Hz fuel rest Hfuel _. destruct fuel; [simpl in *; lia|]. simpl.
    rewrite Z2N.id by lia. do 3 f_equal. lia.
  - intros chunk chunks fuel rest Hfuel Hrest.
    destruct fuel; [simpl in *; lia|].
    cbn [app parse_value]. by rewrite take_strs_chunks.
  - intros fuel rest Hfuel _. destruct fuel; [simpl in *; lia|]. done.
  - intros v ts Hd IH fuel rest Hfuel Hrest.
    destruct fuel; [simpl in *; lia|].
    destruct (Display_head _ _ Hd) as (t & ts' & -> & Ht).
    cbn [app length] in *. rewrite length_app in Hfuel. cbn [length] in Hfuel.
    assert (parse_value fuel (t :: ts' ++ [TComma; TRParen] ++ rest)
            = Some (v, [TComma; TRParen] ++ rest)) as Hv.
    { apply (IH fuel ([TComma; TRParen] ++ rest)); [simpl; lia|done]. }
    rewrite <- app_assoc.
    cbn [parse_value]. destruct t; try done; rewrite Hv; cbn [app];
      destruct fuel; try (simpl in *; lia); done.
  - intros v w vs tv ts Hd IH Hs IHs fuel rest Hfuel Hrest.
    destruct fuel; [simpl in *; lia|].
    destruct (Display_head _ _ Hd) as (t & ts' & -> & Ht).
    cbn [app length] in *. rewrite !length_app in Hfuel.
    cbn [length] in Hfuel. rewrite length_app in Hfuel. cbn [length] in Hfuel.
    assert (parse_value fuel
              (t :: ts' ++ TComma :: ts ++ TRParen :: rest)
            = Some (v, TComma :: ts ++ TRParen :: rest)) as Hv.
    { apply (IH fuel (TComma :: ts ++ TRParen :: rest)); [simpl; lia|done]. }
    assert (parse_seq fuel TRParen (ts ++ TRParen :: rest)
            = Some (w :: vs, rest)) as Hseq.
    { apply IHs; [by left|lia]. }
    replace ((ts' ++ TComma :: ts ++ [TRParen]) ++ rest)
      with (ts' ++ TComma :: ts ++ TRParen :: rest)
      by (rewrite <- !app_assoc; cbn [app]; by rewrite <- app_assoc).
    cbn [parse_value]. destruct t; try done; by rewrite Hv, Hseq.
  - intros vs ts Hs IHs fuel rest Hfuel Hrest.
    destruct fuel; [simpl in *; lia|].
    cbn [app length] in *. rewrite length_app in Hfuel. cbn [length] in Hfuel.
    rewrite <- app_assoc. cbn [app parse_value].
    rewrite IHs; [done|by right|lia].
  - intros fuel close rest Hc Hfuel. destruct fuel; [simpl in *; lia|].
    simpl. by rewrite decide_True.
  - intros v ts Hd IH fuel close rest Hc Hfuel.
    destruct fuel; [simpl in *; lia|].
    destruct (closes_seq_spec close Hc) as (Hf & Hcomma & Hstart).
    destruct (Display_head _ _ Hd) as (t & ts' & -> & Ht).
    cbn [app]. rewrite parse_seq_step by by apply Hstart.
    change (t :: ts' ++ close :: rest) with ((t :: ts') ++ close :: rest).
    rewrite IH; [|simpl in *; lia|by destruct Hf].
    destruct close; try done; by rewrite decide_True.
  - intros v w vs ts ts' Hd IH Hs IHs fuel close rest Hc Hfuel.
    destruct fuel; [simpl in *; lia|].
    destruct (closes_seq_spec close Hc) as (Hf & Hcomma & Hstart).
    destruct (Display_head _ _ Hd) as (t & ts0 & -> & Ht).
    rewrite length_app in Hfuel. cbn [length] in Hfuel.
    rewrite <- app_assoc. cbn [app]. rewrite parse_seq_step by by apply Hstart.
    change (t :: ts0 ++ TComma :: ts' ++ close :: rest)
      with ((t :: ts0) ++ TComma :: ts' ++ close :: rest).
    rewrite IH; [|simpl in *; lia|done].
    rewrite IHs; [done|done|lia].
Qed.

Lemma parse_items_step fuel t ts :
  t <> TRBrace ->
  parse_items (S fuel) (t :: ts)
  = match parse_value fuel (t :: ts) with
    | Some (k, TColon :: r1) =>
        match parse_value fuel r1 with
        | Some (v, TComma :: r2) =>
            match parse_items fuel r2 with
            | None => None
            | Some (kvs, r3) => Some ((k, v) :: kvs, r3)
            end
        | Some (v, TRBrace :: r2) => Some ([(k, v)], r2)
        | _ => None
        end
    | _ => None
    end.
Proof. intros Hne. by destruct t. Qed.

Lemma DisplayItems_parse items ts :
  DisplayItems items ts ->
  forall fuel rest,
    length ts + 1 <= fuel ->
    parse_items fuel (ts ++ TRBrace :: rest) = Some (items, rest).
Proof.
  destruct Display_parse as [Hvalue _].
  induction 1 as [|k v tk tv Hk Hv|k v kv items tk tv ts Hk Hv Hitems IH];
    intros fuel rest Hfuel; (destruct fuel; [simpl in *; lia|]).
  - done.
  - destruct (Display_head _ _ Hk) as (t & tk' & -> & Ht).
    rewrite length_app in Hfuel. cbn [length] in Hfuel.
    rewrite <- app_assoc. cbn [app].
    rewrite parse_items_step by by destruct t.
    change (t :: tk' ++ TColon :: tv ++ TRBrace :: rest)
      with ((t :: tk') ++ TColon :: tv ++ TRBrace :: rest).
    rewrite (Hvalue _ _ Hk); [|simpl in *; lia|done].
    rewrite (Hvalue _ _ Hv); [done|lia|done].
  - destruct (Display_head _ _ Hk) as (t & tk' & -> & Ht).
    rewrite length_app in Hfuel. cbn [length] in Hfuel.
    rewrite length_app in Hfuel. cbn [length] in Hfuel.
    replace (((t :: tk') ++ TColon :: tv ++ TComma :: ts) ++ TRBrace :: rest)
      with (t :: tk' ++ TColon :: tv ++ TComma :: ts ++ TRBrace :: rest)
      by (rewrite <- !app_assoc; cbn [app]; by rewrite <- app_assoc).
    rewrite parse_items_step by by destruct t.
    change (t :: tk' ++ TColon :: tv ++ TComma :: ts ++ TRBrace :: rest)
      with ((t :: tk') ++ TColon :: tv ++ TComma :: ts ++ TRBrace :: rest).
    rewrite (Hvalue _ _ Hk); [|simpl in *; lia|done].
    rewrite (Hvalue _ _ Hv); [|lia|done].
    rewrite IH by lia. done.
Qed.

(** *** Dictionaries with distinct keys *)

Lemma dict_get_None k items : k ∉ items.*1 -> dict_get k items = None.
Proof.
  induction items as [|[k' v'] items IH]; [done|].
  intros [Hne Hnotin]%not_elem_of_cons. simpl.
  rewrite pyval_eqb_neq by done. by apply IH.
Qed.

Lemma dict_get_elem k v items :
  NoDup items.*1 -> (k, v) ∈ items -> dict_get k items = Some v.
Proof.
  induction items as [|[k' v'] items IH]; intros Hnodup Hin;
    [by inversion Hin|].
  apply NoDup_cons in Hnodup as [Hnotin Hnodup]. simpl.
  apply elem_of_cons in Hin as [[= <- <-]|Hin].
  - by rewrite pyval_eqb_refl.
  - rewrite pyval_eqb_neq; [by apply IH|].
    intros ->. apply Hnotin. apply list_elem_of_fmap. by exists (k, v).
Qed.

Lemma dict_get_Some k v items : dict_get k items = Some v -> (k, v) ∈ items.
Proof.
  induction items as [|[k' v'] items IH]; [done|]. simpl.
  destruct (pyval_eqb k' k) eqn:E.
  - apply pyval_eqb_eq in E as ->. intros [= ->]. left.
  - intros Hget. right. by apply IH.
Qed.

(** Two dictionaries with the same items answer every lookup alike. *)
Lemma dict_get_perm k items written :
  NoDup items.*1 -> written ≡ₚ items -> dict_get k written = dict_get k items.
Proof.
  intros Hnodup Hperm.
  assert (NoDup written.*1) as Hnodup' by by rewrite Hperm.
  destruct (dict_get k items) as [v|] eqn:Hget.
  - apply dict_get_elem; [done|]. rewrite Hperm. by apply dict_get_Some.
  - destruct (dict_get k written) as [v|] eqn:Hget'; [|done].
    apply dict_get_Some in Hget'. rewrite Hperm in Hget'.
    apply (dict_get_elem _ _ _ Hnodup) in Hget'. congruence.
Qed.

Lemma dict_set_new k v items :
  k ∉ items.*1 -> dict_set k v items = items ++ [(k, v)].
Proof.
  induction items as [|[k' v'] items IH]; [done|].
  intros [Hne Hnotin]%not_elem_of_cons. simpl.
  rewrite pyval_eqb_neq by done. by rewrite IH.
Qed.

(** Items with distinct hashable keys are the dictionary they build. *)
Lemma build_dict_distinct items : forall acc,
  NoDup (acc ++ items).*1 ->
  Forall (fun kv => hashable kv.1 = true) items ->
  build_dict acc items = Some (acc ++ items).
Proof.
  induction items as [|[k v] items IH]; intros acc Hnodup Hhash.
  - by rewrite app_nil_r.
  - apply Forall_cons in Hhash as [Hk Hhash]. simpl in Hk. simpl. rewrite Hk.
    rewrite dict_set_new.
    + rewrite IH; [by rewrite <- app_assoc|by rewrite <- app_assoc|done].
    + rewrite fmap_app in Hnodup. apply NoDup_app in Hnodup as (_ & Hdisj & _).
      intros Hin. apply (Hdisj k Hin). left.
Qed.

(** *** Reading back a display of the cache *)

(** The text of a cache: it tokenizes to a display of the items, written in
    some order. *)
Definition displays_cache (text : string) (items : list (pyval * pyval))
  : Prop :=
  exists ts, lex text = Some ts /\ DisplayDict items ts.

Lemma literal_eval_display text items :
  NoDup items.*1 ->
  Forall (fun kv => hashable kv.1 = true) items ->
  displays_cache text items ->
  exists written,
    literal_eval text = inr (PyDict written)
    /\ written ≡ₚ items
    /\ forall k, dict_get k written = dict_get k items.
Proof.
  intros Hnodup Hhash (ts & Hlex & written & body & Hperm & Hitems & ->).
  exists written. split; [|split; [done|]].
  - unfold literal_eval. rewrite Hlex.
    replace (TLBrace :: body ++ [TRBrace])
      with (TLBrace :: body ++ TRBrace :: []) by done.
    set (fuel := 2 * S (length (TLBrace :: body ++ [TRBrace]))).
    assert (length body + 2 <= fuel) as Hfuel.
    { subst fuel. cbn [length]. rewrite length_app. simpl. lia. }
    destruct fuel as [|fuel]; [lia|]. cbn [parse_value].
    rewrite (DisplayItems_parse _ _ Hitems) by lia.
    rewrite (build_dict_distinct written []); [done| |].
    + cbn [app]. by rewrite Hperm.
    + by rewrite Hperm.
  - intros k. by apply dict_get_perm.
Qed.

(** *** Tokenizing what [repr] writes *)

(** The tokenizer run over a text without ending it: the tokens completed
    and the mode reached. *)
Fixpoint lex_run (m : lex_mode) (s : string) : option (list token * lex_mode) :=
  match s with
  | "" => Some ([], m)
  | String c s' =>
      match lex_step m c with
      | None => None
      | Some (ts, m') =>
          match lex_run m' s' with
          | None => None
          | Some (ts', m'') => Some (ts ++ ts', m'')
          end
      end
  end.

Lemma lex_go_run m s :
  lex_go m s
  = match lex_run m s with
    | Some (ts, m') =>
        match lex_end m' with
        | Some ts' => Some (ts ++ ts')
        | None => None
        end
    | None => None
    end.
Proof.
  revert m. induction s as [|c s IH]; intros m; simpl.
  - by destruct (lex_end m).
  - destruct (lex_step m c) as [[ts m']|]; [|done]. rewrite IH.
    destruct (lex_run m' s) as [[ts' m'']|]; [|done].
    destruct (lex_end m''); [|done]. by rewrite app_assoc.
Qed.

Lemma append_cons c s1 s2 : String c s1 +:+ s2 = String c (s1 +:+ s2).
Proof. done. Qed.

Lemma append_nil_r s : s +:+ "" = s.
Proof. induction s as [|c s IH]; [done|]. by rewrite append_cons, IH. Qed.

Lemma append_assoc s1 s2 s3 : (s1 +:+ s2) +:+ s3 = s1 +:+ (s2 +:+ s3).
Proof.
  induction s1 as [|c s1 IH]; [done|]. by rewrite !append_cons, IH.
Qed.

Lemma lex_run_app m s1 s2 :
  lex_run m (s1 +:+ s2)
  = match lex_run m s1 with
    | Some (ts1, m1) =>
        match lex_run m1 s2 with
        | Some (ts2, m2) => Some (ts1 ++ ts2, m2)
        | None => None
        end
    | None => None
    end.
Proof.
  revert m. induction s1 as [|c s1 IH]; intros m.
  - change ("" +:+ s2) with s2. simpl. by destruct (lex_run m s2) as [[]|].
  - rewrite append_cons. simpl.
    destruct (lex_step m c) as [[ts m']|]; [|done]. rewrite IH.
    destruct (lex_run m' s1) as [[ts1 m1]|]; [|done].
    destruct (lex_run m1 s2) as [[ts2 m2]|]; [|done]. by rewrite app_assoc.
Qed.

(** [lexes_to s ts]: the text [s], met between tokens, holds the tokens
    [ts], the last of which may be a number that the end of [s] leaves
    pending. *)
Definition lexes_to (s : string) (ts : list token) : Prop :=
  exists pre m post,
    lex_run LStart s = Some (pre, m) /\ lex_end m = Some post
    /\ ts = pre ++ post.

Lemma lexes_to_lex s ts : lexes_to s ts -> lex s = Some ts.
Proof.
  intros (pre & m & post & Hrun & Hend & ->).
  unfold lex. by rewrite lex_go_run, Hrun, Hend.
Qed.

(** [separates d td]: the text [d] ends a pending number, holds the tokens
    [td], and leaves the tokenizer between tokens. *)
Definition separates (d : string) (td : list token) : Prop :=
  forall m post,
    lex_end m = Some post -> lex_run m d = Some (post ++ td, LStart).

Lemma separates_intro d td :
  lex_run LStart d = Some (td, LStart) ->
  lex_run LZero d = Some (TNum 0 :: td, LStart) ->
  (forall acc, lex_run (LNum acc) d = Some (TNum acc :: td, LStart)) ->
  separates d td.
Proof.
  intros H1 H2 H3 m post Hend.
  destruct m; simpl in Hend; try done; injection Hend as <-; auto.
Qed.

Lemma separates_comma : separates ", " [TComma].
Proof. by apply separates_intro. Qed.

Lemma separates_colon : separates ": " [TColon].
Proof. by apply separates_intro. Qed.

Lemma separates_rparen : separates ")" [TRParen].
Proof. by apply separates_intro. Qed.

Lemma separates_comma_rparen : separates ",)" [TComma; TRParen].
Proof. by apply separates_intro. Qed.

Lemma separates_rbrack : separates "]" [TRBrack].
Proof. by apply separates_intro. Qed.

Lemma separates_rbrace : separates "}" [TRBrace].
Proof. by apply separates_intro. Qed.

Lemma lexes_to_sep s1 ts1 d td s2 ts2 :
  lexes_to s1 ts1 -> separates d td -> lexes_to s2 ts2 ->
  lexes_to (s1 +:+ d +:+ s2) (ts1 ++ td ++ ts2).
Proof.
  intros (pre1 & m1 & post1 & Hrun1 & Hend1 & ->) Hsep
         (pre2 & m2 & post2 & Hrun2 & Hend2 & ->).
  exists ((pre1 ++ post1) ++ td ++ pre2), m2, post2.
  split; [|split; [done|]].
  - rewrite lex_run_app, Hrun1, lex_run_app, (Hsep _ _ Hend1), Hrun2.
    by rewrite <- !app_assoc.
  - by rewrite <- !app_assoc.
Qed.

Lemma lexes_to_close s ts d td :
  lexes_to s ts -> separates d td -> lexes_to (s +:+ d) (ts ++ td).
Proof.
  intros (pre & m & post & Hrun & Hend & ->) Hsep.
  exists ((pre ++ post) ++ td), LStart, []. split; [|split; [done|]].
  - by rewrite lex_run_app, Hrun, (Hsep _ _ Hend), <- !app_assoc.
  - by rewrite app_nil_r.
Qed.

Lemma lexes_to_open c t s ts :
  lex_step LStart c = Some ([t], LStart) ->
  lexes_to s ts -> lexes_to (String c s) (t :: ts).
Proof.
  intros Hstep (pre & m & post & Hrun & Hend & ->).
  exists (t :: pre), m, post. split; [|done]. simpl in *. by rewrite Hstep, Hrun.
Qed.

(** Integers *)

Lemma lex_run_digits d : forall n acc,
  n = Npos acc ->
  lex_run (LNum n) (NilEmpty.string_of_uint d)
  = Some ([], LNum (Npos (Pos.of_uint_acc d acc))).
Proof.
  induction d; intros n acc ->; [done|..];
    cbn [NilEmpty.string_of_uint lex_run Pos.of_uint_acc];
    match goal with
    | |- context [lex_step (LNum (N.pos acc)) ?c] =>
        change (lex_step (LNum (N.pos acc)) c)
          with (Some ([] : list token,
                      LNum (10 * N.pos acc + (N_of_ascii c - 48))%N))
    end;
    cbv beta iota; (erewrite IHd; [done|simpl; lia]).
Qed.

(** The decimal digits of a positive number do not begin with a zero. *)
Lemma to_uint_head p :
  match Pos.to_uint p with
  | Decimal.Nil | Decimal.D0 _ => False
  | _ => True
  end.
Proof.
  pose proof (DecimalPos.Unsigned.to_of (Pos.to_uint p)) as Hnorm.
  rewrite DecimalPos.Unsigned.of_to in Hnorm. cbn [N.to_uint] in Hnorm.
  pose proof (DecimalPos.Unsigned.to_uint_nonnil p) as Hnonnil.
  pose proof (DecimalPos.Unsigned.to_uint_nonzero p) as Hnonzero.
  destruct (Pos.to_uint p) as [|d| | | | | | | | |]; try done.
  rewrite DecimalFacts.unorm_D0 in Hnorm.
  assert (d <> Decimal.Nil) as Hd by (by intros ->).
  pose proof (DecimalFacts.nb_digits_unorm d Hd) as Hlen. rewrite <- Hnorm in Hlen.
  simpl in Hlen. lia.
Qed.

Lemma lex_run_pos p :
  lex_run LStart (NilZero.string_of_uint (Pos.to_uint p))
  = Some ([], LNum (Npos p)).
Proof.
  pose proof (to_uint_head p) as Hhead.
  pose proof (DecimalPos.Unsigned.of_to p) as Hof.
  destruct (Pos.to_uint p) as [|d|d|d|d|d|d|d|d|d|d]; try done;
    cbn [NilZero.string_of_uint NilEmpty.string_of_uint lex_run];
    cbn [Pos.of_uint] in Hof; injection Hof as <-;
    match goal with
    | |- context [lex_step LStart ?c] =>
        change (lex_step LStart c)
          with (Some ([] : list token, LNum (N_of_ascii c - 48)%N))
    end;
    cbv beta iota; by erewrite lex_run_digits by (simpl; reflexivity).
Qed.

Lemma lexes_to_int z :
  exists ts, Display (PyInt z) ts /\ lexes_to (str_of_Z z) ts.
Proof.
  destruct z as [|p|p].
  - exists [TNum 0]. split; [by apply (Display_nonneg 0)|].
    by exists [], LZero, [TNum 0%N].
  - exists [TNum (Npos p)]. split; [by apply (Display_nonneg (Zpos p))|].
    exists [], (LNum (Npos p)), [TNum (Npos p)].
    split; [apply lex_run_pos|done].
  - exists [TMinus; TNum (Npos p)].
    split; [by apply (Display_neg (Zneg p))|].
    exists [TMinus], (LNum (Npos p)), [TNum (Npos p)]. split; [|done].
    unfold str_of_Z. cbn [Z.to_int NilZero.string_of_int lex_run].
    change (lex_step LStart "-") with (Some ([TMinus], LStart)).
    cbv beta iota. by rewrite lex_run_pos.
Qed.

(** Strings *)

Lemma lex_run_escape_char q c acc :
  q = sq \/ q = dq ->
  lex_run (LStr q acc) (escape_char q c) = Some ([], LStr q (snoc acc c)).
Proof.
  intros [-> | ->];
    destruct c as [[] [] [] [] [] [] [] []]; vm_compute; reflexivity.
Qed.

Lemma lex_run_escape q s : forall acc,
  q = sq \/ q = dq ->
  lex_run (LStr q acc) (escape q s) = Some ([], LStr q (acc +:+ s)).
Proof.
  induction s as [|c s IH]; intros acc Hq.
  - simpl. by rewrite append_nil_r.
  - cbn [escape]. rewrite lex_run_app, lex_run_escape_char, IH by done.
    unfold snoc. rewrite append_assoc. done.
Qed.

Lemma repr_quote_spec s : repr_quote s = sq \/ repr_quote s = dq.
Proof. unfold repr_quote. destruct (_ && _); auto. Qed.

Lemma lexes_to_str s : lexes_to (repr_str s) [TStr s].
Proof.
  exists [TStr s], LStart, []. split; [|done].
  unfold repr_str. pose proof (repr_quote_spec s) as Hq.
  set (q := repr_quote s) in *. clearbody q.
  cbn [lex_run].
  assert (lex_step LStart q = Some ([], LStr q "")) as ->
    by (by destruct Hq as [-> | ->]).
  rewrite lex_run_app, lex_run_escape by done.
  change ("" +:+ s) with s. cbn [lex_run lex_step].
  by rewrite bool_decide_eq_true_2.
Qed.

(** Values *)

(** Literal data without dictionaries: [None], integers, strings, and
    tuples and lists of such data. *)
Fixpoint literal (v : pyval) : bool :=
  match v with
  | PyNone | PyInt _ | PyStr _ => true
  | PyTuple items | PyList items => forallb literal items
  | PyDict _ => false
  end.

(** [repr_displays v]: [repr] writes a display of [v]. *)
Definition repr_displays (v : pyval) : Prop :=
  exists ts, Display v ts /\ lexes_to (py_repr v) ts.

Lemma repr_displays_seq items :
  items <> [] -> Forall repr_displays items ->
  exists ts, DisplaySeq items ts /\ lexes_to (join ", " (map py_repr items)) ts.
Proof.
  induction items as [|v items IH]; [done|]. intros _ Hitems.
  apply Forall_cons in Hitems as [(tv & Hd & Hl) Hitems].
  destruct items as [|w items].
  - exists tv. split; [by constructor|done].
  - destruct IH as (ts & Hds & Hls); [done|done|].
    exists (tv ++ TComma :: ts). split; [by constructor|].
    change (join ", " (map py_repr (v :: w :: items)))
      with (py_repr v +:+ ", " +:+ join ", " (map py_repr (w :: items))).
    apply (lexes_to_sep _ _ _ [TComma]); [done|apply separates_comma|done].
Qed.

Lemma literal_repr_displays v : literal v = true -> repr_displays v.
Proof.
  induction v as [ | z | s | items IH | items IH | items IH ]
    using pyval_induction; intros Hlit.
  - exists [TNone]. split; [constructor|]. by exists [TNone], LStart, [].
  - apply lexes_to_int.
  - exists [TStr s]. split; [|apply lexes_to_str].
    pose proof (Display_str s []) as Hd. simpl in Hd.
    by rewrite append_nil_r in Hd.
  - cbn [literal] in Hlit.
    assert (Forall repr_displays items) as Hitems.
    { apply Forall_forall. intros v Hv.
      apply (proj1 (Forall_forall _ _) IH v Hv).
      by apply (proj1 (forallb_forall _ _) Hlit), list_elem_of_In. }
    destruct items as [|v [|w items]].
    + exists [TLParen; TRParen]. split; [constructor|].
      by exists [TLParen; TRParen], LStart, [].
    + apply Forall_cons in Hitems as [(tv & Hd & Hl) _].
      exists (TLParen :: tv ++ [TComma; TRParen]). split; [by constructor|].
      change (py_repr (PyTuple [v])) with (String "(" (py_repr v +:+ ",)")).
      apply lexes_to_open; [done|].
      apply lexes_to_close; [done|apply separates_comma_rparen].
    + apply Forall_cons in Hitems as [(tv & Hd & Hl) Hitems].
      destruct (repr_displays_seq (w :: items)) as (ts & Hds & Hls); [done|done|].
      exists (TLParen :: tv ++ TComma :: ts ++ [TRParen]).
      split; [by constructor|].
      change (py_repr (PyTuple (v :: w :: items)))
        with (String "("
                ((py_repr v +:+ ", " +:+ join ", " (map py_repr (w :: items)))
                 +:+ ")")).
      apply lexes_to_open; [done|].
      replace (tv ++ TComma :: ts ++ [TRParen])
        with ((tv ++ [TComma] ++ ts) ++ [TRParen])
        by (by rewrite <- !app_assoc).
      apply lexes_to_close; [|apply separates_rparen].
      apply lexes_to_sep; [done|apply separates_comma|done].
  - cbn [literal] in Hlit.
    assert (Forall repr_displays items) as Hitems.
    { apply Forall_forall. intros v Hv.
      apply (proj1 (Forall_forall _ _) IH v Hv).
      by apply (proj1 (forallb_forall _ _) Hlit), list_elem_of_In. }
    destruct (decide (items = [])) as [->|Hne].
    + exists [TLBrack; TRBrack]. split; [apply (Display_list [] []); constructor|].
      by exists [TLBrack; TRBrack], LStart, [].
    + destruct (repr_displays_seq items) as (ts & Hds & Hls); [done|done|].
      exists (TLBrack :: ts ++ [TRBrack]). split; [by constructor|].
      change (py_repr (PyList items))
        with (String "[" (join ", " (map py_repr items) +:+ "]")).
      apply lexes_to_open; [done|].
      apply lexes_to_close; [done|apply separates_rbrack].
  - done.
Qed.

Lemma repr_displays_items items :
  items <> [] ->
  Forall (fun kv => repr_displays kv.1 /\ repr_displays kv.2) items ->
  exists ts,
    DisplayItems items ts
    /\ lexes_to
         (join ", "
            (map (fun kv => py_repr (fst kv) +:+ ": " +:+ py_repr (snd kv))
               items)) ts.
Proof.
  induction items as [|[k v] items IH]; [done|]. intros _ Hitems.
  apply Forall_cons in Hitems as [[(tk & Hdk & Hlk) (tv & Hdv & Hlv)] Hitems].
  cbn [fst snd] in *.
  assert (lexes_to (py_repr k +:+ ": " +:+ py_repr v) (tk ++ [TColon] ++ tv))
    as Hkv by (apply lexes_to_sep; [done|apply separates_colon|done]).
  destruct items as [|kv items].
  - exists (tk ++ TColon :: tv). split; [by constructor|done].
  - destruct IH as (ts & Hds & Hls); [done|done|].
    exists (tk ++ TColon :: tv ++ TComma :: ts). split; [by constructor|].
    replace (tk ++ TColon :: tv ++ TComma :: ts)
      with ((tk ++ [TColon] ++ tv) ++ [TComma] ++ ts)
      by (by rewrite <- !app_assoc).
    apply (lexes_to_sep _ _ _ [TComma]); [done|apply separates_comma|done].
Qed.

(** [repr] writes a display of a dictionary of literal data, items in
    order. *)
Lemma py_repr_displays items :
  Forall (fun kv => literal kv.1 = true /\ literal kv.2 = true) items ->
  displays_cache (py_repr (PyDict items)) items.
Proof.
  intros Hlit.
  assert (Forall (fun kv => repr_displays kv.1 /\ repr_displays kv.2) items) as Hitems.
  { eapply Forall_impl; [done|]. intros kv [Hk Hv].
    split; by apply literal_repr_displays. }
  destruct (decide (items = [])) as [->|Hne].
  - exists [TLBrace; TRBrace]. split; [done|].
    exists [], []. split; [done|]. split; [constructor|done].
  - destruct (repr_displays_items items Hne Hitems) as (body & Hd & Hl).
    exists (TLBrace :: body ++ [TRBrace]). split.
    + apply lexes_to_lex.
      change (py_repr (PyDict items))
        with (String "{"
                (join ", "
                   (map (fun kv => py_repr (fst kv) +:+ ": " +:+ py_repr (snd kv))
                      items) +:+ "}")).
      apply lexes_to_open; [done|].
      apply lexes_to_close; [done|apply separates_rbrace].
    + by exists items, body.
Qed.

(** *** The round trip *)

(** An entry of the cache: the key is the triple that [compile] builds
    from the shape, the index of the graph and the name of the compiler,
    and the handle is literal data. *)
Definition cache_entry (kv : pyval * pyval) : Prop :=
  (exists runtime_shape graph_index name,
     kv.1 = cache_key runtime_shape graph_index name)
  /\ literal kv.2 = true.

Lemma cache_entry_hashable items :
  Forall cache_entry items -> Forall (fun kv => hashable kv.1 = true) items.
Proof.
  intros Hentries. eapply Forall_impl; [done|].
  intros kv [(shape & index & name & ->) _]. apply cache_key_hashable.
Qed.

Lemma cache_entry_literal items :
  Forall cache_entry items ->
  Forall (fun kv => literal kv.1 = true /\ literal kv.2 = true) items.
Proof.
  intros Hentries. eapply Forall_impl; [done|].
  intros kv [(shape & index & name & ->) Hv]. split; [by destruct shape|done].
Qed.

(** What [repr] writes for a cache is read back as the same dictionary,
    item by item. *)
Lemma literal_eval_py_repr items :
  NoDup items.*1 -> Forall cache_entry items ->
  literal_eval (py_repr (PyDict items)) = inr (PyDict items).
Proof.
  intros Hnodup Hentries.
  destruct (py_repr_displays items (cache_entry_literal _ Hentries))
    as (ts & Hlex & Hdisplay).
  pose proof (cache_entry_hashable _ Hentries) as Hhash.
  unfold literal_eval. rewrite Hlex.
  destruct (decide (items = [])) as [->|Hne].
  - by injection Hlex as <-.
  - destruct (repr_displays_items items Hne) as (body & Hd & Hl).
    { eapply Forall_impl; [apply (cache_entry_literal _ Hentries)|].
      intros kv [Hk Hv]. split; by apply literal_repr_displays. }
    assert (ts = TLBrace :: body ++ TRBrace :: []) as ->.
    { assert (lex (py_repr (PyDict items)) = Some (TLBrace :: body ++ [TRBrace]))
        as Hlex'; [|congruence].
      apply lexes_to_lex.
      change (py_repr (PyDict items))
        with (String "{"
                (join ", "
                   (map (fun kv => py_repr (fst kv) +:+ ": " +:+ py_repr (snd kv))
                      items) +:+ "}")).
      apply lexes_to_open; [done|].
      apply lexes_to_close; [done|apply separates_rbrace]. }
    set (fuel := 2 * S (length (TLBrace :: body ++ [TRBrace]))).
    assert (length body + 2 <= fuel) as Hfuel.
    { subst fuel. cbn [length]. rewrite length_app. simpl. lia. }
    destruct fuel as [|fuel]; [lia|]. cbn [parse_value].
    rewrite (DisplayItems_parse _ _ Hd) by lia.
    by rewrite (build_dict_distinct items []).
Qed.

Section CacheFile.

(** [pprint.PrettyPrinter(indent=4).pformat]: on a cache it writes a
    display of the dictionary, laid out over lines of bounded width, long
    strings as adjacent literals, the items in the order of its sort. *)
Variable pformat : pyval -> string.

Hypothesis pformat_displays :
  forall items,
    Forall cache_entry items -> displays_cache (pformat (PyDict items)) items.

(** C3. Cache artifact round trip.  Let the cache of the manager be a
    dictionary whose keys are triples (optional integer shape, integer
    index, string name) and whose handles are literal data: [None],
    integers, strings, and tuples and lists of such data, nested at will.
    [save_to_file] on the updated cache writes its [pformat] text to the
    cache file, and [ast.literal_eval] reads that text back as a dictionary
    with the same items: every key has the handle it had.  So
    [initialize_cache], in any process that finds the file, sets the cache
    to a mapping equal to the one saved. *)
Theorem cache_round_trip (items : list (pyval * pyval)) (cache_dir : string)
    (s : State) :
  let path := path_join cache_dir "vllm_compile_cache.py" in
  cache (manager s) = PyDict items ->
  NoDup items.*1 ->
  Forall cache_entry items ->
  disable_cache (manager s) = Some false ->
  is_cache_updated (manager s) = true ->
  cache_file_path (manager s) = Some path ->
  exists loaded s1,
    save_to_file pformat s = (inr tt, s1)
    /\ files s1 !! path = Some (pformat (PyDict items))
    /\ literal_eval (pformat (PyDict items)) = inr (PyDict loaded)
    /\ loaded ≡ₚ items
    /\ (forall k, dict_get k loaded = dict_get k items)
    /\ forall prefix s2,
         files s2 !! path = files s1 !! path ->
         exists s3,
           initialize_cache cache_dir false prefix s2 = (inr tt, s3)
           /\ cache (manager s3) = PyDict loaded.
Proof.
  intros path Hcache Hnodup Hentries Hdisable Hupdated Hpath.
  destruct (literal_eval_display (pformat (PyDict items)) items)
    as (loaded & Heval & Hperm & Hget);
    [done|by apply cache_entry_hashable|by apply pformat_displays|].
  exists loaded,
    (set_files (<[path := pformat (PyDict items)]> (files s)) s).
  split; [|split; [|split; [done|split; [done|split; [done|]]]]].
  - rewrite save_to_file_eq, Hdisable, Hupdated, Hpath, Hcache. done.
  - cbn [files set_files]. apply lookup_insert_eq.
  - intros prefix s2 Hfile. cbn [files set_files] in Hfile.
    rewrite lookup_insert_eq in Hfile.
    pose proof (initialize_cache_eq cache_dir false prefix s2) as Hinit.
    cbv zeta in Hinit. fold path in Hinit. rewrite Hfile, Heval in Hinit.
    eexists. split; [exact Hinit|done].
Qed.

End CacheFile.

(** ** What compiling leaves alone *)

(** [stable s s']: the environment, the files, the backend object and the
    set-up of the manager and of the configuration are the same in [s']
    as in [s].  The clock, the counters, the events, the cache with its
    dirty flag and [compilation_time] may differ. *)
Record stable (s s' : State) : Prop := mkStable {
  stable_envs : envs s' = envs s;
  stable_rank : rank s' = rank s;
  stable_dp_rank : data_parallel_rank s' = data_parallel_rank s;
  stable_files : files s' = files s;
  stable_time_source : time_source s' = time_source s;
  stable_torch_start : torch_compile_start_time s' = torch_compile_start_time s;
  stable_backend : backend s' = backend s;
  stable_compiler : compiler (manager s') = compiler (manager s);
  stable_disable_cache : disable_cache (manager s') = disable_cache (manager s);
  stable_cache_file_path :
    cache_file_path (manager s') = cache_file_path (manager s);
  stable_cache_dir : cache_dir (config s') = cache_dir (config s);
  stable_local_cache_dir : local_cache_dir (config s') = local_cache_dir (config s);
  stable_splitting_ops : splitting_ops (config s') = splitting_ops (config s);
  stable_use_cudagraph : use_cudagraph (config s') = use_cudagraph (config s);
  stable_copy_inputs :
    cudagraph_copy_inputs (config s') = cudagraph_copy_inputs (config s);
  stable_inductor_config :
    inductor_compile_config (config s') = inductor_compile_config (config s);
}.

Lemma stable_refl s : stable s s.
Proof. by constructor. Qed.

Lemma stable_trans s1 s2 s3 : stable s1 s2 -> stable s2 s3 -> stable s1 s3.
Proof. intros [] []. constructor; congruence. Qed.

Lemma load_stable graph example_inputs graph_index runtime_shape s :
  stable s (snd (load graph example_inputs graph_index runtime_shape s)).
Proof.
  destruct (load_state graph example_inputs graph_index runtime_shape s)
    as [->|[h ->]]; by constructor.
Qed.

Lemma store_handle_stable runtime_shape graph_index handle s :
  stable s (snd (store_handle runtime_shape graph_index handle s)).
Proof.
  unfold store_handle.
  destruct (negb _ && negb _); [|by constructor].
  destruct (py_setitem _ _ _); by constructor.
Qed.

Lemma compile_stable graph example_inputs additional_inductor_config
    graph_index num_graphs runtime_shape s :
  stable s
    (snd (compile graph example_inputs additional_inductor_config graph_index
            num_graphs runtime_shape s)).
Proof.
  rewrite compile_eq. cbv zeta.
  set (s1 := if bool_decide (graph_index = 0%Z) then _ else s).
  set (s2 := set_counter _ s1).
  assert (stable s s2) as H2.
  { subst s2 s1. by destruct (bool_decide (graph_index = 0%Z)). }
  pose proof (load_stable graph example_inputs graph_index runtime_shape s2)
    as H3.
  destruct (load _ _ _ _ s2) as [[e|[cg|]] s3]; cbn [snd] in *.
  - by eapply stable_trans.
  - eapply stable_trans; [exact H2|]. eapply stable_trans; [exact H3|].
    by destruct (bool_decide (graph_index = (num_graphs - 1)%Z)).
  - set (s4 := set_events _ s3).
    assert (stable s s4) as H4.
    { eapply stable_trans; [exact H2|]. eapply stable_trans; [exact H3|].
      by constructor. }
    destruct (compiler_compile _ _ _ _ _ _) as [[cg|] handle]; [|done].
    pose proof (store_handle_stable runtime_shape graph_index handle s4) as H5.
    destruct (store_handle _ _ _ _) as [[e|[]] s5]; cbn [snd] in *.
    + by eapply stable_trans.
    + eapply stable_trans; [exact H4|]. eapply stable_trans; [exact H5|].
      by destruct (bool_decide (graph_index = (num_graphs - 1)%Z)).
Qed.

(** With the cache disabled in the environment and an empty cache, every
    call of [compile] calls the adaptor's [compile] once, whether it then
    succeeds or not, and stores nothing. *)
Lemma compile_disabled graph example_inputs additional_inductor_config
    graph_index num_graphs runtime_shape s :
  VLLM_DISABLE_COMPILE_CACHE (envs s) = true ->
  cache (manager s) = PyDict [] ->
  let r := compile graph example_inputs additional_inductor_config
             graph_index num_graphs runtime_shape s in
  manager (snd r) = manager s
  /\ adaptor_compiles (events (snd r))
     = adaptor_compiles (events s)
       ++ [(graph, runtime_shape,
            artifact_key (compiler (manager s)) runtime_shape graph_index)].
Proof.
  intros Hdis Hempty r. subst r.
  rewrite compile_eq. cbv zeta.
  set (s1 := if bool_decide (graph_index = 0%Z) then _ else s).
  set (s2 := set_counter _ s1).
  assert (manager s2 = manager s /\ envs s2 = envs s /\ events s2 = events s)
    as (Hm & He & Hev).
  { subst s2 s1. by destruct (bool_decide (graph_index = 0%Z)). }
  clearbody s2. clear s1.
  rewrite load_eq. cbv zeta. rewrite Hm, Hempty.
  unfold py_contains. rewrite cache_key_hashable. simpl.
  rewrite Hm.
  destruct (compiler_compile _ _ _ _ _ _) as [[cg|] handle]; simpl.
  - unfold store_handle. simpl. rewrite He, Hdis. simpl.
    destruct (bool_decide (graph_index = (num_graphs - 1)%Z)); simpl;
      rewrite Hm, Hev, adaptor_compiles_app; done.
  - rewrite Hm, Hev, adaptor_compiles_app. done.
Qed.

(** ** VllmBackend.__call__ *)

(** The phases of [__call__]. *)

Definition with_config (f : CompilationConfig -> CompilationConfig) (s : State)
  : State :=
  set_config (f (config s)) s.

(** The cache directory is derived from the hash factors when none is
    configured. *)
Definition derive_cache_dir (s : State) : State :=
  if bool_decide (cache_dir (config s) = "") then
    with_config (fun c =>
      mkConfig (use_inductor c)
        (path_join (path_join (VLLM_CACHE_ROOT (envs s)) "torch_compile_cache")
           (hash_key (envs s)))
        (local_cache_dir c) (compilation_time c) (splitting_ops c)
        (use_cudagraph c) (cudagraph_copy_inputs c)
        (inductor_compile_config c) (post_grad_custom_post_pass c) []) s
  else s.

Definition local_dir (s : State) : string :=
  path_join
    (path_join (cache_dir (config s))
       ("rank_" +:+ str_of_Z (rank s) +:+ "_"
        +:+ str_of_Z (data_parallel_rank s)))
    (prefix (backend s)).

Definition set_local_cache_dir (s : State) : State :=
  with_config (fun c =>
    mkConfig (use_inductor c) (cache_dir c) (local_dir s) (compilation_time c)
      (splitting_ops c) (use_cudagraph c) (cudagraph_copy_inputs c)
      (inductor_compile_config c) (post_grad_custom_post_pass c)
      (traced_files c)) s.

(** Dynamo's time is added to [compilation_time]. *)
Definition record_dynamo_time (s : State) : State :=
  let now := time_source s (clock s) in
  with_config
    (set_compilation_time
       (compilation_time (config s) + (now - torch_compile_start_time s))%float)
    (set_clock (S (clock s))
       (set_counter (bump_graphs_seen (compilation_counter s)) s)).

(** What [__call__] does after the interpreter has run. *)
Definition finish (gm : Fx.GraphModule) (cfg : CompilationConfig)
    (local_cache_dir : string) (example_inputs : list Arg) (s : State)
  : (exn + Returned) * State :=
  let graph_path := path_join local_cache_dir "computation_graph.py" in
  let src :=
    replace "<lambda>" "GraphModule"
      ("from __future__ import annotations" +:+ String newline ""
       +:+ "import torch" +:+ String newline ""
       +:+ print_readable (envs s) gm) in
  let s1 :=
    if bool_decide (files s !! graph_path = None)
    then set_files (<[graph_path := src]> (files s)) s else s in
  let s2 := set_backend (set_called true (backend s1)) s1 in
  if negb (use_cudagraph cfg) || negb (cudagraph_copy_inputs cfg)
  then (inr (ReturnSplitGm gm), s2)
  else
    let indices := symbolic_indices 0 example_inputs in
    match clone_inputs (input_buffers (backend s2)) example_inputs indices with
    | inl e => (inl e, s2)
    | inr buffers =>
        (inr ReturnCopyAndCall,
         set_backend
           (mkBackend (prefix (backend s2)) (_called (backend s2))
              (traced_graph (backend s2)) (split_gm (backend s2))
              (piecewise_graphs (backend s2)) indices buffers) s2)
    end.

(** What [__call__] does once the assertion on [_called] has passed. *)
Definition split_and_compile (graph : list Fx.Node) (example_inputs : list Arg)
    (local_cache_dir : string) (s : State) : (exn + Returned) * State :=
  match configure_post_pass s with
  | (inl e, s1) => (inl e, s1)
  | (inr _, s1) =>
      let cfg := config s1 in
      let s2 := set_events (events s1 ++ [SplitModule graph]) s1 in
      match split_graph graph (splitting_ops cfg) with
      | inl e => (inl e, s2)
      | inr (gm, items) =>
          let s3 :=
            set_counter
              (add_piecewise_graphs_seen (length items) (compilation_counter s2))
              (set_backend
                 (mkBackend (prefix (backend s2)) (_called (backend s2))
                    (Some graph) (Some gm) items
                    (sym_tensor_indices (backend s2))
                    (input_buffers (backend s2))) s2) in
          let names :=
            map submod_name
              (filter (fun item => is_splitting_graph item = false) items) in
          match run gm names example_inputs s3 with
          | (inl e, s4) => (inl e, s4)
          | (inr _, s4) => finish gm cfg local_cache_dir example_inputs s4
          end
      end
  end.

(** [__call__] step by step. *)
Lemma call_eq graph example_inputs s :
  let s1 := derive_cache_dir s in
  let s2 := set_local_cache_dir s1 in
  __call__ graph example_inputs s
  = match initialize_cache (local_dir s1)
            (VLLM_DISABLE_COMPILE_CACHE (envs s2)) (prefix (backend s1)) s2 with
    | (inl e, s3) => (inl e, s3)
    | (inr _, s3) =>
        let s4 := record_dynamo_time s3 in
        if _called (backend s4)
        then (inl (AssertionError "VllmBackend can only be called once"), s4)
        else split_and_compile graph example_inputs (local_dir s1) s4
    end.
Proof.
  unfold __call__, derive_cache_dir, set_local_cache_dir, local_dir,
    record_dynamo_time, split_and_compile, finish, with_config.
  unfold bind at 1. unfold gets at 1. unfold bind at 1.
  unfold when, bind at 1. unfold gets at 1. unfold modify at 1.
  destruct (bool_decide (cache_dir (config s) = "")).
  - run_monad.
    destruct (initialize_cache _ _ _ _) as [[e|[]] s3]; [done|].
    destruct (_called (backend s3)); [done|].
    destruct (configure_post_pass _) as [[e|[]] s5]; [done|].
    destruct (split_graph _ _) as [e|[gm items]]; simpl; [done|].
    destruct (run _ _ _ _) as [[e|[]] s8]; [done|].
    destruct (bool_decide (files s8 !! _ = None)); simpl;
      destruct (negb _ || negb _); try done;
      destruct (clone_inputs _ _ _); done.
  - run_monad.
    destruct (initialize_cache _ _ _ _) as [[e|[]] s3]; [done|].
    destruct (_called (backend s3)); [done|].
    destruct (configure_post_pass _) as [[e|[]] s5]; [done|].
    destruct (split_graph _ _) as [e|[gm items]]; simpl; [done|].
    destruct (run _ _ _ _) as [[e|[]] s8]; [done|].
    destruct (bool_decide (files s8 !! _ = None)); simpl;
      destruct (negb _ || negb _); try done;
      destruct (clone_inputs _ _ _); done.
Qed.

(** ** The interpreter *)

(** [call_module] step by step. *)
Lemma call_module_eq module names target args s :
  call_module module names target args s
  = if bool_decide (target ∈ names) then
      match index_of target names with
      | None => (inl ValueError, s)
      | Some index =>
          match Fx.getattr (Fx.children module) target with
          | None => (inl (AttributeError target), s)
          | Some submod =>
              match compile submod args (inductor_compile_config (config s))
                      (Z.of_nat index) (Z.of_nat (length names)) None s with
              | (inl e, s1) => (inl e, s1)
              | (inr _, s1) =>
                  (inr tt,
                   set_counter
                     (bump_capturable_graphs_seen (compilation_counter s1))
                     (set_events
                        (events s1
                         ++ [InstallPiecewiseBackend target index (length names)])
                        s1))
              end
          end
      end
    else (inr tt, s).
Proof.
  unfold call_module. destruct (bool_decide (target ∈ names)); [|done].
  run_monad.
  destruct (index_of target names); [|done].
  destruct (Fx.getattr _ _); [|done]. simpl.
  destruct (compile _ _ _ _ _ _ _) as [[e|cg] s1]; done.
Qed.

Lemma call_module_stable module names target args s :
  stable s (snd (call_module module names target args s)).
Proof.
  rewrite call_module_eq.
  destruct (bool_decide _); [|apply stable_refl].
  destruct (index_of _ _) as [index|]; [|apply stable_refl].
  destruct (Fx.getattr _ _) as [submod|]; [|apply stable_refl].
  pose proof (compile_stable submod args (inductor_compile_config (config s))
                (Z.of_nat index) (Z.of_nat (length names)) None s) as H.
  destruct (compile _ _ _ _ _ _ _) as [[e|cg] s1]; cbn [snd] in *; [done|].
  eapply stable_trans; [exact H|]. by constructor.
Qed.

Lemma run_targets_stable module names targets args : forall s,
  stable s (snd (run_targets module names targets args s)).
Proof.
  induction targets as [|target rest IH]; intros s; [apply stable_refl|].
  cbn [run_targets]. unfold bind.
  pose proof (call_module_stable module names target args s) as H.
  destruct (call_module _ _ _ _ _) as [[e|[]] s1]; cbn [snd] in *; [done|].
  eapply stable_trans; [exact H|apply IH].
Qed.

(** The compilation the interpreter asks for when it meets [target]. *)
Definition compile_of_target (module : Fx.GraphModule) (names : list string)
    (c : CompilerInterface) (target : string)
  : option (list Fx.Node * option Z * option string) :=
  if bool_decide (target ∈ names) then
    match index_of target names, Fx.getattr (Fx.children module) target with
    | Some index, Some submod =>
        Some (submod, None, artifact_key c None (Z.of_nat index))
    | _, _ => None
    end
  else None.

(** With the cache disabled and empty, a run that succeeds has called the
    adaptor's [compile] once for every target to compile, in order, and
    has stored nothing. *)
Lemma run_targets_disabled module names targets args : forall s s',
  VLLM_DISABLE_COMPILE_CACHE (envs s) = true ->
  cache (manager s) = PyDict [] ->
  run_targets module names targets args s = (inr tt, s') ->
  manager s' = manager s
  /\ adaptor_compiles (events s')
     = adaptor_compiles (events s)
       ++ omap (compile_of_target module names (compiler (manager s))) targets.
Proof.
  induction targets as [|target rest IH]; intros s s' Hdis Hempty Hrun.
  - injection Hrun as <-. simpl. by rewrite app_nil_r.
  - cbn [run_targets] in Hrun. unfold bind in Hrun.
    pose proof (call_module_stable module names target args s) as Hst.
    rewrite call_module_eq in Hrun, Hst.
    cbn [omap list_omap]. unfold compile_of_target at 1.
    destruct (bool_decide (target ∈ names)).
    + destruct (index_of target names) as [index|]; [|done].
      destruct (Fx.getattr _ _) as [submod|]; [|done].
      pose proof (compile_disabled submod args
                    (inductor_compile_config (config s)) (Z.of_nat index)
                    (Z.of_nat (length names)) None s Hdis Hempty) as [Hm Hev].
      destruct (compile _ _ _ _ _ _ _) as [[e|cg] s1]; cbn [snd] in *; [done|].
      apply IH in Hrun as [Hm' Hev'].
      * simpl in Hm', Hev'. rewrite Hm', Hev', Hm.
        rewrite adaptor_compiles_app, Hev. simpl.
        rewrite app_nil_r, <- app_assoc. done.
      * by rewrite (stable_envs _ _ Hst).
      * simpl. by rewrite Hm.
    + by apply IH in Hrun.
Qed.

(** ** Single use *)

Definition is_split_or_compile (e : Event) : bool :=
  match e with
  | SplitModule _ | AdaptorCompile _ _ _ => true
  | _ => false
  end.

(** The graph splittings and adaptor compilations among the events. *)
Definition splits_and_compiles (evs : list Event) : list Event :=
  List.filter is_split_or_compile evs.

(** [located s s']: [s'] derives the same local cache directory as [s],
    in the same environment. *)
Record located (s s' : State) : Prop := mkLocated {
  located_envs : envs s' = envs s;
  located_rank : rank s' = rank s;
  located_dp_rank : data_parallel_rank s' = data_parallel_rank s;
  located_cache_dir : cache_dir (config s') = cache_dir (config s);
  located_prefix : prefix (backend s') = prefix (backend s);
}.

Lemma located_refl s : located s s.
Proof. by constructor. Qed.

Lemma located_trans s1 s2 s3 : located s1 s2 -> located s2 s3 -> located s1 s3.
Proof. intros [] []. constructor; congruence. Qed.

Lemma stable_located s s' : stable s s' -> located s s'.
Proof. intros []. constructor; congruence. Qed.

Lemma located_local_dir s s' : located s s' -> local_dir s' = local_dir s.
Proof. intros []. unfold local_dir. congruence. Qed.

Lemma initialize_cache_frame cache_dir disable_cache prefix s :
  let r := initialize_cache cache_dir disable_cache prefix s in
  located s (snd r)
  /\ files (snd r) = files s
  /\ backend (snd r) = backend s
  /\ splits_and_compiles (events (snd r)) = splits_and_compiles (events s)
  /\ adaptor_compiles (events (snd r)) = adaptor_compiles (events s).
Proof.
  simpl. rewrite initialize_cache_eq. cbv zeta.
  assert (forall l e,
            is_split_or_compile e = false ->
            splits_and_compiles (l ++ [e]) = splits_and_compiles l) as Hf.
  { intros l e He. unfold splits_and_compiles.
    rewrite List.filter_app. simpl. rewrite He. apply app_nil_r. }
  assert (forall l c d p,
            adaptor_compiles (l ++ [AdaptorInitializeCache c d p])
            = adaptor_compiles l) as Hg.
  { intros. rewrite adaptor_compiles_app. apply app_nil_r. }
  destruct (files s !! _).
  - destruct disable_cache; simpl; [by rewrite Hf, Hg|].
    destruct (literal_eval _); simpl; by rewrite ?Hf, ?Hg.
  - simpl. by rewrite Hf, Hg.
Qed.

Lemma configure_post_pass_frame s :
  let r := configure_post_pass s in
  located s (snd r) /\ files (snd r) = files s /\ backend (snd r) = backend s
  /\ events (snd r) = events s /\ manager (snd r) = manager s
  /\ splitting_ops (config (snd r)) = splitting_ops (config s).
Proof.
  unfold configure_post_pass. run_monad.
  destruct (post_grad_custom_post_pass (config s)) as [[[]| |]|]; done.
Qed.

Lemma path_join_inj_r a b1 b2 :
  String.prefix "/" b1 = false -> String.prefix "/" b2 = false ->
  path_join a b1 = path_join a b2 -> b1 = b2.
Proof.
  unfold path_join. intros -> ->.
  destruct (bool_decide (a = "") || ends_with_slash a).
  - apply String.app_inj.
  - intros H%String.app_inj. by apply (String.app_inj "/") in H.
Qed.

Lemma path_join_nonempty a b : a <> "" -> path_join a b <> "".
Proof.
  unfold path_join. intros Ha.
  destruct (String.prefix "/" b) eqn:E.
  - intros ->. done.
  - destruct (bool_decide _ || _); destruct a; done.
Qed.

(** After the first phase the configuration has a cache directory. *)
Lemma derive_cache_dir_nonempty s : cache_dir (config (derive_cache_dir s)) <> "".
Proof.
  unfold derive_cache_dir. case_bool_decide as H; [|done].
  simpl. 
  destruct (String.prefix "/" (hash_key (envs s))) eqn:E.
  - unfold path_join at 1. rewrite E. intros H'. by rewrite H' in E.
  - apply path_join_nonempty.
    unfold path_join. simpl.
    destruct (bool_decide _ || _); [|by destruct (VLLM_CACHE_ROOT (envs s))].
    by destruct (VLLM_CACHE_ROOT (envs s)).
Qed.

Lemma derive_cache_dir_idem s :
  cache_dir (config s) <> "" -> derive_cache_dir s = s.
Proof.
  intros H. unfold derive_cache_dir. by rewrite bool_decide_eq_false_2.
Qed.

Lemma derive_cache_dir_frame s :
  let s' := derive_cache_dir s in
  envs s' = envs s /\ rank s' = rank s
  /\ data_parallel_rank s' = data_parallel_rank s
  /\ backend s' = backend s /\ files s' = files s /\ manager s' = manager s
  /\ events s' = events s.
Proof. unfold derive_cache_dir. by case_bool_decide. Qed.

Lemma finish_frame gm cfg local_cache_dir example_inputs s :
  let r := finish gm cfg local_cache_dir example_inputs s in
  located s (snd r)
  /\ (forall returned, fst r = inr returned -> _called (backend (snd r)) = true)
  /\ (forall name,
        String.prefix "/" name = false -> name <> "computation_graph.py" ->
        files (snd r) !! path_join local_cache_dir name
        = files s !! path_join local_cache_dir name)
  /\ events (snd r) = events s /\ manager (snd r) = manager s.
Proof.
  unfold finish. cbv zeta.
  set (graph_path := path_join local_cache_dir "computation_graph.py").
  set (s1 := if bool_decide (files s !! graph_path = None) then _ else s).
  assert (located s s1 /\ events s1 = events s /\ manager s1 = manager s
          /\ forall name,
               String.prefix "/" name = false -> name <> "computation_graph.py" ->
               files s1 !! path_join local_cache_dir name
               = files s !! path_join local_cache_dir name)
    as (Hloc & Hev & Hm & Hfiles).
  { subst s1. case_bool_decide; [|done].
    repeat split; try done. intros name Hname Hne. simpl.
    apply lookup_insert_ne. subst graph_path.
    intros Heq%path_join_inj_r; done. }
  clearbody s1.
  destruct (negb _ || negb _); simpl.
  - repeat split; try done; by destruct Hloc.
  - destruct (clone_inputs _ _ _); simpl; (repeat split; try done; by destruct Hloc).
Qed.

Lemma run_stable module names args s :
  stable s (snd (run module names args s)).
Proof. apply run_targets_stable. Qed.

(** What a call that returns has done. *)
Lemma call_returns graph example_inputs s returned s' :
  __call__ graph example_inputs s = (inr returned, s') ->
  let path :=
    path_join (local_dir (derive_cache_dir s)) "vllm_compile_cache.py" in
  _called (backend s') = true
  /\ located (derive_cache_dir s) s'
  /\ files s' !! path = files s !! path
  /\ (VLLM_DISABLE_COMPILE_CACHE (envs s) = false ->
      forall text,
        files s !! path = Some text -> exists v, literal_eval text = inr v).
Proof.
  rewrite call_eq. cbv zeta.
  pose proof (derive_cache_dir_frame s) as (He1 & Hr1 & Hd1 & Hb1 & Hf1 & _).
  set (s1 := derive_cache_dir s) in *. clearbody s1.
  set (s2 := set_local_cache_dir s1).
  assert (located s1 s2 /\ files s2 = files s1 /\ backend s2 = backend s1)
    as (Hl2 & Hf2 & Hb2) by done.
  pose proof (initialize_cache_frame (local_dir s1)
                (VLLM_DISABLE_COMPILE_CACHE (envs s2)) (prefix (backend s1)) s2)
    as (Hl3 & Hf3 & Hb3 & _).
  pose proof (initialize_cache_eq (local_dir s1)
                (VLLM_DISABLE_COMPILE_CACHE (envs s2)) (prefix (backend s1)) s2)
    as Hinit.
  cbv zeta in Hinit.
  replace (VLLM_DISABLE_COMPILE_CACHE (envs s2))
    with (VLLM_DISABLE_COMPILE_CACHE (envs s)) in * by by rewrite <- He1.
  clearbody s2.
  destruct (initialize_cache _ _ _ _) as [[e|[]] s3]; cbn [fst snd] in *;
    [done|].
  set (s4 := record_dynamo_time s3).
  assert (located s3 s4 /\ files s4 = files s3 /\ backend s4 = backend s3)
    as (Hl4 & Hf4 & Hb4) by done.
  clearbody s4.
  destruct (_called (backend s4)); [done|].
  unfold split_and_compile.
  pose proof (configure_post_pass_frame s4) as (Hl5 & Hf5 & Hb5 & _).
  destruct (configure_post_pass s4) as [[e|[]] s5]; cbn [fst snd] in *;
    [done|].
  destruct (split_graph _ _) as [e|[gm items]]; [done|]. cbv zeta.
  set (s7 := set_counter _ _).
  assert (located s5 s7 /\ files s7 = files s5) as (Hl7 & Hf7) by done.
  clearbody s7.
  pose proof (run_stable gm
    (map submod_name (filter (fun item => is_splitting_graph item = false) items))
    example_inputs s7) as Hst.
  destruct (run _ _ _ _) as [[e|[]] s8]; cbn [fst snd] in *; [done|].
  pose proof (finish_frame gm (config s5) (local_dir s1) example_inputs s8)
    as (Hl9 & Hc9 & Hf9 & _).
  intros Hfin. rewrite Hfin in *. cbn [fst snd] in *.
  split; [by eapply Hc9|]. split.
  - repeat (eapply located_trans; [eassumption|]).
    eapply located_trans; [by apply stable_located|]. done.
  - split.
    + rewrite Hf9 by done.
      rewrite (stable_files _ _ Hst), Hf7, Hf5, Hf4, Hf3, Hf2, Hf1. done.
    + intros Hdis text Htext. rewrite Hdis, Hf2, Hf1, Htext in Hinit.
      destruct (literal_eval text); [done|by eexists].
Qed.

(** C5. Once a call of [__call__] has returned, any further call on the
    same instance raises the assertion on [_called]; it splits no graph
    and compiles nothing, and it leaves the backend object as the first
    call left it. *)
Theorem single_use_guarantee
    (graph1 graph2 : list Fx.Node) (inputs1 inputs2 : list Arg)
    (s s1 : State) (returned : Returned) :
  __call__ graph1 inputs1 s = (inr returned, s1) ->
  exists s2,
    __call__ graph2 inputs2 s1
    = (inl (AssertionError "VllmBackend can only be called once"), s2)
    /\ splits_and_compiles (events s2) = splits_and_compiles (events s1)
    /\ backend s2 = backend s1.
Proof.
  intros (Hcalled & Hloc & Hfile & Hparse)%call_returns.
  rewrite call_eq. cbv zeta.
  assert (derive_cache_dir s1 = s1) as ->.
  { apply derive_cache_dir_idem. rewrite (located_cache_dir _ _ Hloc).
    apply derive_cache_dir_nonempty. }
  rewrite (located_local_dir _ _ Hloc) in *.
  set (s2 := set_local_cache_dir s1).
  assert (files s2 = files s1 /\ backend s2 = backend s1
          /\ events s2 = events s1 /\ envs s2 = envs s1)
    as (Hf2 & Hb2 & Hev2 & He2) by done.
  pose proof (initialize_cache_frame (local_dir (derive_cache_dir s))
                (VLLM_DISABLE_COMPILE_CACHE (envs s2)) (prefix (backend s1)) s2)
    as (_ & _ & Hb3 & Hev3 & _).
  rewrite initialize_cache_eq in *. cbv zeta in *.
  clearbody s2. rewrite Hf2, Hfile, He2, (located_envs _ _ Hloc) in *.
  pose proof (derive_cache_dir_frame s) as (He & _).
  rewrite He in *.
  set (path := path_join (local_dir (derive_cache_dir s)) "vllm_compile_cache.py")
    in *.
  assert (forall s3,
            backend s3 = backend s2 ->
            splits_and_compiles (events s3) = splits_and_compiles (events s2) ->
            exists s4,
              (if _called (backend (record_dynamo_time s3))
               then (inl (AssertionError "VllmBackend can only be called once"),
                     record_dynamo_time s3)
               else split_and_compile graph2 inputs2
                      (local_dir (derive_cache_dir s)) (record_dynamo_time s3))
              = (inl (AssertionError "VllmBackend can only be called once"), s4)
              /\ splits_and_compiles (events s4) = splits_and_compiles (events s1)
              /\ backend s4 = backend s1) as Hassert.
  { intros s3 Hb Hev. exists (record_dynamo_time s3).
    replace (_called (backend (record_dynamo_time s3))) with true
      by (simpl; by rewrite Hb, Hb2, Hcalled).
    simpl. by rewrite Hev, Hev2, Hb, Hb2. }
  destruct (files s !! path) as [text|] eqn:Htext; [|by apply Hassert].
  destruct (VLLM_DISABLE_COMPILE_CACHE (envs s)) eqn:Hdis; [by apply Hassert|].
  destruct (Hparse eq_refl text eq_refl) as [v Hv]. rewrite Hv in *.
  by apply Hassert.
Qed.

(** ** Compiling with the cache disabled *)

Definition compilable (item : SplitItem) : Prop :=
  is_splitting_graph item = false.

#[global] Instance compilable_dec item : Decision (compilable item).
Proof. unfold compilable. apply _. Defined.

Lemma index_of_elem target names :
  target ∈ names -> is_Some (index_of target names).
Proof.
  induction names as [|n rest IH]; simpl.
  - by intros ?%elem_of_nil.
  - destruct (decide (n = target)); [by eexists|].
    intros [?|Hin]%elem_of_cons; [congruence|].
    destruct (IH Hin) as [i ->]. by eexists.
Qed.

(** The stitched module, the items and the names to compile that
    [split_graph] and [__call__] make of the partitions. *)
Definition stitched (parts : list (nat * list Fx.Node)) : Fx.GraphModule :=
  Fx.mkGraphModule (map (fun p => (submod (fst p), snd p)) parts).

Definition items_of (split_ops : list nat) (parts : list (nat * list Fx.Node))
  : list SplitItem :=
  sort_by_graph_id (map (item_of split_ops) parts).

Definition names_to_compile (items : list SplitItem) : list string :=
  map submod_name (filter compilable items).

Section CompiledGraphs.

Variables (split_ops : list nat) (parts : list (nat * list Fx.Node)).
Hypothesis parts_keys : NoDup (map fst parts).

Lemma submod_in_names pid ns :
  (pid, ns) ∈ parts ->
  submod pid ∈ names_to_compile (items_of split_ops parts) <-> pid ∉ split_ops.
Proof.
  intros Hin. unfold names_to_compile, items_of.
  rewrite list_elem_of_fmap. split.
  - intros [item [Hname [Hc Hitem]%list_elem_of_filter]].
    rewrite sort_by_graph_id_perm in Hitem.
    apply list_elem_of_fmap in Hitem as [[p ns'] [-> Hp]].
    simpl in *. apply submod_inj in Hname as ->.
    unfold compilable in Hc. simpl in Hc.
    by apply bool_decide_eq_false in Hc.
  - intros Hnot. exists (item_of split_ops (pid, ns)). split; [done|].
    apply list_elem_of_filter. split.
    + unfold compilable. simpl. by apply bool_decide_eq_false.
    + rewrite sort_by_graph_id_perm. apply list_elem_of_fmap. by eexists.
Qed.

Lemma compiled_of_parts c sub :
  sub ⊆ parts ->
  map (fun x => fst (fst x))
    (omap (compile_of_target (stitched parts)
             (names_to_compile (items_of split_ops parts)) c)
       (map (fun p => submod (fst p)) sub))
  = map snd (filter (fun p => fst p ∉ split_ops) sub).
Proof using parts_keys.
  induction sub as [|[pid ns] sub IH]; intros Hsub; [done|].
  assert ((pid, ns) ∈ parts) as Hin by (apply Hsub, elem_of_cons; auto).
  assert (sub ⊆ parts) as Hsub' by (intros x Hx; apply Hsub, elem_of_cons; auto).
  cbn [map omap list_omap fst snd]. rewrite filter_cons. cbn [fst].
  unfold compile_of_target at 1.
  destruct (decide (pid ∉ split_ops)) as [Hnot|Hyes].
  - rewrite bool_decide_eq_true_2 by by eapply submod_in_names.
    destruct (index_of_elem (submod pid)
                (names_to_compile (items_of split_ops parts))) as [i ->];
      [by eapply submod_in_names|].
    unfold stitched. cbn [Fx.children].
    rewrite getattr_children, (elem_part_lookup pid ns) by done.
    cbn [map fst snd]. f_equal. by apply IH.
  - rewrite bool_decide_eq_false_2; [by apply IH|].
    intros H. by eapply submod_in_names in H.
Qed.

Lemma compilable_of_parts sub :
  map graph (filter compilable (map (item_of split_ops) sub))
  = map snd (filter (fun p => fst p ∉ split_ops) sub).
Proof.
  induction sub as [|[pid ns] sub IH]; [done|].
  cbn [map]. rewrite !filter_cons. cbn [fst].
  unfold compilable at 1. cbn [item_of is_splitting_graph fst].
  destruct (decide (pid ∉ split_ops)) as [Hnot|Hyes].
  - rewrite decide_True by by apply bool_decide_eq_false.
    cbn [map]. by rewrite IH.
  - rewrite decide_False; [done|].
    intros H%bool_decide_eq_false. done.
Qed.

(** The graphs the interpreter compiles are those of the compilable
    items, each once. *)
Lemma compiled_graphs_perm c :
  map (fun x => fst (fst x))
    (omap (compile_of_target (stitched parts)
             (names_to_compile (items_of split_ops parts)) c)
       (map fst (Fx.children (stitched parts))))
  ≡ₚ map graph (filter compilable (items_of split_ops parts)).
Proof using parts_keys.
  unfold stitched at 2. cbn [Fx.children]. rewrite map_map. cbn [fst].
  rewrite compiled_of_parts by done.
  rewrite <- compilable_of_parts. unfold items_of.
  apply fmap_Permutation, filter_Permutation. symmetry.
  apply sort_by_graph_id_perm.
Qed.

End CompiledGraphs.

Lemma save_to_file_disabled pformat s :
  disable_cache (manager s) = Some true -> save_to_file pformat s = (inr tt, s).
Proof. intros H. rewrite save_to_file_eq, H. done. Qed.

(** A call of [__call__] that returns, with the cache disabled and the
    cache of the manager empty. *)
Lemma call_disabled traced example_inputs s returned s' :
  VLLM_DISABLE_COMPILE_CACHE (envs s) = true ->
  cache (manager s) = PyDict [] ->
  __call__ traced example_inputs s = (inr returned, s') ->
  exists gm items l,
    split_graph traced (splitting_ops (config s)) = inr (gm, items)
    /\ piecewise_graphs (backend s') = items
    /\ adaptor_compiles (events s') = adaptor_compiles (events s) ++ l
    /\ map (fun x => fst (fst x)) l ≡ₚ map graph (filter compilable items)
    /\ cache (manager s') = PyDict []
    /\ disable_cache (manager s') = Some true
    /\ envs s' = envs s
    /\ splitting_ops (config s') = splitting_ops (config s).
Proof.
  intros Hdis Hempty. rewrite call_eq. cbv zeta.
  assert (envs (derive_cache_dir s) = envs s
          /\ manager (derive_cache_dir s) = manager s
          /\ events (derive_cache_dir s) = events s
          /\ splitting_ops (config (derive_cache_dir s)) = splitting_ops (config s))
    as (He1 & Hm1 & Hev1 & Hops1).
  { unfold derive_cache_dir. by case_bool_decide. }
  set (s1 := derive_cache_dir s) in *. clearbody s1.
  set (s2 := set_local_cache_dir s1).
  assert (envs s2 = envs s /\ manager s2 = manager s /\ events s2 = events s
          /\ splitting_ops (config s2) = splitting_ops (config s))
    as (He2 & Hm2 & Hev2 & Hops2) by done.
  rewrite He2, Hdis. clearbody s2.
  pose proof (initialize_cache_frame (local_dir s1) true (prefix (backend s1)) s2)
    as (Hl3 & _ & Hb3 & _ & Hev3).
  rewrite initialize_cache_eq in *. cbv zeta in *.
  set (s3 :=
    set_events (events (set_manager (with_cache_dir (local_dir s1) true (manager s2)) s2)
                ++ [AdaptorInitializeCache (local_dir s1) true (prefix (backend s1))])
      (set_manager (with_cache_dir (local_dir s1) true (manager s2)) s2)) in *.
  assert (match files s2 !! path_join (local_dir s1) "vllm_compile_cache.py" with
          | Some _ | None => (inr tt : exn + unit, s3)
          end = (inr tt, s3)) as Hinit by by destruct (files s2 !! _).
  rewrite Hinit in *. clear Hinit. cbn [snd] in *.
  assert (envs s3 = envs s /\ cache (manager s3) = PyDict []
          /\ disable_cache (manager s3) = Some true
          /\ compiler (manager s3) = compiler (manager s)
          /\ splitting_ops (config s3) = splitting_ops (config s))
    as (He3 & Hc3 & Hd3 & Hcomp3 & Hops3).
  { subst s3. simpl. by rewrite Hm2, Hempty. }
  clearbody s3. clear Hm2 Hm1.
  set (s4 := record_dynamo_time s3).
  assert (envs s4 = envs s /\ manager s4 = manager s3
          /\ events s4 = events s3
          /\ splitting_ops (config s4) = splitting_ops (config s))
    as (He4 & Hm4 & Hev4 & Hops4) by done.
  clearbody s4.
  destruct (_called (backend s4)); [done|].
  unfold split_and_compile.
  pose proof (configure_post_pass_frame s4) as (Hl5 & _ & _ & Hev5 & Hm5 & Hops5).
  destruct (configure_post_pass s4) as [[e|[]] s5]; cbn [fst snd] in *;
    [done|].
  rewrite Hops5, Hops4. rewrite split_graph_items. cbv zeta.
  set (ops := splitting_ops (config s)).
  set (parts := group [] (assigned ops 0 traced)).
  fold (stitched parts). fold (items_of (split_ids ops 0 traced) parts).
  set (items := items_of (split_ids ops 0 traced) parts).
  set (s7 := set_counter _ _).
  assert (envs s7 = envs s /\ manager s7 = manager s3
          /\ adaptor_compiles (events s7) = adaptor_compiles (events s)
          /\ piecewise_graphs (backend s7) = items
          /\ splitting_ops (config s7) = splitting_ops (config s))
    as (He7 & Hm7 & Hev7 & Hp7 & Hops7).
  { subst s7. simpl. rewrite (located_envs _ _ Hl5), He4, Hm5, Hm4.
    rewrite adaptor_compiles_app, Hev5, Hev4, Hev3, Hev2, Hops5, Hops4.
    simpl. by rewrite app_nil_r. }
  clearbody s7.
  pose proof (run_stable (stitched parts)
                (map submod_name
                   (filter (fun item => is_splitting_graph item = false) items))
                example_inputs s7) as Hst.
  destruct (run _ _ _ s7) as [[e|[]] s8] eqn:Hrun; cbn [fst snd] in *; [done|].
  apply run_targets_disabled in Hrun as [Hm8 Hev8];
    [|by rewrite He7|by rewrite Hm7].
  pose proof (finish_frame (stitched parts) (config s5) (local_dir s1)
                example_inputs s8) as (Hl9 & _ & _ & Hev9 & Hm9).
  assert (piecewise_graphs (backend (snd (finish (stitched parts) (config s5)
                                           (local_dir s1) example_inputs s8)))
          = piecewise_graphs (backend s8)
          /\ splitting_ops (config (snd (finish (stitched parts) (config s5)
                                           (local_dir s1) example_inputs s8)))
             = splitting_ops (config s8)) as [Hp9 Hops9].
  { unfold finish. cbv zeta. case_bool_decide; destruct (negb _ || negb _);
      simpl; try done; destruct (clone_inputs _ _ _); done. }
  intros Hfin. rewrite Hfin in *. cbn [fst snd] in *.
  eexists _, _, _. split; [reflexivity|].
  split; [by rewrite Hp9, (stable_backend _ _ Hst)|].
  split; [by rewrite Hev9, Hev8, Hev7|].
  split; [apply compiled_graphs_perm, group_keys|].
  split; [by rewrite Hm9, Hm8, Hm7|].
  split; [by rewrite Hm9, Hm8, Hm7|].
  split; [by rewrite (located_envs _ _ Hl9), (stable_envs _ _ Hst)|].
  by rewrite Hops9, (stable_splitting_ops _ _ Hst).
Qed.

(** C7. With the compile cache disabled in the environment: a call of
    [compile] on a manager whose cache is empty calls the adaptor's
    [compile] exactly once and leaves the manager as it was, so the cache
    stays empty; [initialize_cache] loads no file; [save_to_file] writes
    nothing.  Hence two full compilations of the same graph, each on a new
    backend instance, each call the adaptor's [compile] once for every
    compilable item of the split, and neither leaves an artifact to
    write. *)
Theorem disabled_cache_behavior
    (s s1 s2 : State) (pformat : pyval -> string)
    (traced : list Fx.Node) (example_inputs : list Arg)
    (prefix1 model_tag1 prefix2 model_tag2 : string)
    (returned1 returned2 : Returned) :
  VLLM_DISABLE_COMPILE_CACHE (envs s) = true ->
  __call__ traced example_inputs (new_backend prefix1 model_tag1 s)
  = (inr returned1, s1) ->
  __call__ traced example_inputs (new_backend prefix2 model_tag2 s1)
  = (inr returned2, s2) ->
  (forall st submod args config index total shape,
     VLLM_DISABLE_COMPILE_CACHE (envs st) = true ->
     cache (manager st) = PyDict [] ->
     let r := compile submod args config index total shape st in
     manager (snd r) = manager st
     /\ adaptor_compiles (events (snd r))
        = adaptor_compiles (events st)
          ++ [(submod, shape, artifact_key (compiler (manager st)) shape index)])
  /\ exists split_gm items compiled1 compiled2,
       split_graph traced (splitting_ops (config s)) = inr (split_gm, items)
       /\ adaptor_compiles (events s1) = adaptor_compiles (events s) ++ compiled1
       /\ adaptor_compiles (events s2) = adaptor_compiles (events s1) ++ compiled2
       /\ map (fun x => fst (fst x)) compiled1
          ≡ₚ map graph (filter compilable items)
       /\ map (fun x => fst (fst x)) compiled2
          ≡ₚ map graph (filter compilable items)
       /\ cache (manager s1) = PyDict []
       /\ cache (manager s2) = PyDict []
       /\ save_to_file pformat s1 = (inr tt, s1)
       /\ save_to_file pformat s2 = (inr tt, s2).
Proof.
  intros Hdis Hcall1 Hcall2.
  split; [intros; by apply compile_disabled|].
  apply call_disabled in Hcall1
    as (gm & items & l1 & Hsplit & _ & Hev1 & Hperm1 & Hc1 & Hd1 & He1 & Hops1);
    [|done|done].
  simpl in He1, Hops1, Hsplit, Hev1.
  apply call_disabled in Hcall2
    as (gm' & items' & l2 & Hsplit' & _ & Hev2 & Hperm2 & Hc2 & Hd2 & _);
    [|simpl; by rewrite He1|done].
  simpl in Hsplit', Hev2. rewrite Hops1, Hsplit in Hsplit'.
  injection Hsplit' as <- <-.
  exists gm, items, l1, l2.
  repeat split; try done; by apply save_to_file_disabled.
Qed.

(** ** Static buffer replay *)

(** One iteration of the loop of [copy_and_call] on a tensor that fits its
    buffer. *)
Lemma copy_fits (buffer runtime_tensor : Tensor) :
  length runtime_tensor <= length buffer ->
  copy_ (take (length runtime_tensor) buffer) runtime_tensor = inr runtime_tensor
  /\ length (take (length runtime_tensor) buffer) = length runtime_tensor.
Proof.
  intros Hfit. rewrite length_take, Nat.min_l by done.
  unfold copy_. rewrite length_take, Nat.min_l by done.
  by rewrite decide_True.
Qed.

(** [copy_inputs] step by step. *)
Lemma copy_inputs_cons i index rest list_args s :
  copy_inputs i (index :: rest) list_args s
  = match list_args !! index with
    | None => (inl IndexError, s)
    | Some arg =>
        match tensor_data (input_buffers (backend s)) arg with
        | None => (inl (AttributeError "shape"), s)
        | Some runtime_tensor =>
            match input_buffers (backend s) !! i with
            | None => (inl IndexError, s)
            | Some buffer =>
                let n := length runtime_tensor in
                match copy_ (take n buffer) runtime_tensor with
                | inl e => (inl e, s)
                | inr copied =>
                    copy_inputs (S i) rest
                      (<[index := ArgStaticSlice i (length (take n buffer))]>
                         list_args)
                      (set_backend
                         (set_input_buffers
                            (<[i := copied ++ drop n buffer]>
                               (input_buffers (backend s))) (backend s)) s)
                end
            end
        end
    end.
Proof.
  cbn [copy_inputs]. run_monad.
  destruct (list_args !! index) as [arg|]; [|done].
  destruct (tensor_data _ arg) as [runtime_tensor|]; [|done].
  destruct (input_buffers (backend s) !! i) as [buffer|]; [|done].
  simpl. destruct (copy_ _ _); done.
Qed.

(** The arguments of a call fit the buffers from iteration [i] on: the
    remaining positions are distinct, hold plain tensors, and each tensor
    has no more rows than its buffer. *)
Fixpoint fits (i : nat) (indices : list nat) (buffers : list Tensor)
    (args : list Arg) : Prop :=
  match indices with
  | [] => True
  | index :: rest =>
      (index ∉ rest)
      /\ (exists symbolic data buffer,
            args !! index = Some (ArgTensor symbolic data)
            /\ buffers !! i = Some buffer
            /\ length data <= length buffer)
      /\ fits (S i) rest buffers args
  end.

Lemma fits_insert indices : forall i buffers args j k a b,
  j ∉ indices -> k < i ->
  fits i indices buffers args ->
  fits i indices (<[k := b]> buffers) (<[j := a]> args).
Proof.
  induction indices as [|index rest IH]; intros i buffers args j k a b Hj Hk;
    [done|].
  intros (Hnotin & (symbolic & data & buffer & Harg & Hbuf & Hlen) & Hrest).
  apply not_elem_of_cons in Hj as [Hne Hj].
  split; [done|]. split.
  - exists symbolic, data, buffer. split; [|split; [|done]].
    + by rewrite list_lookup_insert_ne.
    + rewrite list_lookup_insert_ne by lia. done.
  - apply IH; auto.
Qed.

(** What the loop has done when it ends. *)
Lemma copy_inputs_fits indices : forall i list_args s,
  fits i indices (input_buffers (backend s)) list_args ->
  exists list_args' s',
    copy_inputs i indices list_args s = (inr list_args', s')
    /\ length list_args' = length list_args
    /\ length <$> input_buffers (backend s')
       = length <$> input_buffers (backend s)
    /\ (forall k index symbolic data buffer,
          indices !! k = Some index ->
          list_args !! index = Some (ArgTensor symbolic data) ->
          input_buffers (backend s) !! (i + k) = Some buffer ->
          list_args' !! index = Some (ArgStaticSlice (i + k) (length data))
          /\ input_buffers (backend s') !! (i + k)
             = Some (data ++ drop (length data) buffer)
          /\ tensor_data (input_buffers (backend s'))
               (ArgStaticSlice (i + k) (length data)) = Some data)
    /\ (forall j, j ∉ indices -> list_args' !! j = list_args !! j)
    /\ (forall k, k < i ->
          input_buffers (backend s') !! k = input_buffers (backend s) !! k)
    /\ events s' = events s
    /\ sym_tensor_indices (backend s') = sym_tensor_indices (backend s).
Proof.
  induction indices as [|index rest IH]; intros i list_args s Hfits.
  - exists list_args, s. repeat split; try done.
  - destruct Hfits
      as (Hnotin & (symbolic & data & buffer & Harg & Hbuf & Hlen) & Hrest).
    rewrite copy_inputs_cons, Harg. cbn [tensor_data]. rewrite Hbuf. cbv zeta.
    destruct (copy_fits buffer data Hlen) as [-> ->].
    set (s1 := set_backend _ s).
    set (args1 := <[index := ArgStaticSlice i (length data)]> list_args).
    assert (input_buffers (backend s1)
            = <[i := data ++ drop (length data) buffer]>
                (input_buffers (backend s))) as Hbufs1 by done.
    destruct (IH (S i) args1 s1) as (args' & s' & Hrun & Hlen' & Hblen & Hsym
                                     & Hother & Hbefore & Hev & Hidx).
    { rewrite Hbufs1. apply fits_insert; auto. }
    exists args', s'. split; [done|]. split; [|split; [|split; [|split; [|split]]]].
    + rewrite Hlen'. apply length_insert.
    + rewrite Hblen, Hbufs1, list_fmap_insert. apply list_insert_id.
      apply list_lookup_fmap_Some. exists buffer. split; [|done].
      rewrite length_app, length_drop. lia.
    + intros k index' symbolic' data' buffer' Hk Harg' Hbuf'.
      destruct k as [|k].
      * injection Hk as <-. rewrite Harg in Harg'. injection Harg' as <- <-.
        rewrite Nat.add_0_r in *. rewrite Hbuf in Hbuf'. injection Hbuf' as <-.
        assert (input_buffers (backend s') !! i
                = Some (data ++ drop (length data) buffer)) as Hi.
        { rewrite Hbefore by lia. rewrite Hbufs1.
          apply list_lookup_insert_eq. by eapply lookup_lt_Some. }
        split; [|split; [done|]].
        -- rewrite Hother by done. subst args1.
           apply list_lookup_insert_eq. by eapply lookup_lt_Some.
        -- cbn [tensor_data]. rewrite Hi. cbn [fmap option_fmap option_map].
           by rewrite take_app_length.
      * cbn [lookup list_lookup] in Hk.
        assert (index' <> index) as Hne.
        { intros ->. apply Hnotin. by eapply list_elem_of_lookup_2. }
        replace (i + S k) with (S i + k) in * by lia.
        apply (Hsym k index' symbolic' data' buffer'); [done| |].
        -- subst args1. by rewrite list_lookup_insert_ne.
        -- rewrite Hbufs1. rewrite list_lookup_insert_ne by lia. done.
    + intros j Hj. apply not_elem_of_cons in Hj as [Hne Hj].
      rewrite Hother by done. subst args1. by rewrite list_lookup_insert_ne.
    + intros k Hk. rewrite Hbefore by lia. rewrite Hbufs1.
      rewrite list_lookup_insert_ne by lia. done.
    + split; [by rewrite Hev | by rewrite Hidx].
Qed.

(** Static-buffer replay is engaged for the arguments [first_observed] of
    the compilation: the backend has recorded their symbolic positions and
    holds one buffer for each, with as many rows as the tensor first seen
    there. *)
Definition replay_engaged (first_observed : list Arg) (self : VllmBackend)
  : Prop :=
  sym_tensor_indices self = symbolic_indices 0 first_observed
  /\ Forall2
       (fun index rows =>
          exists data,
            first_observed !! index = Some (ArgTensor true data)
            /\ rows = length data)
       (sym_tensor_indices self) (length <$> input_buffers self).

(** The arguments of an invocation are within the first observed shape:
    where the compilation saw a tensor with a symbolic dimension, the
    invocation passes a tensor with no more rows. *)
Definition within_first_observed (first_observed args : list Arg) : Prop :=
  forall index data,
    index ∈ symbolic_indices 0 first_observed ->
    first_observed !! index = Some (ArgTensor true data) ->
    exists symbolic runtime_tensor,
      args !! index = Some (ArgTensor symbolic runtime_tensor)
      /\ length runtime_tensor <= length data.

Lemma symbolic_indices_ge args : forall i index,
  index ∈ symbolic_indices i args -> i <= index.
Proof.
  induction args as [|a args IH]; intros i index Hin; [by inversion Hin|].
  cbn [symbolic_indices] in Hin.
  destruct a as [[]| | |]; try (apply IH in Hin; lia).
  apply elem_of_cons in Hin as [->|Hin]; [lia|]. apply IH in Hin. lia.
Qed.

Lemma symbolic_indices_NoDup args : forall i, NoDup (symbolic_indices i args).
Proof.
  induction args as [|a args IH]; intros i; [constructor|].
  cbn [symbolic_indices]. destruct a as [[]| | |]; try apply IH.
  constructor; [|apply IH]. intros Hin%symbolic_indices_ge. lia.
Qed.

Lemma symbolic_indices_lookup args : forall i index,
  index ∈ symbolic_indices i args ->
  exists data, args !! (index - i) = Some (ArgTensor true data).
Proof.
  induction args as [|a args IH]; intros i index Hin; [by inversion Hin|].
  cbn [symbolic_indices] in Hin.
  assert (index ∈ symbolic_indices (S i) args ->
          exists data, (a :: args) !! (index - i) = Some (ArgTensor true data))
    as Hrest.
  { intros Hin'. pose proof (symbolic_indices_ge _ _ _ Hin').
    destruct (IH _ _ Hin') as [data Hdata]. exists data.
    replace (index - i) with (S (index - S i)) by lia. done. }
  destruct a as [[]| | |]; try by apply Hrest.
  apply elem_of_cons in Hin as [->|Hin]; [|by apply Hrest].
  rewrite Nat.sub_diag. by eexists.
Qed.

Lemma fits_intro (first_observed args : list Arg) (indices : list nat) :
  forall (i : nat) (buffers : list Tensor),
  NoDup indices ->
  Forall2
    (fun index rows =>
       exists data,
         first_observed !! index = Some (ArgTensor true data)
         /\ rows = length data)
    indices (length <$> drop i buffers) ->
  (forall index data,
     index ∈ indices ->
     first_observed !! index = Some (ArgTensor true data) ->
     exists symbolic runtime_tensor,
       args !! index = Some (ArgTensor symbolic runtime_tensor)
       /\ length runtime_tensor <= length data) ->
  fits i indices buffers args.
Proof.
  induction indices as [|index rest IH]; intros i buffers Hnodup Hbufs Hargs;
    [done|].
  apply NoDup_cons in Hnodup as [Hnotin Hnodup].
  destruct (drop i buffers) as [|buffer tail] eqn:Hdrop;
    [by inversion Hbufs|].
  assert (buffers !! i = Some buffer) as Hbuf.
  { pose proof (lookup_drop buffers i 0) as Hl.
    rewrite Hdrop, Nat.add_0_r in Hl. done. }
  rewrite (drop_S _ _ _ Hbuf) in Hdrop. injection Hdrop as <-.
  cbn [fmap list_fmap] in Hbufs.
  apply Forall2_cons in Hbufs as [(data & Hfirst & Hrows) Hbufs].
  destruct (Hargs index data) as (symbolic & runtime_tensor & Harg & Hlen);
    [left|done|].
  split; [done|]. split.
  - exists symbolic, runtime_tensor, buffer. by rewrite Hrows.
  - apply IH; [done|done|]. intros index' data' Hin. apply Hargs. by right.
Qed.

(** A tensor of several rows, more than its buffer has, is not copied: the
    slice is the whole buffer and [copy_] refuses the sizes. *)
Lemma copy_too_long (buffer runtime_tensor : Tensor) :
  length buffer < length runtime_tensor ->
  1 < length runtime_tensor ->
  copy_ (take (length runtime_tensor) buffer) runtime_tensor
  = inl (RuntimeError "size mismatch").
Proof.
  intros Hlong Hrows. rewrite take_ge by lia. unfold copy_.
  rewrite decide_False by lia.
  destruct runtime_tensor as [|row [|]]; simpl in *; try done; lia.
Qed.

(** [__call__] engages the replay when it returns [copy_and_call]. *)
Lemma clone_inputs_symbolic buffers example_inputs indices cloned :
  (forall index, index ∈ indices ->
     exists data, example_inputs !! index = Some (ArgTensor true data)) ->
  clone_inputs buffers example_inputs indices = inr cloned ->
  Forall2
    (fun index rows =>
       exists data,
         example_inputs !! index = Some (ArgTensor true data)
         /\ rows = length data)
    indices (length <$> cloned).
Proof.
  revert cloned. induction indices as [|x rest IH]; intros cloned Hsym.
  - intros [= <-]. constructor.
  - cbn [clone_inputs]. destruct (Hsym x) as [data Hdata]; [left|].
    rewrite Hdata. cbn [tensor_data].
    destruct (clone_inputs buffers example_inputs rest) as [e|l] eqn:Hrest;
      [done|].
    intros [= <-]. cbn [fmap list_fmap]. constructor; [by exists data|].
    apply IH; [|done]. intros index Hin. apply Hsym. by right.
Qed.

Lemma finish_engages gm cfg local_cache_dir example_inputs s s' :
  finish gm cfg local_cache_dir example_inputs s = (inr ReturnCopyAndCall, s') ->
  replay_engaged example_inputs (backend s').
Proof.
  unfold finish. cbv zeta.
  destruct (negb _ || negb _); [done|].
  destruct (clone_inputs _ _ _) as [e|cloned] eqn:Hclone; [done|].
  intros [= <-]. split; [done|]. cbn [backend set_backend sym_tensor_indices
    input_buffers].
  eapply clone_inputs_symbolic; [|done].
  intros index Hin. apply symbolic_indices_lookup in Hin.
  by rewrite Nat.sub_0_r in Hin.
Qed.

Lemma call_engages graph example_inputs s s' :
  __call__ graph example_inputs s = (inr ReturnCopyAndCall, s') ->
  replay_engaged example_inputs (backend s').
Proof.
  rewrite call_eq. cbv zeta.
  destruct (initialize_cache _ _ _ _) as [[e|[]] s3]; [done|].
  destruct (_called _); [done|].
  unfold split_and_compile.
  destruct (configure_post_pass _) as [[e|[]] s5]; [done|]. cbv zeta.
  destruct (split_graph _ _) as [e|[gm items]]; [done|].
  destruct (run _ _ _ _) as [[e|[]] s8]; [done|].
  apply finish_engages.
Qed.

(** C9. Static buffer replay adapter.  While static-buffer replay is
    engaged, an invocation of [copy_and_call] whose tensors are within the
    first observed shape (the code assumes that shape to be the maximum)
    returns, and for the [i]-th recorded symbolic position [index] it has
    copied the rows of the runtime tensor into the first rows of the [i]-th
    static buffer, leaving the rows behind them as they were, and has put
    the view of these first rows at [index] in the argument list: the view
    shows the data of the runtime tensor.  Every other position of the
    argument list is as the caller passed it, the whole list is what the
    stitched graph is called with, and replay is still engaged afterwards,
    so the same holds for every later invocation. *)
Theorem static_buffer_replay (first_observed args : list Arg) (s : State) :
  replay_engaged first_observed (backend s) ->
  within_first_observed first_observed args ->
  exists list_args s',
    copy_and_call args s = (inr list_args, s')
    /\ events s' = events s ++ [RunStitchedGraph list_args]
    /\ length list_args = length args
    /\ (forall i index,
          sym_tensor_indices (backend s) !! i = Some index ->
          exists symbolic runtime_tensor buffer,
            args !! index = Some (ArgTensor symbolic runtime_tensor)
            /\ input_buffers (backend s) !! i = Some buffer
            /\ input_buffers (backend s') !! i
               = Some (runtime_tensor ++ drop (length runtime_tensor) buffer)
            /\ list_args !! index
               = Some (ArgStaticSlice i (length runtime_tensor))
            /\ tensor_data (input_buffers (backend s'))
                 (ArgStaticSlice i (length runtime_tensor))
               = Some runtime_tensor)
    /\ (forall j,
          j ∉ sym_tensor_indices (backend s) -> list_args !! j = args !! j)
    /\ replay_engaged first_observed (backend s').
Proof.
  intros [Hidx Hbufs] Hwithin.
  assert (fits 0 (sym_tensor_indices (backend s)) (input_buffers (backend s))
            args) as Hfits.
  { apply (fits_intro first_observed).
    - rewrite Hidx. apply symbolic_indices_NoDup.
    - by rewrite drop_0.
    - intros index data Hin. apply Hwithin. by rewrite <- Hidx. }
  destruct (copy_inputs_fits _ 0 args s Hfits)
    as (list_args & s1 & Hrun & Hlen & Hblen & Hsym & Hother & _ & Hev & Hidx1).
  exists list_args, (set_events (events s1 ++ [RunStitchedGraph list_args]) s1).
  split; [|split; [|split; [|split; [|split]]]].
  - unfold copy_and_call. run_monad. by rewrite Hrun.
  - cbn [events set_events]. by rewrite Hev.
  - done.
  - intros i index Hi.
    assert (index ∈ symbolic_indices 0 first_observed) as Hin.
    { rewrite <- Hidx. by eapply list_elem_of_lookup_2. }
    destruct (symbolic_indices_lookup _ _ _ Hin) as [data Hdata].
    rewrite Nat.sub_0_r in Hdata.
    destruct (Hwithin index data Hin Hdata)
      as (symbolic & runtime_tensor & Harg & _).
    destruct (Forall2_lookup_l _ _ _ _ _ Hbufs Hi) as (rows & Hrows & _).
    apply list_lookup_fmap_Some in Hrows as (buffer & ? & ?).
    assert (input_buffers (backend s) !! i = Some buffer) as Hbuf by done.
    exists symbolic, runtime_tensor, buffer.
    destruct (Hsym i index symbolic runtime_tensor buffer Hi Harg Hbuf)
      as (Hview & Hwritten & Hshown).
    done.
  - done.
  - split.
    + cbn [backend set_events]. by rewrite Hidx1.
    + cbn [backend set_events]. by rewrite Hidx1, Hblen.
Qed.

(** ** Examples *)

(** Adaptors that behave as vLLM's do as far as this module sees: the eager
    one returns no handle, the Inductor ones return a pair of strings. *)
Definition example_adaptor (c : AdaptorClass) : CompilerInterface :=
  match c with
  | EagerAdaptor =>
      mkCompilerInterface EagerAdaptor "eager"
        (fun _ _ _ _ _ => (Some (CompiledGraph "eager"), PyNone))
        (fun _ _ _ _ _ => None)
  | InductorAdaptor =>
      mkCompilerInterface InductorAdaptor "inductor"
        (fun _ _ _ _ _ =>
           (Some (CompiledGraph "inductor"),
            PyTuple [PyStr "fxgraph"; PyStr "/cache/fxgraph.py"]))
        (fun _ _ _ _ _ => Some (CompiledGraph "loaded"))
  | InductorStandaloneAdaptor =>
      mkCompilerInterface InductorStandaloneAdaptor "inductor_standalone"
        (fun _ _ _ _ key =>
           (Some (CompiledGraph "standalone"),
            PyTuple [PyStr (default "" key); PyStr "/cache"]))
        (fun _ _ _ _ _ => Some (CompiledGraph "loaded"))
  end.

Definition example_envs (disable_cache : bool) : Envs :=
  mkEnvs disable_cache true "/root/.cache/vllm" true example_adaptor
    "0123456789" (fun _ => "class <lambda>: pass").

Definition example_config (use_inductor : bool) : CompilationConfig :=
  mkConfig use_inductor "" "" 0%float ["vllm.unified_attention"] true true
    (PyDict []) None ["model.py"].

(** A process in which a backend has just been constructed. *)
Definition example_state (disable_cache use_inductor : bool) : State :=
  let envs := example_envs disable_cache in
  let config := example_config use_inductor in
  new_backend "" "backbone"
    (mkState envs 0 0 ∅ 0 (fun n => PrimFloat.of_uint63 (Uint63.of_nat n))
       0%float 0%float (mkCounter 0 0 0 0 0) [] config
       (new_manager envs config) (mkBackend "" false None None [] [] [])).

Definition example_inputs : list Arg :=
  [ArgTensor true [[1%Z; 2%Z]; [3%Z; 4%Z]]; ArgOther "weight"].

Lemma pair_of_fst {A B : Type} (p : A * B) (a : A) : fst p = a -> p = (a, snd p).
Proof. destruct p. simpl. by intros ->. Qed.

(** With the eager adaptor, which returns no handle, a compilation on a
    miss with the cache enabled returns the callable and stores nothing:
    the cache stays empty and the dirty flag stays unset. *)
Lemma compile_miss_postcondition_counterexample :
  let s := example_state false false in
  let r := compile example_graph example_inputs (PyDict []) 0 1 None s in
  VLLM_DISABLE_COMPILE_CACHE (envs s) = false
  /\ fst (load example_graph example_inputs 0 None s) = inr None
  /\ fst r = inr (CompiledGraph "eager")
  /\ cache (manager (snd r)) = PyDict []
  /\ is_cache_updated (manager (snd r)) = false.
Proof. vm_compute. done. Qed.

Lemma compile_miss_postcondition_witness :
  let s := example_state false true in
  let r := compile example_graph example_inputs (PyDict []) 0 1 None s in
  cache (manager (snd r))
  = PyDict [(PyTuple [PyNone; PyInt 0; PyStr "inductor_standalone"],
             PyTuple [PyStr "artifact_shape_None_subgraph_0"; PyStr "/cache"])]
  /\ is_cache_updated (manager (snd r)) = true.
Proof.
  intros s r.
  destruct (compile_miss_postcondition example_graph example_inputs (PyDict [])
              0 1 None s [] eq_refl eq_refl) as [_ H].
  vm_compute in H. vm_compute. destruct H as (_ & H1 & _ & H2 & _).
  split; [exact H1|exact H2].
Defined.

Lemma single_use_guarantee_witness :
  exists s2,
    __call__ example_graph example_inputs
      (snd (__call__ example_graph example_inputs (example_state false true)))
    = (inl (AssertionError "VllmBackend can only be called once"), s2)
    /\ splits_and_compiles (events s2)
       = splits_and_compiles
           (events
              (snd (__call__ example_graph example_inputs
                      (example_state false true))))
    /\ backend s2
       = backend
           (snd (__call__ example_graph example_inputs
                   (example_state false true))).
Proof.
  assert (fst (__call__ example_graph example_inputs (example_state false true))
          = inr ReturnCopyAndCall) as H by (vm_compute; reflexivity).
  exact (single_use_guarantee example_graph example_graph example_inputs
           example_inputs _ _ _ (pair_of_fst _ _ H)).
Defined.

(** The state after a first full compilation with the cache disabled. *)
Definition disabled_first_run : State :=
  snd (__call__ example_graph example_inputs (example_state true true)).

Definition disabled_second_run : State :=
  snd (__call__ example_graph example_inputs
         (new_backend "" "backbone" disabled_first_run)).

Lemma disabled_cache_behavior_witness :
  save_to_file py_repr disabled_first_run = (inr tt, disabled_first_run)
  /\ save_to_file py_repr disabled_second_run = (inr tt, disabled_second_run)
  /\ cache (manager disabled_second_run) = PyDict [].
Proof.
  assert (fst (__call__ example_graph example_inputs (example_state true true))
          = inr ReturnCopyAndCall) as H1 by (vm_compute; reflexivity).
  assert (fst (__call__ example_graph example_inputs
                 (new_backend "" "backbone" disabled_first_run))
          = inr ReturnCopyAndCall) as H2 by (vm_compute; reflexivity).
  destruct (disabled_cache_behavior (example_state true true)
              disabled_first_run disabled_second_run py_repr
              example_graph example_inputs "" "backbone" "" "backbone"
              ReturnCopyAndCall ReturnCopyAndCall eq_refl
              (pair_of_fst _ _ H1) (pair_of_fst _ _ H2))
    as (_ & gm & items & c1 & c2 & _ & _ & _ & _ & _ & _ & Hc2 & Hs1 & Hs2).
  exact (conj Hs1 (conj Hs2 Hc2)).
Defined.

(** The backend after a compilation that engaged the replay, with one
    buffer of two rows. *)
Definition replay_state : State :=
  snd (__call__ example_graph example_inputs (example_state false true)).

(** A later invocation, with a tensor of one row. *)
Definition runtime_args : list Arg :=
  [ArgTensor false [[5%Z; 6%Z]]; ArgOther "weight"].

Lemma static_buffer_replay_witness :
  exists list_args s',
    copy_and_call runtime_args replay_state = (inr list_args, s')
    /\ events s' = events replay_state ++ [RunStitchedGraph list_args]
    /\ length list_args = length runtime_args
    /\ (forall i index,
          sym_tensor_indices (backend replay_state) !! i = Some index ->
          exists symbolic runtime_tensor buffer,
            runtime_args !! index = Some (ArgTensor symbolic runtime_tensor)
            /\ input_buffers (backend replay_state) !! i = Some buffer
            /\ input_buffers (backend s') !! i
               = Some (runtime_tensor ++ drop (length runtime_tensor) buffer)
            /\ list_args !! index
               = Some (ArgStaticSlice i (length runtime_tensor))
            /\ tensor_data (input_buffers (backend s'))
                 (ArgStaticSlice i (length runtime_tensor))
               = Some runtime_tensor)
    /\ (forall j,
          j ∉ sym_tensor_indices (backend replay_state) ->
          list_args !! j = runtime_args !! j)
    /\ replay_engaged example_inputs (backend s').
Proof.
  assert (replay_engaged example_inputs (backend replay_state)) as Hengaged.
  { assert (fst (__call__ example_graph example_inputs
                   (example_state false true))
            = inr ReturnCopyAndCall) as H by (vm_compute; reflexivity).
    exact (call_engages _ _ _ _ (pair_of_fst _ _ H)). }
  assert (within_first_observed example_inputs runtime_args) as Hwithin.
  { intros index data Hin Hfirst. simpl in Hin.
    apply list_elem_of_singleton in Hin as ->.
    injection Hfirst as <-. exists false, [[5%Z; 6%Z]].
    split; [reflexivity | simpl; lia]. }
  exact (static_buffer_replay example_inputs runtime_args replay_state
           Hengaged Hwithin).
Defined.

(** A cache with a general shape and a shape of eight rows. *)
Definition saved_cache : list (pyval * pyval) :=
  [(cache_key None 0 "inductor",
    PyTuple [PyStr "fx7c"; PyStr "/cache/fx7c.py"]);
   (cache_key (Some 8%Z) 1 "inductor",
    PyTuple [PyStr "fq2b"; PyList [PyInt (-3); PyNone; PyStr "it's"]])].

(** A manager that has compiled these two graphs. *)
Definition saving_state : State :=
  set_manager
    (mkManager (PyDict saved_cache) true
       (compiler (manager (example_state false true))) (Some false)
       (Some "/cache") (Some (path_join "/cache" "vllm_compile_cache.py")))
    (example_state false true).

Lemma cache_round_trip_witness :
  exists loaded s1,
    save_to_file py_repr saving_state = (inr tt, s1)
    /\ files s1 !! path_join "/cache" "vllm_compile_cache.py"
       = Some (py_repr (PyDict saved_cache))
    /\ literal_eval (py_repr (PyDict saved_cache)) = inr (PyDict loaded)
    /\ loaded ≡ₚ saved_cache
    /\ (forall k, dict_get k loaded = dict_get k saved_cache)
    /\ forall prefix s2,
         files s2 !! path_join "/cache" "vllm_compile_cache.py"
         = files s1 !! path_join "/cache" "vllm_compile_cache.py" ->
         exists s3,
           initialize_cache "/cache" false prefix s2 = (inr tt, s3)
           /\ cache (manager s3) = PyDict loaded.
Proof.
  assert (NoDup saved_cache.*1) as Hnodup.
  { apply NoDup_cons. split; [|apply NoDup_singleton].
    intros Hin. apply list_elem_of_singleton in Hin. discriminate. }
  assert (Forall cache_entry saved_cache) as Hentries.
  { repeat constructor.
    - by exists None, 0%Z, "inductor".
    - by exists (Some 8%Z), 1%Z, "inductor". }
  exact (cache_round_trip py_repr
           (fun items H => py_repr_displays items (cache_entry_literal items H))
           saved_cache "/cache" saving_state
           eq_refl Hnodup Hentries eq_refl eq_refl eq_refl).
Defined.

(** * Further properties *)

(** ** split_graph: order, ids and counts *)

(** The ids the callback returns never decrease along the graph. *)
Lemma assigned_ascending ops nodes : forall sid,
  StronglySorted le (map fst (assigned ops sid nodes)).
Proof.
  induction nodes as [|node rest IH]; intros sid; simpl; [constructor|].
  destruct (is_structural node); [apply IH|].
  destruct (is_split_op ops node).
  - simpl. constructor; [apply IH|].
    apply Forall_forall. intros p [[q n] [-> Hin]]%list_elem_of_fmap.
    apply assigned_ge in Hin. simpl. lia.
  - destruct (Fx.partitioned node); [|apply IH].
    simpl. constructor; [apply IH|].
    apply Forall_forall. intros p [[q n] [-> Hin]]%list_elem_of_fmap.
    by apply assigned_ge in Hin.
Qed.

(** The call nodes are the nodes the callback is asked about. *)
Lemma assigned_nodes ops nodes : forall sid,
  map snd (assigned ops sid nodes)
  = filter (fun n => Fx.partitioned n = true) nodes.
Proof.
  induction nodes as [|node rest IH]; intros sid; [done|].
  rewrite filter_cons. simpl.
  unfold is_structural, is_split_op, Fx.partitioned in *.
  destruct node as [nm [] tg]; simpl in *; rewrite ?IH; try done.
  destruct (bool_decide (tg ∈ ops)); simpl; by rewrite IH.
Qed.

(** Partitions listed by strictly ascending id, none above [bound]. *)
Definition ascending_parts (parts : list (nat * list Fx.Node)) (bound : nat)
  : Prop :=
  StronglySorted lt (map fst parts) /\ Forall (fun p => p <= bound) (map fst parts).

Lemma add_to_partition_last pid node parts bound :
  ascending_parts parts bound -> bound <= pid ->
  ascending_parts (Fx.add_to_partition pid node parts) pid
  /\ concat (map snd (Fx.add_to_partition pid node parts))
     = concat (map snd parts) ++ [node].
Proof.
  intros [Hsorted Hbound] Hpid.
  induction parts as [|[p ns] rest IH]; simpl.
  - split; [|done]. split; repeat constructor.
  - simpl in Hsorted, Hbound.
    apply StronglySorted_inv in Hsorted as [Hsorted Hhd].
    apply Forall_cons in Hbound as [Hp Hbound].
    destruct (decide (p = pid)) as [->|Hne].
    + assert (rest = []) as ->.
      { destruct rest as [|[q ms] rest]; [done|].
        apply Forall_cons in Hhd as [Hq _].
        apply Forall_cons in Hbound as [Hq' _]. simpl in *. lia. }
      simpl. rewrite !app_nil_r. split; [|done].
      split; repeat constructor.
    + destruct (IH Hsorted Hbound) as [[Hs' Hb'] Hconcat].
      simpl. rewrite Hconcat, app_assoc. split; [|done]. split.
      * simpl. constructor; [done|].
        rewrite add_to_partition_fst.
        destruct (decide (pid ∈ map fst rest)); [done|].
        apply Forall_app. split; [done|]. constructor; [lia|constructor].
      * simpl. constructor; [lia|done].
Qed.

Lemma group_ascending l : forall parts bound,
  ascending_parts parts bound ->
  StronglySorted le (map fst l) ->
  Forall (fun p => bound <= p) (map fst l) ->
  StronglySorted lt (map fst (group parts l))
  /\ concat (map snd (group parts l)) = concat (map snd parts) ++ map snd l.
Proof.
  induction l as [|[p n] l IH]; intros parts bound Hparts Hsorted Hbound.
  - simpl. rewrite app_nil_r. split; [apply Hparts|done].
  - simpl in Hsorted, Hbound.
    apply StronglySorted_inv in Hsorted as [Hsorted Hhd].
    apply Forall_cons in Hbound as [Hp Hbound].
    destruct (add_to_partition_last p n parts bound Hparts Hp) as [Hparts' Hc].
    destruct (IH _ p Hparts' Hsorted Hhd) as [Hs Hconcat].
    unfold group in *. simpl. split; [done|].
    rewrite Hconcat, Hc, <- app_assoc. done.
Qed.

(** Sorting a list that is in order changes nothing. *)
Lemma sort_by_graph_id_sorted_id l :
  StronglySorted (fun a b => graph_id a < graph_id b) l -> sort_by_graph_id l = l.
Proof.
  induction 1 as [|x l Hs IH Hhd]; [done|].
  change (sort_by_graph_id (x :: l))
    with (insert_by_graph_id x (sort_by_graph_id l)).
  rewrite IH. destruct l as [|y l]; [done|]. simpl.
  apply Forall_cons in Hhd as [Hxy _]. rewrite decide_True by lia. done.
Qed.

(** The partitions of a graph. *)
Lemma parts_ascending ops nodes :
  let parts := group [] (assigned ops 0 nodes) in
  StronglySorted lt (map fst parts)
  /\ concat (map snd parts) = filter (fun n => Fx.partitioned n = true) nodes.
Proof.
  intros parts.
  destruct (group_ascending (assigned ops 0 nodes) [] 0) as [Hs Hc].
  - split; constructor.
  - apply assigned_ascending.
  - apply Forall_forall. intros; lia.
  - split; [done|]. subst parts. rewrite Hc. simpl. apply assigned_nodes.
Qed.

(** [split_graph] on a graph, with the sort taken out. *)
Lemma split_graph_ascending nodes ops :
  let parts := group [] (assigned ops 0 nodes) in
  split_graph nodes ops
  = inr (stitched parts, map (item_of (split_ids ops 0 nodes)) parts).
Proof.
  intros parts. rewrite split_graph_items. cbv zeta. fold parts.
  do 2 f_equal. apply sort_by_graph_id_sorted_id.
  destruct (parts_ascending ops nodes) as [Hs _]. fold parts in Hs.
  clear -Hs. induction parts as [|[p ns] parts IH]; [constructor|].
  simpl in *. apply StronglySorted_inv in Hs as [Hs Hhd].
  constructor; [by apply IH|].
  apply Forall_forall. intros item [[q ms] [-> Hin]]%list_elem_of_fmap.
  apply (proj1 (Forall_forall _ _) Hhd q).
  apply list_elem_of_fmap. by exists (q, ms).
Qed.


(** The counter is even whenever the loop is between two nodes, so the id
    of a splitting op is odd and every other id is even. *)
Lemma split_ids_odd ops nodes : forall sid p,
  Nat.even sid = true -> p ∈ split_ids ops sid nodes -> Nat.odd p = true.
Proof.
  induction nodes as [|node rest IH]; intros sid p Heven; simpl.
  - by intros ?%elem_of_nil.
  - destruct (is_structural node); [by apply IH|].
    destruct (is_split_op ops node); [|by apply IH].
    intros [->|Hin]%elem_of_cons.
    + by rewrite Nat.odd_succ.
    + apply (IH (S (S sid))); [|done]. by rewrite Nat.even_succ_succ.
Qed.

Lemma assigned_odd ops nodes : forall sid p n,
  Nat.even sid = true -> (p, n) ∈ assigned ops sid nodes ->
  Nat.odd p = true -> p ∈ split_ids ops sid nodes.
Proof.
  induction nodes as [|node rest IH]; intros sid p n Heven; simpl.
  - by intros ?%elem_of_nil.
  - destruct (is_structural node); [by apply IH|].
    destruct (is_split_op ops node).
    + intros [[= -> ->]|Hin]%elem_of_cons Hodd; [left|].
      right. apply (IH (S (S sid)) p n); [|done|done].
      by rewrite Nat.even_succ_succ.
    + destruct (Fx.partitioned node); [|by apply IH].
      intros [[= -> ->]|Hin]%elem_of_cons Hodd; [|by eapply IH].
      rewrite <- Nat.negb_even, Heven in Hodd. done.
Qed.

(** The partitions are not empty, and their ids are ids of nodes. *)
Lemma elem_of_parts ops nodes pid ns :
  (pid, ns) ∈ group [] (assigned ops 0 nodes) ->
  ns = nodes_of pid (assigned ops 0 nodes) /\ ns <> [].
Proof.
  intros Hin. apply elem_part_lookup in Hin; [|apply group_keys].
  rewrite group_lookup in Hin.
  destruct (nodes_of pid _) eqn:E; [done|].
  injection Hin as <-. done.
Qed.

Lemma parts_parity ops nodes pid ns :
  (pid, ns) ∈ group [] (assigned ops 0 nodes) ->
  bool_decide (pid ∈ split_ids ops 0 nodes) = Nat.odd pid.
Proof.
  intros [-> Hne]%elem_of_parts.
  destruct (nodes_of pid _) as [|n l] eqn:E; [done|].
  assert ((pid, n) ∈ assigned ops 0 nodes) as Hin.
  { apply elem_of_nodes_of. rewrite E. left. }
  destruct (Nat.odd pid) eqn:Hodd.
  - apply bool_decide_eq_true. by eapply assigned_odd.
  - apply bool_decide_eq_false. intros Hp%split_ids_odd; [|done]. congruence.
Qed.

(** X2. The items [split_graph] returns are listed by strictly ascending
    [graph_id]; each is named [submod_<graph_id>] and holds at least one
    node; and an item is a splitting item exactly when its id is odd: the
    loop gives even ids to the stretches between splitting ops and odd
    ids to the splitting ops. *)
Theorem split_graph_items_shape (nodes : list Fx.Node) (ops : list string) :
  exists split_gm items,
    split_graph nodes ops = inr (split_gm, items)
    /\ StronglySorted (fun a b => graph_id a < graph_id b) items
    /\ Forall
         (fun item =>
            submod_name item = "submod_" +:+ str_of_nat (graph_id item)
            /\ is_splitting_graph item = Nat.odd (graph_id item)
            /\ graph item <> [])
         items.
Proof.
  eexists _, _. split; [apply split_graph_ascending|].
  destruct (parts_ascending ops nodes) as [Hs _].
  set (parts := group [] (assigned ops 0 nodes)) in *.
  assert (forall p, p ∈ parts -> p ∈ group [] (assigned ops 0 nodes)) as Hsub
    by done.
  clearbody parts. split.
  - clear Hsub. induction parts as [|[p ns] parts IH]; [constructor|].
    simpl in *. apply StronglySorted_inv in Hs as [Hs Hhd].
    constructor; [by apply IH|].
    apply Forall_forall. intros item [[q ms] [-> Hin]]%list_elem_of_fmap.
    apply (proj1 (Forall_forall _ _) Hhd q).
    apply list_elem_of_fmap. by exists (q, ms).
  - apply Forall_forall. intros item [[pid ns] [-> Hin]]%list_elem_of_fmap.
    apply Hsub in Hin. cbn [item_of submod_name graph_id is_splitting_graph
      graph fst snd].
    split; [done|]. split; [by eapply parts_parity|].
    by apply elem_of_parts in Hin as [_ ?].
Qed.

(** Without splitting ops every call node gets the id 0. *)
Lemma assigned_no_split_ops ops nodes :
  (forall node, node ∈ nodes -> is_split_op ops node = false) ->
  assigned ops 0 nodes
  = map (fun n => (0, n)) (filter (fun n => Fx.partitioned n = true) nodes)
  /\ split_ids ops 0 nodes = [].
Proof.
  induction nodes as [|node rest IH]; intros Hno; [done|].
  destruct IH as [IH1 IH2]; [intros n Hn; apply Hno; by right|].
  rewrite filter_cons. simpl. rewrite (Hno node) by left.
  rewrite IH1, IH2.
  unfold is_structural, Fx.partitioned.
  destruct node as [nm [] tg]; done.
Qed.

Lemma group_one_id l : forall ns,
  group [(0, ns)] (map (fun n => (0, n)) l) = [(0, ns ++ l)].
Proof.
  induction l as [|n l IH]; intros ns; simpl.
  - by rewrite app_nil_r.
  - unfold group in *. simpl. rewrite IH, <- app_assoc. done.
Qed.

(** X3. A graph in which no node is a splitting op (an empty list of ops,
    for one) is not split: its call nodes form the one item [submod_0],
    which is not a splitting item; a graph without call nodes, such as an
    empty one, gives no item at all. *)
Theorem split_graph_no_splitting_op (nodes : list Fx.Node) (ops : list string) :
  (forall node, node ∈ nodes -> is_split_op ops node = false) ->
  exists split_gm,
    split_graph nodes ops
    = inr (split_gm,
           match filter (fun n => Fx.partitioned n = true) nodes with
           | [] => []
           | call_nodes => [mkSplitItem "submod_0" 0 false call_nodes]
           end).
Proof.
  intros Hno. eexists. rewrite split_graph_ascending. cbv zeta.
  destruct (assigned_no_split_ops ops nodes Hno) as [-> ->].
  do 2 f_equal.
  destruct (filter _ nodes) as [|n l]; [done|].
  cbn [map]. unfold group. cbn [foldl Fx.add_to_partition fst snd].
  fold (group [(0, [n])] (map (fun n => (0, n)) l)).
  rewrite group_one_id. done.
Qed.

(** Counting the items *)

Lemma split_ids_length ops nodes : forall sid,
  length (split_ids ops sid nodes)
  = length (filter (fun n => is_split_op ops n = true) nodes).
Proof.
  induction nodes as [|node rest IH]; intros sid; [done|].
  rewrite filter_cons. simpl.
  destruct (is_structural node) eqn:Hs.
  - assert (is_split_op ops node = false) as ->; [|by rewrite IH].
    destruct (is_split_op ops node) eqn:Hsplit; [|done].
    apply split_op_partitioned in Hsplit as [? _]. congruence.
  - destruct (is_split_op ops node); simpl; by rewrite IH.
Qed.

Lemma final_id_split_ids ops nodes : forall sid,
  final_id ops sid nodes = sid + 2 * length (split_ids ops sid nodes).
Proof.
  induction nodes as [|node rest IH]; intros sid; simpl; [lia|].
  destruct (is_structural node); [apply IH|].
  destruct (is_split_op ops node); [|apply IH].
  rewrite IH. simpl. lia.
Qed.

Lemma assigned_le ops nodes : forall sid p n,
  (p, n) ∈ assigned ops sid nodes -> p <= final_id ops sid nodes.
Proof.
  induction nodes as [|node rest IH]; intros sid p n; simpl.
  - by intros ?%elem_of_nil.
  - destruct (is_structural node); [by apply IH|].
    destruct (is_split_op ops node).
    + intros [[= -> ->]|Hin]%elem_of_cons; [|by eapply IH].
      pose proof (final_id_ge ops rest (S (S sid))). lia.
    + destruct (Fx.partitioned node); [|by apply IH].
      intros [[= -> ->]|Hin]%elem_of_cons; [|by eapply IH].
      apply final_id_ge.
Qed.

Lemma split_ids_assigned ops nodes : forall sid p,
  p ∈ split_ids ops sid nodes -> exists n, (p, n) ∈ assigned ops sid nodes.
Proof.
  induction nodes as [|node rest IH]; intros sid p; simpl.
  - by intros ?%elem_of_nil.
  - destruct (is_structural node); [by apply IH|].
    destruct (is_split_op ops node).
    + intros [->|Hin]%elem_of_cons.
      * exists node. left.
      * destruct (IH _ _ Hin) as [n Hn]. exists n. by right.
    + intros Hin. destruct (IH _ _ Hin) as [n Hn]. exists n.
      destruct (Fx.partitioned node); [by right|done].
Qed.

Lemma split_ids_NoDup ops nodes : forall sid, NoDup (split_ids ops sid nodes).
Proof.
  induction nodes as [|node rest IH]; intros sid; simpl; [constructor|].
  destruct (is_structural node); [apply IH|].
  destruct (is_split_op ops node); [|apply IH].
  constructor; [|apply IH]. intros Hin%split_ids_gt. lia.
Qed.

(** The ids of the partitions are the ids given to call nodes. *)
Lemma parts_keys_spec ops nodes pid :
  pid ∈ map fst (group [] (assigned ops 0 nodes))
  <-> exists n, (pid, n) ∈ assigned ops 0 nodes.
Proof.
  split.
  - intros [[p ns] [-> Hin]]%list_elem_of_fmap.
    apply elem_of_parts in Hin as [-> Hne]. simpl.
    destruct (nodes_of p _) as [|n l] eqn:E; [done|].
    exists n. apply elem_of_nodes_of. rewrite E. left.
  - intros [n Hin].
    destruct (part_lookup pid (group [] (assigned ops 0 nodes))) as [ns|] eqn:E.
    + apply part_lookup_elem in E. apply list_elem_of_fmap. by exists (pid, ns).
    + rewrite group_lookup in E. apply elem_of_nodes_of in Hin.
      destruct (nodes_of pid _); [by apply elem_of_nil in Hin|done].
Qed.

(** The items that are not splitting items have even ids in strictly
    ascending order, none above [2 * k]. *)
Lemma compilable_length ids k parts : forall lo,
  Nat.even lo = true -> lo <= 2 * k + 2 ->
  StronglySorted lt (map fst parts) ->
  Forall
    (fun p =>
       lo <= S (fst p)
       /\ bool_decide (fst p ∈ ids) = Nat.odd (fst p)
       /\ (Nat.even (fst p) = true -> fst p <= 2 * k))
    parts ->
  2 * length (filter compilable (map (item_of ids) parts)) + lo <= 2 * k + 2.
Proof.
  induction parts as [|[x ns] parts IH]; intros lo Hlo Hle Hs Hall;
    [simpl; lia|].
  simpl in Hs. apply StronglySorted_inv in Hs as [Hs Hhd].
  apply Forall_cons in Hall as [(Hx1 & Hx2 & Hx3) Hall]. cbn [fst] in *.
  assert (forall lo',
            (forall y, x < y -> lo' <= S y) ->
            Forall
              (fun p =>
                 lo' <= S (fst p)
                 /\ bool_decide (fst p ∈ ids) = Nat.odd (fst p)
                 /\ (Nat.even (fst p) = true -> fst p <= 2 * k))
              parts) as Hrest.
  { intros lo' Hlo'. apply Forall_forall. intros p Hp.
    pose proof (proj1 (Forall_forall _ _) Hall p Hp) as (_ & H2 & H3).
    split; [|done]. apply Hlo'.
    apply (proj1 (Forall_forall _ _) Hhd (fst p)).
    apply list_elem_of_fmap. by exists p. }
  cbn [map]. rewrite filter_cons.
  destruct (decide (compilable (item_of ids (x, ns)))) as [Hc|Hc];
    unfold compilable in Hc; cbn [item_of is_splitting_graph fst] in Hc;
    rewrite Hx2 in Hc.
  - cbn [length]. rename Hc into Hodd.
    assert (Nat.even x = true) as Heven
      by by rewrite <- Nat.negb_odd, Hodd.
    specialize (Hx3 Heven).
    assert (lo <= x) as Hlox.
    { destruct (decide (lo = S x)) as [->|]; [|lia].
      rewrite Nat.even_succ, Hodd in Hlo. done. }
    specialize (IH (S (S x))). rewrite Nat.even_succ_succ in IH.
    assert (2 * length (filter compilable (map (item_of ids) parts)) + S (S x)
            <= 2 * k + 2); [|lia].
    apply IH; [done|lia|done|]. apply Hrest. intros y Hy. lia.
  - apply IH; [done|done|done|]. apply Hrest. intros y Hy.
    destruct (decide (lo = S (S x))) as [->|]; [|lia].
    rewrite Nat.even_succ_succ in Hlo.
    rewrite <- Nat.negb_even, Hlo in Hc. done.
Qed.

Lemma splitting_length ids parts :
  length (filter (fun item => is_splitting_graph item = true)
            (map (item_of ids) parts))
  = length (filter (fun p => p ∈ ids) (map fst parts)).
Proof.
  induction parts as [|[x ns] parts IH]; [done|].
  cbn [map fst]. rewrite !filter_cons.
  cbn [item_of is_splitting_graph fst].
  destruct (decide (x ∈ ids)) as [Hx|Hx].
  - rewrite decide_True by by apply bool_decide_eq_true.
    simpl. by rewrite IH.
  - rewrite decide_False; [done|].
    by intros ?%bool_decide_eq_true.
Qed.

(** X4. A graph with [k] splitting ops is split into exactly [k] splitting
    items and at most [k + 1] other items, so [k + 1] is the most the
    interpreter ever compiles for one graph. *)
Theorem split_graph_counts (nodes : list Fx.Node) (ops : list string) :
  let k := length (filter (fun n => is_split_op ops n = true) nodes) in
  exists split_gm items,
    split_graph nodes ops = inr (split_gm, items)
    /\ length (filter (fun item => is_splitting_graph item = true) items) = k
    /\ length (filter compilable items) <= k + 1.
Proof.
  intros k. eexists _, _. split; [apply split_graph_ascending|].
  destruct (parts_ascending ops nodes) as [Hs _].
  pose proof (split_ids_length ops nodes 0) as Hk. fold k in Hk.
  split.
  - rewrite splitting_length, <- Hk.
    apply Permutation_length, NoDup_Permutation.
    + apply NoDup_filter. apply group_keys.
    + apply split_ids_NoDup.
    + intros p. rewrite list_elem_of_filter. split; [by intros [? _]|].
      intros Hp. split; [done|]. apply parts_keys_spec.
      by apply split_ids_assigned.
  - pose proof (compilable_length (split_ids ops 0 nodes) k
                  (group [] (assigned ops 0 nodes)) 0 eq_refl) as Hlen.
    assert (forall a b, 2 * a + 0 <= 2 * b + 2 -> a <= b + 1) as Harith
      by (intros; lia).
    apply Harith, Hlen; [lia|done|].
    apply Forall_forall. intros [pid ns] Hin. cbn [fst].
    split; [lia|]. split; [by eapply parts_parity|].
    intros _. apply elem_of_parts in Hin as [-> Hne].
    destruct (nodes_of pid _) as [|n l] eqn:E; [done|].
    assert ((pid, n) ∈ assigned ops 0 nodes) as Hn.
    { apply elem_of_nodes_of. rewrite E. left. }
    apply assigned_le in Hn. rewrite final_id_split_ids, Hk in Hn. lia.
Qed.

Lemma split_graph_no_splitting_op_witness :
  exists split_gm,
    split_graph example_graph []
    = inr (split_gm,
           [ mkSplitItem "submod_0" 0 false
               [ Fx.mkNode "add" Fx.call_function "_operator.add";
                 Fx.mkNode "attn" Fx.call_method "vllm.unified_attention";
                 Fx.mkNode "unified_attention" Fx.call_function
                   "vllm.unified_attention";
                 Fx.mkNode "mul" Fx.call_function "_operator.mul";
                 Fx.mkNode "linear" Fx.call_module "L__self___linear" ] ]).
Proof.
  assert (forall node, node ∈ example_graph -> is_split_op [] node = false) as H.
  { intros node _. unfold is_split_op. apply andb_false_intro2.
    apply bool_decide_eq_false. apply not_elem_of_nil. }
  exact (split_graph_no_splitting_op example_graph [] H).
Defined.

(** ** CompilerManager: counters, hits and the entries of the cache *)

(** The state in which [compile] calls [load]. *)
Definition compile_start (graph_index : Z) (s : State) : State :=
  let s1 :=
    if bool_decide (graph_index = 0%Z)
    then set_compilation_start_time (time_source s (clock s))
           (set_clock (S (clock s)) s)
    else s in
  set_counter (bump_backend_compilations (compilation_counter s1)) s1.

Lemma compile_start_frame graph_index s :
  let s2 := compile_start graph_index s in
  manager s2 = manager s /\ envs s2 = envs s /\ events s2 = events s
  /\ files s2 = files s /\ config s2 = config s /\ backend s2 = backend s
  /\ compilation_counter s2 = bump_backend_compilations (compilation_counter s).
Proof. unfold compile_start. by destruct (bool_decide (graph_index = 0%Z)). Qed.

(** What [compile] does to the counters. *)
Lemma compile_counters graph example_inputs additional_inductor_config
    graph_index num_graphs runtime_shape s :
  let s' := snd (compile graph example_inputs additional_inductor_config
                   graph_index num_graphs runtime_shape s) in
  let c := compilation_counter s in
  let c' := compilation_counter s' in
  num_backend_compilations c' = S (num_backend_compilations c)
  /\ num_graphs_seen c' = num_graphs_seen c
  /\ num_piecewise_graphs_seen c' = num_piecewise_graphs_seen c
  /\ num_piecewise_capturable_graphs_seen c'
     = num_piecewise_capturable_graphs_seen c
  /\ (num_cache_entries_updated c' = num_cache_entries_updated c
      /\ manager s' = manager s
      \/ num_cache_entries_updated c' = S (num_cache_entries_updated c)
         /\ is_cache_updated (manager s') = true).
Proof.
  cbv zeta. rewrite compile_eq. cbv zeta. fold (compile_start graph_index s).
  pose proof (compile_start_frame graph_index s) as (Hm & _ & _ & _ & _ & _ & Hc).
  set (s2 := compile_start graph_index s) in *. clearbody s2.
  pose proof (load_frame graph example_inputs graph_index runtime_shape s2)
    as (_ & _ & _ & _ & _ & Hm3 & _ & _ & Hc3 & _).
  destruct (load _ _ _ _ s2) as [[e|[cg|]] s3]; cbn [fst snd] in *.
  - rewrite Hc3, Hc, Hm3, Hm. simpl. auto 10.
  - assert (compilation_counter
              (if bool_decide (graph_index = (num_graphs - 1)%Z)
               then set_clock (S (clock s3)) s3 else s3)
            = compilation_counter s3
            /\ manager
                 (if bool_decide (graph_index = (num_graphs - 1)%Z)
                  then set_clock (S (clock s3)) s3 else s3)
               = manager s3) as [-> ->]
      by by destruct (bool_decide _).
    rewrite Hc3, Hc, Hm3, Hm. simpl. auto 10.
  - set (s4 := set_events _ s3).
    assert (compilation_counter s4 = compilation_counter s3
            /\ manager s4 = manager s3) as [Hc4 Hm4] by done.
    clearbody s4.
    destruct (compiler_compile _ _ _ _ _ _) as [[cg|] handle]; cbn [fst snd].
    + assert (forall s5,
                compilation_counter (if bool_decide (graph_index = (num_graphs - 1)%Z)
                                     then record_elapsed s5 else s5)
                = compilation_counter s5
                /\ manager (if bool_decide (graph_index = (num_graphs - 1)%Z)
                            then record_elapsed s5 else s5)
                   = manager s5) as Hlast
        by (intros; by destruct (bool_decide _)).
      unfold store_handle.
      destruct (negb _ && negb _).
      * destruct (py_setitem _ _ _) as [e|cache']; cbn [fst snd].
        -- rewrite Hc4, Hc3, Hc, Hm4, Hm3, Hm. simpl. auto 10.
        -- destruct (Hlast (set_manager
                              (set_is_cache_updated true
                                 (set_cache cache' (manager s4)))
                              (set_counter
                                 (bump_cache_entries_updated
                                    (compilation_counter s4)) s4))) as [-> ->].
           simpl. rewrite Hc4, Hc3, Hc. simpl. auto 10.
      * cbn [fst snd]. destruct (Hlast s4) as [-> ->].
        rewrite Hc4, Hc3, Hc, Hm4, Hm3, Hm. simpl. auto 10.
    + rewrite Hc4, Hc3, Hc, Hm4, Hm3, Hm. simpl. auto 10.
Qed.

(** X5. Every call of [compile] adds exactly one to
    [num_backend_compilations], whether it loads from the cache, compiles
    or raises, and leaves the counters of graphs seen alone.  It adds one to
    [num_cache_entries_updated] exactly when it stores a handle, and then
    the dirty flag is set; otherwise the manager is as it was. *)
Theorem compile_counts_every_call
    (graph : list Fx.Node) (example_inputs : list Arg)
    (additional_inductor_config : pyval) (graph_index num_graphs : Z)
    (runtime_shape : option Z) (s : State) :
  let s' := snd (compile graph example_inputs additional_inductor_config
                   graph_index num_graphs runtime_shape s) in
  let c := compilation_counter s in
  let c' := compilation_counter s' in
  num_backend_compilations c' = S (num_backend_compilations c)
  /\ num_graphs_seen c' = num_graphs_seen c
  /\ num_piecewise_graphs_seen c' = num_piecewise_graphs_seen c
  /\ num_piecewise_capturable_graphs_seen c'
     = num_piecewise_capturable_graphs_seen c
  /\ (num_cache_entries_updated c' = num_cache_entries_updated c
      /\ manager s' = manager s
      \/ num_cache_entries_updated c' = S (num_cache_entries_updated c)
         /\ is_cache_updated (manager s') = true).
Proof. apply compile_counters. Qed.

(** [load] on a cache that is a dictionary. *)
Lemma load_dict graph example_inputs graph_index runtime_shape s items :
  cache (manager s) = PyDict items ->
  let c := compiler (manager s) in
  load graph example_inputs graph_index runtime_shape s
  = match dict_get (cache_key runtime_shape graph_index (compiler_name c)) items with
    | None => (inr None, s)
    | Some handle =>
        (inr (compiler_load c handle graph example_inputs graph_index
                runtime_shape),
         set_events (events s ++ [AdaptorLoad handle graph_index runtime_shape]) s)
    end.
Proof.
  intros Hcache c. rewrite load_eq. cbv zeta. rewrite Hcache. fold c.
  unfold py_contains, py_getitem. rewrite cache_key_hashable.
  destruct (dict_get _ items) as [handle|]; [|done].
  by rewrite bool_decide_eq_true_2.
Qed.

(** A hit: the cache holds a handle that the adaptor loads. *)
Lemma compile_hit_eq graph example_inputs additional_inductor_config
    graph_index num_graphs runtime_shape s items handle compiled_graph :
  cache (manager s) = PyDict items ->
  let c := compiler (manager s) in
  dict_get (cache_key runtime_shape graph_index (compiler_name c)) items
  = Some handle ->
  compiler_load c handle graph example_inputs graph_index runtime_shape
  = Some compiled_graph ->
  compile graph example_inputs additional_inductor_config graph_index
    num_graphs runtime_shape s
  = (inr compiled_graph,
     let s2 := compile_start graph_index s in
     let s3 :=
       set_events (events s2 ++ [AdaptorLoad handle graph_index runtime_shape])
         s2 in
     if bool_decide (graph_index = (num_graphs - 1)%Z)
     then set_clock (S (clock s3)) s3 else s3).
Proof.
  intros Hcache c Hget Hload. rewrite compile_eq. cbv zeta.
  fold (compile_start graph_index s).
  pose proof (compile_start_frame graph_index s) as (Hm & _).
  rewrite (load_dict _ _ _ _ _ items) by by rewrite Hm.
  rewrite Hm. fold c. rewrite Hget, Hload. done.
Qed.

(** X6. A cache hit.  When the cache holds a handle under
    [(runtime_shape, graph_index, name)] and the adaptor's [load] makes a
    callable of it, [compile] returns that callable.  It has called the
    adaptor's [load] once and not its [compile]; it leaves the manager (the
    cache and the dirty flag), the files, the backend and the configuration
    as they were, so no time is added to [compilation_time], even for the
    last graph; of the counters only [num_backend_compilations] moves. *)
Theorem compile_cache_hit
    (graph : list Fx.Node) (example_inputs : list Arg)
    (additional_inductor_config : pyval) (graph_index num_graphs : Z)
    (runtime_shape : option Z) (s : State) (items : list (pyval * pyval))
    (handle : pyval) (compiled_graph : Callable) :
  cache (manager s) = PyDict items ->
  dict_get
    (cache_key runtime_shape graph_index (compiler_name (compiler (manager s))))
    items = Some handle ->
  compiler_load (compiler (manager s)) handle graph example_inputs graph_index
    runtime_shape = Some compiled_graph ->
  exists s',
    compile graph example_inputs additional_inductor_config graph_index
      num_graphs runtime_shape s = (inr compiled_graph, s')
    /\ events s' = events s ++ [AdaptorLoad handle graph_index runtime_shape]
    /\ manager s' = manager s
    /\ files s' = files s
    /\ backend s' = backend s
    /\ config s' = config s
    /\ compilation_counter s'
       = bump_backend_compilations (compilation_counter s).
Proof.
  intros Hcache Hget Hload. eexists. split; [by eapply compile_hit_eq|].
  cbv zeta.
  pose proof (compile_start_frame graph_index s)
    as (Hm & _ & Hev & Hf & Hcfg & Hb & Hc).
  set (s2 := compile_start graph_index s) in *. clearbody s2.
  destruct (bool_decide (graph_index = (num_graphs - 1)%Z)); simpl;
    by rewrite Hm, Hev, Hf, Hcfg, Hb, Hc.
Qed.

(** The manager after [compile]: as it was, or with one handle stored. *)
Lemma compile_manager graph example_inputs additional_inductor_config
    graph_index num_graphs runtime_shape s items :
  cache (manager s) = PyDict items ->
  let key :=
    cache_key runtime_shape graph_index (compiler_name (compiler (manager s))) in
  let r := compile graph example_inputs additional_inductor_config
             graph_index num_graphs runtime_shape s in
  manager (snd r) = manager s
  \/ exists compiled_graph handle,
       fst r = inr compiled_graph
       /\ compiler_compile (compiler (manager s)) graph example_inputs
            additional_inductor_config runtime_shape
            (artifact_key (compiler (manager s)) runtime_shape graph_index)
          = (Some compiled_graph, handle)
       /\ VLLM_DISABLE_COMPILE_CACHE (envs s) = false
       /\ handle <> PyNone
       /\ manager (snd r)
          = set_is_cache_updated true
              (set_cache (PyDict (dict_set key handle items)) (manager s)).
Proof.
  intros Hcache key r. subst r. rewrite compile_eq. cbv zeta.
  fold (compile_start graph_index s).
  pose proof (compile_start_frame graph_index s) as (Hm & He & _).
  set (s2 := compile_start graph_index s) in *. clearbody s2.
  pose proof (load_frame graph example_inputs graph_index runtime_shape s2)
    as (_ & _ & _ & _ & _ & Hm3 & He3 & _).
  destruct (load _ _ _ _ s2) as [[e|[cg|]] s3]; cbn [fst snd] in *.
  - left. congruence.
  - left. destruct (bool_decide _); simpl; congruence.
  - set (s4 := set_events _ s3).
    assert (manager s4 = manager s /\ envs s4 = envs s) as [Hm4 He4]
      by (subst s4; simpl; split; congruence).
    rewrite Hm3, Hm. clearbody s4.
    destruct (compiler_compile _ _ _ _ _ _) as [[cg|] handle] eqn:Hcomp;
      cbn [fst snd]; [|left; congruence].
    rewrite (store_handle_dict _ _ _ _ items) by by rewrite Hm4.
    cbv zeta. rewrite He4, Hm4. fold key.
    destruct (VLLM_DISABLE_COMPILE_CACHE (envs s)) eqn:Hdis; cbn [orb].
    + left. cbn [fst snd]. destruct (bool_decide _); simpl; congruence.
    + case_bool_decide as Hnone; cbn [fst snd].
      * left. destruct (bool_decide _); simpl; congruence.
      * right. exists cg, handle. split; [done|]. split; [done|].
        split; [done|]. split; [done|].
        destruct (bool_decide (graph_index = (num_graphs - 1)%Z)); done.
Qed.

Lemma cache_key_inj shape1 index1 shape2 index2 name :
  cache_key shape1 index1 name = cache_key shape2 index2 name ->
  shape1 = shape2 /\ index1 = index2.
Proof.
  unfold cache_key. destruct shape1, shape2; intros [=]; by subst.
Qed.

(** X7. What [compile] stores, [load] finds.  After a compilation that
    called the adaptor, with the cache enabled and a handle that is not
    [None], a [load] for the same shape and index hands that handle to the
    adaptor's [load] and returns what it returns; a [load] for any other
    shape or index answers as it did before the compilation. *)
Theorem load_after_compile
    (graph graph' : list Fx.Node) (example_inputs example_inputs' : list Arg)
    (additional_inductor_config : pyval) (graph_index num_graphs : Z)
    (runtime_shape : option Z) (s : State) (items : list (pyval * pyval))
    (compiled_graph : Callable) (handle : pyval) :
  cache (manager s) = PyDict items ->
  VLLM_DISABLE_COMPILE_CACHE (envs s) = false ->
  fst (load graph example_inputs graph_index runtime_shape s) = inr None ->
  compiler_compile (compiler (manager s)) graph example_inputs
    additional_inductor_config runtime_shape
    (artifact_key (compiler (manager s)) runtime_shape graph_index)
  = (Some compiled_graph, handle) ->
  handle <> PyNone ->
  let r := compile graph example_inputs additional_inductor_config
             graph_index num_graphs runtime_shape s in
  fst r = inr compiled_graph
  /\ load graph' example_inputs' graph_index runtime_shape (snd r)
     = (inr (compiler_load (compiler (manager s)) handle graph'
               example_inputs' graph_index runtime_shape),
        set_events
          (events (snd r) ++ [AdaptorLoad handle graph_index runtime_shape])
          (snd r))
  /\ forall index' shape',
       (shape', index') <> (runtime_shape, graph_index) ->
       fst (load graph' example_inputs' index' shape' (snd r))
       = fst (load graph' example_inputs' index' shape' s).
Proof.
  intros Hcache Henabled Hmiss Hcomp Hne r.
  assert (fst r = inr compiled_graph
          /\ manager (snd r)
             = set_is_cache_updated true
                 (set_cache
                    (PyDict
                       (dict_set
                          (cache_key runtime_shape graph_index
                             (compiler_name (compiler (manager s))))
                          handle items)) (manager s))) as [Hfst Hm].
  { subst r. rewrite compile_eq. cbv zeta.
    fold (compile_start graph_index s).
    pose proof (compile_start_frame graph_index s) as (Hm & He & _).
    set (s2 := compile_start graph_index s) in *. clearbody s2.
    pose proof (load_frame graph example_inputs graph_index runtime_shape s2)
      as (_ & _ & _ & _ & _ & Hm3 & He3 & _).
    assert (fst (load graph example_inputs graph_index runtime_shape s2)
            = inr None) as Hmiss2.
    { rewrite load_eq in Hmiss |- *. cbv zeta in Hmiss |- *. rewrite Hm.
      destruct (py_contains _ _) as [?|[|]]; try done.
      by destruct (py_getitem _ _). }
    destruct (load _ _ _ _ s2) as [[e|[cg|]] s3]; cbn [fst snd] in *;
      try done.
    set (s4 := set_events _ s3).
    assert (manager s4 = manager s /\ envs s4 = envs s) as [Hm4 He4]
      by (subst s4; simpl; split; congruence).
    rewrite Hm3, Hm, Hcomp. clearbody s4.
    rewrite (store_handle_dict _ _ _ _ items) by by rewrite Hm4.
    cbv zeta. rewrite He4, Hm4, Henabled, bool_decide_eq_false_2 by done.
    cbn [orb fst snd].
    destruct (bool_decide (graph_index = (num_graphs - 1)%Z)); done. }
  split; [done|].
  assert (cache (manager (snd r))
          = PyDict
              (dict_set
                 (cache_key runtime_shape graph_index
                    (compiler_name (compiler (manager s)))) handle items)
          /\ compiler (manager (snd r)) = compiler (manager s)) as [Hc' Hcomp']
    by by rewrite Hm.
  clearbody r. split.
  - rewrite (load_dict _ _ _ _ _ _ Hc'). cbv zeta. rewrite Hcomp'.
    by rewrite dict_get_set_eq.
  - intros index' shape' Hother.
    rewrite (load_dict _ _ _ _ _ _ Hc'), (load_dict _ _ _ _ _ _ Hcache).
    cbv zeta. rewrite Hcomp'. rewrite dict_get_set_ne.
    + by destruct (dict_get _ items).
    + intros [-> ->]%cache_key_inj. done.
Qed.

(** X8. [compile] never removes an entry of the cache, never changes the
    entry of another shape or index, and never clears the dirty flag: the
    cache stays a dictionary in which only the entry under
    [(runtime_shape, graph_index, name)] may be new, whatever the outcome of
    the call. *)
Theorem compile_keeps_other_entries
    (graph : list Fx.Node) (example_inputs : list Arg)
    (additional_inductor_config : pyval) (graph_index num_graphs : Z)
    (runtime_shape : option Z) (s : State) (items : list (pyval * pyval)) :
  cache (manager s) = PyDict items ->
  let key :=
    cache_key runtime_shape graph_index (compiler_name (compiler (manager s))) in
  let s' := snd (compile graph example_inputs additional_inductor_config
                   graph_index num_graphs runtime_shape s) in
  exists items',
    cache (manager s') = PyDict items'
    /\ (forall k, k <> key -> dict_get k items' = dict_get k items)
    /\ (forall k, is_Some (dict_get k items) -> is_Some (dict_get k items'))
    /\ (is_cache_updated (manager s) = true ->
        is_cache_updated (manager s') = true).
Proof.
  intros Hcache key s'.
  destruct (compile_manager graph example_inputs additional_inductor_config
              graph_index num_graphs runtime_shape s items Hcache)
    as [Hm|(cg & handle & _ & _ & _ & _ & Hm)]; fold s' in Hm.
  - exists items. rewrite Hm. done.
  - exists (dict_set key handle items). rewrite Hm. split; [done|].
    split; [|split; [|done]].
    + intros k Hk. by apply dict_get_set_ne.
    + intros k Hsome. destruct (decide (k = key)) as [->|Hk].
      * rewrite dict_get_set_eq. by eexists.
      * by rewrite dict_get_set_ne.
Qed.

(** X9. A cache that is not a dictionary.  [initialize_cache] adopts any
    literal the file holds; when that literal is not a dictionary, a
    [compile] that would store a handle (cache enabled, the adaptor returns
    a callable and a handle) raises [TypeError] instead of returning, at
    the lookup or else at the store, and leaves the manager as it was. *)
Theorem compile_cache_not_a_dict
    (graph : list Fx.Node) (example_inputs : list Arg)
    (additional_inductor_config : pyval) (graph_index num_graphs : Z)
    (runtime_shape : option Z) (s : State)
    (compiled_graph : Callable) (handle : pyval) :
  (forall items, cache (manager s) <> PyDict items) ->
  VLLM_DISABLE_COMPILE_CACHE (envs s) = false ->
  compiler_compile (compiler (manager s)) graph example_inputs
    additional_inductor_config runtime_shape
    (artifact_key (compiler (manager s)) runtime_shape graph_index)
  = (Some compiled_graph, handle) ->
  handle <> PyNone ->
  let r := compile graph example_inputs additional_inductor_config
             graph_index num_graphs runtime_shape s in
  fst r = inl TypeError /\ manager (snd r) = manager s.
Proof.
  intros Hnot Henabled Hcomp Hne r. subst r. rewrite compile_eq. cbv zeta.
  fold (compile_start graph_index s).
  pose proof (compile_start_frame graph_index s) as (Hm & He & _).
  set (s2 := compile_start graph_index s) in *. clearbody s2.
  rewrite load_eq. cbv zeta. rewrite Hm.
  assert (forall key v,
            py_setitem (cache (manager s)) key v = inl TypeError
            /\ py_getitem (cache (manager s)) key = inl TypeError) as Hitem.
  { intros key v. destruct (cache (manager s)) eqn:E; try done.
    by destruct (Hnot items). }
  destruct (py_contains _ (cache (manager s))) as [e|[|]] eqn:Hin.
  - unfold py_contains in Hin.
    destruct (cache (manager s)) eqn:E; try done;
      try (injection Hin as <-; done).
    by destruct (Hnot items).
  - destruct (Hitem (cache_key runtime_shape graph_index
                       (compiler_name (compiler (manager s)))) PyNone)
      as [_ ->]. done.
  - cbn [fst snd events manager set_events]. rewrite Hm, Hcomp.
    unfold store_handle. cbn [envs manager set_events]. rewrite He, Henabled.
    rewrite pyval_eqb_neq by done. cbn [negb andb]. rewrite Hm.
    destruct (Hitem (cache_key runtime_shape graph_index
                       (compiler_name (compiler (manager s)))) handle)
      as [-> _]. done.
Qed.

(** X10. [save_to_file] needs [initialize_cache].  On a manager that
    [__init__] has just made, [save_to_file] raises [AttributeError]: the
    attribute [disable_cache] does not exist yet, and [compile] does not
    create it.  Once [initialize_cache] has returned, [save_to_file]
    returns. *)
Theorem save_to_file_needs_initialize_cache
    (pformat : pyval -> string) (prefix model_tag : string) (s : State) :
  save_to_file pformat (new_backend prefix model_tag s)
  = (inl (AttributeError "disable_cache"), new_backend prefix model_tag s)
  /\ (forall graph example_inputs additional_inductor_config graph_index
             num_graphs runtime_shape,
        fst (save_to_file pformat
               (snd (compile graph example_inputs additional_inductor_config
                       graph_index num_graphs runtime_shape
                       (new_backend prefix model_tag s))))
        = inl (AttributeError "disable_cache"))
  /\ (forall dir disable prefix' s1,
        initialize_cache dir disable prefix' s = (inr tt, s1) ->
        fst (save_to_file pformat s1) = inr tt).
Proof.
  split; [by rewrite save_to_file_eq|]. split.
  - intros. rewrite save_to_file_eq.
    rewrite (stable_disable_cache _ _ (compile_stable _ _ _ _ _ _ _)). done.
  - intros dir disable prefix' s1.
    rewrite initialize_cache_eq. cbv zeta.
    assert (forall s2,
              disable_cache (manager s2) = Some disable ->
              is_Some (cache_file_path (manager s2)) ->
              fst (save_to_file pformat s2) = inr tt) as Hsave.
    { intros s2 Hd [path Hp]. rewrite save_to_file_eq, Hd, Hp.
      by destruct (_ || _). }
    destruct (files s !! _).
    + destruct disable.
      * intros [= <-]. by apply Hsave.
      * destruct (literal_eval _); [done|]. intros [= <-]. by apply Hsave.
    + intros [= <-]. by apply Hsave.
Qed.

(** X11. A run that only loads leaves the cache file alone.  After
    [initialize_cache] on a manager whose dirty flag is unset and a
    [compile] that hits the cache, [save_to_file] returns without writing:
    the files are those [initialize_cache] found. *)
Theorem load_only_run_writes_nothing
    (pformat : pyval -> string) (dir prefix : string)
    (graph : list Fx.Node) (example_inputs : list Arg)
    (additional_inductor_config : pyval) (graph_index num_graphs : Z)
    (runtime_shape : option Z) (s s1 : State) (items : list (pyval * pyval))
    (handle : pyval) (compiled_graph : Callable) :
  is_cache_updated (manager s) = false ->
  initialize_cache dir false prefix s = (inr tt, s1) ->
  cache (manager s1) = PyDict items ->
  dict_get
    (cache_key runtime_shape graph_index (compiler_name (compiler (manager s1))))
    items = Some handle ->
  compiler_load (compiler (manager s1)) handle graph example_inputs graph_index
    runtime_shape = Some compiled_graph ->
  exists s2,
    compile graph example_inputs additional_inductor_config graph_index
      num_graphs runtime_shape s1 = (inr compiled_graph, s2)
    /\ save_to_file pformat s2 = (inr tt, s2)
    /\ files s2 = files s.
Proof.
  intros Hclean Hinit Hcache Hget Hload.
  assert (is_cache_updated (manager s1) = false
          /\ disable_cache (manager s1) = Some false
          /\ files s1 = files s) as (Hclean1 & Hdis1 & Hfiles1).
  { rewrite initialize_cache_eq in Hinit. cbv zeta in Hinit.
    destruct (files s !! _).
    - destruct (literal_eval _); [done|]. by injection Hinit as <-.
    - by injection Hinit as <-. }
  eexists. split; [by eapply compile_hit_eq|]. cbv zeta.
  pose proof (compile_start_frame graph_index s1) as (Hm & _ & _ & Hf & _).
  set (s2 := compile_start graph_index s1) in *. clearbody s2.
  split.
  - rewrite save_to_file_eq.
    destruct (bool_decide (graph_index = (num_graphs - 1)%Z)); simpl;
      by rewrite Hm, Hdis1, Hclean1.
  - destruct (bool_decide (graph_index = (num_graphs - 1)%Z)); simpl;
      by rewrite Hf.
Qed.

(** X12. [save_to_file] does not clear the dirty flag, so saving again
    writes the same text again: a second [save_to_file] changes nothing. *)
Theorem save_to_file_twice (pformat : pyval -> string) (s s1 : State) :
  save_to_file pformat s = (inr tt, s1) ->
  save_to_file pformat s1 = (inr tt, s1)
  /\ manager s1 = manager s.
Proof.
  rewrite !save_to_file_eq.
  destruct (disable_cache (manager s)) as [disabled|] eqn:Hd; [|done].
  destruct (disabled || negb (is_cache_updated (manager s))) eqn:Hskip.
  - intros [= <-]. by rewrite Hd, Hskip.
  - destruct (cache_file_path (manager s)) as [path|] eqn:Hp; [|done].
    intros [= <-]. cbn [manager set_files files]. rewrite Hd, Hskip, Hp.
    split; [|done]. unfold set_files. cbn. by rewrite insert_insert_eq.
Qed.

(** The handle the stand-alone adaptor of the examples returns for the
    first graph, and the key it is stored under. *)
Definition example_key : pyval :=
  PyTuple [PyNone; PyInt 0; PyStr "inductor_standalone"].

Definition example_handle : pyval :=
  PyTuple [PyStr "artifact_shape_None_subgraph_0"; PyStr "/cache"].

(** A manager that has compiled one graph with the cache enabled. *)
Definition warm_state : State :=
  snd (compile example_graph example_inputs (PyDict []) 0 1 None
         (example_state false true)).

Lemma compile_cache_hit_witness :
  exists s',
    compile example_graph example_inputs (PyDict []) 0 1 None warm_state
    = (inr (CompiledGraph "loaded"), s')
    /\ events s' = events warm_state ++ [AdaptorLoad example_handle 0 None]
    /\ manager s' = manager warm_state
    /\ files s' = files warm_state
    /\ backend s' = backend warm_state
    /\ config s' = config warm_state
    /\ compilation_counter s'
       = bump_backend_compilations (compilation_counter warm_state).
Proof.
  assert (cache (manager warm_state) = PyDict [(example_key, example_handle)])
    as Hcache by (vm_compute; reflexivity).
  assert (dict_get
            (cache_key None 0 (compiler_name (compiler (manager warm_state))))
            [(example_key, example_handle)] = Some example_handle)
    as Hget by (vm_compute; reflexivity).
  exact (compile_cache_hit example_graph example_inputs (PyDict []) 0 1 None
           warm_state _ example_handle (CompiledGraph "loaded")
           Hcache Hget eq_refl).
Defined.

Lemma load_after_compile_witness :
  let r := compile example_graph example_inputs (PyDict []) 0 1 None
             (example_state false true) in
  fst r = inr (CompiledGraph "standalone")
  /\ load example_graph example_inputs 0 None (snd r)
     = (inr (Some (CompiledGraph "loaded")),
        set_events (events (snd r) ++ [AdaptorLoad example_handle 0 None])
          (snd r))
  /\ forall index' shape',
       (shape', index') <> (None, 0%Z) ->
       fst (load example_graph example_inputs index' shape' (snd r))
       = fst (load example_graph example_inputs index' shape'
                (example_state false true)).
Proof.
  assert (fst (load example_graph example_inputs 0 None
                 (example_state false true)) = inr None)
    as Hmiss by (vm_compute; reflexivity).
  assert (example_handle <> PyNone) as Hne by done.
  exact (load_after_compile example_graph example_graph example_inputs
           example_inputs (PyDict []) 0 1 None (example_state false true) []
           (CompiledGraph "standalone") example_handle
           eq_refl eq_refl Hmiss eq_refl Hne).
Defined.

Lemma compile_keeps_other_entries_witness :
  exists items',
    cache (manager
             (snd (compile example_graph example_inputs (PyDict []) 1 2
                     (Some 8%Z) warm_state))) = PyDict items'
    /\ (forall k,
          k <> cache_key (Some 8%Z) 1
                 (compiler_name (compiler (manager warm_state))) ->
          dict_get k items' = dict_get k [(example_key, example_handle)])
    /\ (forall k,
          is_Some (dict_get k [(example_key, example_handle)]) ->
          is_Some (dict_get k items'))
    /\ (is_cache_updated (manager warm_state) = true ->
        is_cache_updated
          (manager
             (snd (compile example_graph example_inputs (PyDict []) 1 2
                     (Some 8%Z) warm_state))) = true).
Proof.
  assert (cache (manager warm_state) = PyDict [(example_key, example_handle)])
    as Hcache by (vm_compute; reflexivity).
  exact (compile_keeps_other_entries example_graph example_inputs (PyDict [])
           1 2 (Some 8%Z) warm_state _ Hcache).
Defined.

(** A manager that has read a cache file holding a list. *)
Definition list_cache_state : State :=
  snd (initialize_cache "/cache" false ""
         (set_files {["/cache/vllm_compile_cache.py" := "[]"]}
            (example_state false true))).

Lemma compile_cache_not_a_dict_witness :
  let r := compile example_graph example_inputs (PyDict []) 0 1 None
             list_cache_state in
  fst r = inl TypeError /\ manager (snd r) = manager list_cache_state.
Proof.
  assert (forall items, cache (manager list_cache_state) <> PyDict items)
    as Hnot by (intros items H; vm_compute in H; discriminate).
  assert (example_handle <> PyNone) as Hne by done.
  exact (compile_cache_not_a_dict example_graph example_inputs (PyDict []) 0 1
           None list_cache_state (CompiledGraph "standalone") example_handle
           Hnot eq_refl eq_refl Hne).
Defined.

(** A process that finds the cache file of an earlier run. *)
Definition restarted_state : State :=
  set_files
    {["/cache/vllm_compile_cache.py"
      := "{(None, 0, 'inductor_standalone'): ('artifact_shape_None_subgraph_0', '/cache')}"]}
    (example_state false true).

Lemma load_only_run_writes_nothing_witness :
  exists s2,
    compile example_graph example_inputs (PyDict []) 0 1 None
      (snd (initialize_cache "/cache" false "" restarted_state))
    = (inr (CompiledGraph "loaded"), s2)
    /\ save_to_file py_repr s2 = (inr tt, s2)
    /\ files s2 = files restarted_state.
Proof.
  assert (fst (initialize_cache "/cache" false "" restarted_state) = inr tt)
    as Hinit by (vm_compute; reflexivity).
  assert (cache (manager (snd (initialize_cache "/cache" false ""
                                 restarted_state)))
          = PyDict [(example_key, example_handle)])
    as Hcache by (vm_compute; reflexivity).
  assert (dict_get
            (cache_key None 0
               (compiler_name
                  (compiler
                     (manager (snd (initialize_cache "/cache" false ""
                                      restarted_state))))))
            [(example_key, example_handle)] = Some example_handle)
    as Hget by (vm_compute; reflexivity).
  exact (load_only_run_writes_nothing py_repr "/cache" "" example_graph
           example_inputs (PyDict []) 0 1 None restarted_state _ _
           example_handle (CompiledGraph "loaded")
           eq_refl (pair_of_fst _ _ Hinit) Hcache Hget eq_refl).
Defined.

Lemma save_to_file_twice_witness :
  save_to_file py_repr (snd (save_to_file py_repr saving_state))
  = (inr tt, snd (save_to_file py_repr saving_state))
  /\ manager (snd (save_to_file py_repr saving_state)) = manager saving_state.
Proof.
  assert (fst (save_to_file py_repr saving_state) = inr tt)
    as H by (vm_compute; reflexivity).
  exact (save_to_file_twice py_repr saving_state _ (pair_of_fst _ _ H)).
Defined.

(** ** VllmBackend.__call__: counters, files and failures *)

(** What the phases of [__call__] leave alone. *)

Lemma initialize_cache_rest dir disable prefix s :
  let s' := snd (initialize_cache dir disable prefix s) in
  config s' = config s
  /\ compilation_counter s' = compilation_counter s
  /\ clock s' = clock s
  /\ time_source s' = time_source s
  /\ torch_compile_start_time s' = torch_compile_start_time s
  /\ compiler (manager s') = compiler (manager s)
  /\ is_cache_updated (manager s') = is_cache_updated (manager s)
  /\ disable_cache (manager s') = Some disable
  /\ cache_file_path (manager s')
     = Some (path_join dir "vllm_compile_cache.py").
Proof.
  cbv zeta. rewrite initialize_cache_eq. cbv zeta.
  destruct (files s !! _); [|done].
  destruct disable; [done|]. by destruct (literal_eval _).
Qed.

Lemma configure_post_pass_rest s :
  let s' := snd (configure_post_pass s) in
  compilation_counter s' = compilation_counter s
  /\ clock s' = clock s
  /\ cache_dir (config s') = cache_dir (config s)
  /\ local_cache_dir (config s') = local_cache_dir (config s)
  /\ traced_files (config s') = traced_files (config s)
  /\ compilation_time (config s') = compilation_time (config s).
Proof.
  unfold configure_post_pass. run_monad.
  destruct (post_grad_custom_post_pass (config s)) as [[[]| |]|]; done.
Qed.

(** The interpreter compiles once for every target that is to be
    compiled. *)
Lemma run_targets_counters module names targets args : forall s s',
  run_targets module names targets args s = (inr tt, s') ->
  let n := length (filter (fun target => target ∈ names) targets) in
  let c := compilation_counter s in
  let c' := compilation_counter s' in
  num_backend_compilations c' = num_backend_compilations c + n
  /\ num_piecewise_capturable_graphs_seen c'
     = num_piecewise_capturable_graphs_seen c + n
  /\ num_graphs_seen c' = num_graphs_seen c
  /\ num_piecewise_graphs_seen c' = num_piecewise_graphs_seen c.
Proof.
  induction targets as [|target rest IH]; intros s s' Hrun.
  - injection Hrun as <-. simpl. lia.
  - cbn [run_targets] in Hrun. unfold bind in Hrun.
    rewrite call_module_eq in Hrun. rewrite filter_cons.
    destruct (decide (target ∈ names)) as [Hin|Hout].
    + rewrite bool_decide_eq_true_2 in Hrun by done.
      destruct (index_of target names) as [index|]; [|done].
      destruct (Fx.getattr _ _) as [submod|]; [|done].
      pose proof (compile_counters submod args
                    (inductor_compile_config (config s)) (Z.of_nat index)
                    (Z.of_nat (length names)) None s) as (H1 & H2 & H3 & H4 & _).
      destruct (compile _ _ _ _ _ _ _) as [[e|cg] s1]; cbn [snd] in *; [done|].
      apply IH in Hrun. cbv zeta in Hrun. cbn [length].
      destruct Hrun as (G1 & G2 & G3 & G4).
      cbn [compilation_counter set_counter set_events
           bump_capturable_graphs_seen num_backend_compilations
           num_piecewise_capturable_graphs_seen num_graphs_seen
           num_piecewise_graphs_seen] in G1, G2, G3, G4.
      cbv zeta. lia.
    + rewrite bool_decide_eq_false_2 in Hrun by done.
      by apply IH in Hrun.
Qed.

(** The targets of the stitched module that are to be compiled are the
    compilable items. *)
Lemma targets_to_compile split_ops parts :
  NoDup (map fst parts) ->
  length
    (filter (fun target => target ∈ names_to_compile (items_of split_ops parts))
       (map fst (Fx.children (stitched parts))))
  = length (filter compilable (items_of split_ops parts)).
Proof.
  intros Hkeys. unfold stitched. cbn [Fx.children]. rewrite map_map.
  cbn [fst].
  transitivity (length (filter (fun p => fst p ∉ split_ops) parts)).
  - assert (forall sub, sub ⊆ parts ->
              length
                (filter
                   (fun target =>
                      target ∈ names_to_compile (items_of split_ops parts))
                   (map (fun p => submod (fst p)) sub))
              = length (filter (fun p => fst p ∉ split_ops) sub)) as Hsub.
    { induction sub as [|[pid ns] sub IH]; intros Hsub; [done|].
      assert ((pid, ns) ∈ parts) as Hin by (apply Hsub; left).
      assert (sub ⊆ parts) as Hsub' by (intros x Hx; apply Hsub; by right).
      cbn [map fst]. rewrite !filter_cons. cbn [fst].
      destruct (decide (pid ∉ split_ops)) as [Hnot|Hyes].
      - rewrite decide_True by by eapply submod_in_names.
        cbn [length]. by rewrite IH.
      - rewrite decide_False; [by apply IH|].
        intros H. by eapply submod_in_names in H. }
    by apply Hsub.
  - unfold items_of.
    rewrite <- (length_map snd), <- compilable_of_parts, length_map.
    apply Permutation_length, filter_Permutation. symmetry.
    apply sort_by_graph_id_perm.
Qed.

Lemma finish_rest gm cfg local_cache_dir example_inputs s :
  let s' := snd (finish gm cfg local_cache_dir example_inputs s) in
  compilation_counter s' = compilation_counter s
  /\ config s' = config s
  /\ clock s' = clock s.
Proof.
  unfold finish. cbv zeta. case_bool_decide; destruct (negb _ || negb _);
    simpl; try done; destruct (clone_inputs _ _ _); done.
Qed.

(** X13. The counters of a call that returns.  [__call__] adds one to
    [num_graphs_seen], the number of items of the split to
    [num_piecewise_graphs_seen], and the number of items that are not
    splitting items both to [num_piecewise_capturable_graphs_seen] and to
    [num_backend_compilations]: each such item is compiled exactly once. *)
Theorem call_counters
    (traced : list Fx.Node) (example_inputs : list Arg) (s s' : State)
    (returned : Returned) :
  __call__ traced example_inputs s = (inr returned, s') ->
  exists split_gm items,
    split_graph traced (splitting_ops (config s)) = inr (split_gm, items)
    /\ let c := compilation_counter s in
       let c' := compilation_counter s' in
       let n := length (filter compilable items) in
       num_graphs_seen c' = S (num_graphs_seen c)
       /\ num_piecewise_graphs_seen c'
          = num_piecewise_graphs_seen c + length items
       /\ num_piecewise_capturable_graphs_seen c'
          = num_piecewise_capturable_graphs_seen c + n
       /\ num_backend_compilations c' = num_backend_compilations c + n.
Proof.
  rewrite call_eq. cbv zeta.
  assert (compilation_counter (derive_cache_dir s) = compilation_counter s
          /\ splitting_ops (config (derive_cache_dir s)) = splitting_ops (config s))
    as (Hc1 & Hops1) by (unfold derive_cache_dir; by case_bool_decide).
  set (s1 := derive_cache_dir s) in *. clearbody s1.
  set (s2 := set_local_cache_dir s1).
  assert (compilation_counter s2 = compilation_counter s
          /\ splitting_ops (config s2) = splitting_ops (config s))
    as (Hc2 & Hops2) by done.
  clearbody s2.
  pose proof (initialize_cache_rest (local_dir s1)
                (VLLM_DISABLE_COMPILE_CACHE (envs s2)) (prefix (backend s1)) s2)
    as (Hcfg3 & Hc3 & _).
  destruct (initialize_cache _ _ _ _) as [[e|[]] s3]; cbn [fst snd] in *;
    [done|].
  set (s4 := record_dynamo_time s3).
  assert (compilation_counter s4 = bump_graphs_seen (compilation_counter s)
          /\ splitting_ops (config s4) = splitting_ops (config s))
    as (Hc4 & Hops4).
  { subst s4. simpl. by rewrite Hc3, Hc2, Hcfg3, Hops2. }
  clearbody s4.
  destruct (_called (backend s4)); [done|].
  unfold split_and_compile.
  pose proof (configure_post_pass_frame s4) as (_ & _ & _ & _ & _ & Hops5).
  pose proof (configure_post_pass_rest s4) as (Hc5 & _).
  destruct (configure_post_pass s4) as [[e|[]] s5]; cbn [fst snd] in *;
    [done|].
  rewrite Hops5, Hops4. rewrite split_graph_items. cbv zeta.
  set (ops := splitting_ops (config s)).
  set (parts := group [] (assigned ops 0 traced)).
  fold (stitched parts). fold (items_of (split_ids ops 0 traced) parts).
  set (items := items_of (split_ids ops 0 traced) parts).
  set (s7 := set_counter _ _).
  assert (compilation_counter s7
          = add_piecewise_graphs_seen (length items)
              (bump_graphs_seen (compilation_counter s))) as Hc7
    by (subst s7; simpl; by rewrite Hc5, Hc4).
  clearbody s7.
  destruct (run _ _ _ s7) as [[e|[]] s8] eqn:Hrun; cbn [fst snd] in *; [done|].
  apply run_targets_counters in Hrun. cbv zeta in Hrun.
  match type of Hrun with
  | context [num_backend_compilations _ + ?n] => set (cnt := n) in Hrun
  end.
  assert (cnt = length (filter compilable items)) as Hcnt
    by exact (targets_to_compile _ parts (group_keys _)).
  clearbody cnt. subst cnt.
  pose proof (finish_rest (stitched parts) (config s5) (local_dir s1)
                example_inputs s8) as (Hc9 & _).
  intros Hfin. rewrite Hfin in Hc9. cbn [snd] in Hc9.
  exists (stitched parts), items. split; [done|].
  rewrite Hc9. rewrite Hc7 in Hrun. simpl in Hrun. simpl. lia.
Qed.

(** Cloning the example inputs at their symbolic positions cannot fail. *)
Lemma clone_inputs_total buffers example_inputs :
  exists cloned,
    clone_inputs buffers example_inputs (symbolic_indices 0 example_inputs)
    = inr cloned.
Proof.
  assert (forall indices,
            (forall index, index ∈ indices ->
               exists data, example_inputs !! index = Some (ArgTensor true data)) ->
            exists cloned, clone_inputs buffers example_inputs indices = inr cloned)
    as Hall.
  { induction indices as [|x rest IH]; intros Hsym; [by eexists|].
    destruct (Hsym x) as [data Hdata]; [left|].
    destruct IH as [cloned Hcloned]; [intros index Hin; apply Hsym; by right|].
    exists (data :: cloned). cbn [clone_inputs].
    rewrite Hdata. cbn [tensor_data]. by rewrite Hcloned. }
  apply Hall. intros index Hin. apply symbolic_indices_lookup in Hin.
  by rewrite Nat.sub_0_r in Hin.
Qed.

(** The last phase of [__call__] always returns. *)
Lemma finish_returns gm cfg local_cache_dir example_inputs s :
  exists returned,
    fst (finish gm cfg local_cache_dir example_inputs s) = inr returned.
Proof.
  unfold finish. cbv zeta. destruct (negb _ || negb _); [by eexists|].
  match goal with
  | |- context [clone_inputs ?buffers _ _] =>
      destruct (clone_inputs_total buffers example_inputs) as [cloned ->]
  end.
  by eexists.
Qed.

(** The flag and the buffers of the backend, which only the last phase
    writes. *)
Definition replay_fields (v : VllmBackend)
  : string * bool * list nat * list Tensor :=
  (prefix v, _called v, sym_tensor_indices v, input_buffers v).

(** X14. A call of [__call__] that raises leaves [_called] as it was, with
    the prefix, the recorded positions and the buffers of the backend: the
    flag is set by a call that returns and by no other, so an instance
    whose call failed is not marked as used. *)
Theorem call_failure_leaves_flag
    (traced : list Fx.Node) (example_inputs : list Arg) (s s' : State)
    (e : exn) :
  __call__ traced example_inputs s = (inl e, s') ->
  _called (backend s') = _called (backend s)
  /\ prefix (backend s') = prefix (backend s)
  /\ sym_tensor_indices (backend s') = sym_tensor_indices (backend s)
  /\ input_buffers (backend s') = input_buffers (backend s).
Proof.
  assert (forall s1 : State,
            replay_fields (backend s1) = replay_fields (backend s) ->
            _called (backend s1) = _called (backend s)
            /\ prefix (backend s1) = prefix (backend s)
            /\ sym_tensor_indices (backend s1) = sym_tensor_indices (backend s)
            /\ input_buffers (backend s1) = input_buffers (backend s)) as Hdone.
  { intros s1 [= -> -> -> ->]. done. }
  rewrite call_eq. cbv zeta.
  pose proof (derive_cache_dir_frame s) as (_ & _ & _ & Hb1 & _).
  set (s1 := derive_cache_dir s) in *. clearbody s1.
  set (s2 := set_local_cache_dir s1).
  assert (backend s2 = backend s) as Hb2 by done. clearbody s2.
  pose proof (initialize_cache_frame (local_dir s1)
                (VLLM_DISABLE_COMPILE_CACHE (envs s2)) (prefix (backend s1)) s2)
    as (_ & _ & Hb3 & _).
  destruct (initialize_cache _ _ _ _) as [[e3|[]] s3]; cbn [fst snd] in *.
  { intros [= _ <-]. apply Hdone. congruence. }
  set (s4 := record_dynamo_time s3).
  assert (backend s4 = backend s) as Hb4 by (subst s4; simpl; congruence).
  clearbody s4.
  destruct (_called (backend s4)) eqn:Hcalled.
  { intros [= _ <-]. apply Hdone. congruence. }
  unfold split_and_compile.
  pose proof (configure_post_pass_frame s4) as (_ & _ & Hb5 & _).
  destruct (configure_post_pass s4) as [[e5|[]] s5]; cbn [fst snd] in *.
  { intros [= _ <-]. apply Hdone. congruence. }
  destruct (split_graph _ _) as [e6|[gm items]].
  { intros [= _ <-]. apply Hdone. simpl. congruence. }
  cbv zeta. set (s7 := set_counter _ _).
  assert (replay_fields (backend s7) = replay_fields (backend s)) as Hb7.
  { subst s7. unfold replay_fields. simpl. by rewrite Hb5, Hb4. }
  clearbody s7.
  pose proof (run_stable gm
    (map submod_name (filter (fun item => is_splitting_graph item = false) items))
    example_inputs s7) as Hst.
  destruct (run _ _ _ s7) as [[e8|[]] s8]; cbn [fst snd] in *.
  { intros [= _ <-]. apply Hdone. by rewrite (stable_backend _ _ Hst). }
  destruct (finish_returns gm (config s5) (local_dir s1) example_inputs s8)
    as [returned Hret].
  intros Hfin. rewrite Hfin in Hret. done.
Qed.

(** The interpreter does not touch [traced_files]. *)
Lemma compile_traced_files graph example_inputs additional_inductor_config
    graph_index num_graphs runtime_shape s :
  traced_files
    (config (snd (compile graph example_inputs additional_inductor_config
                    graph_index num_graphs runtime_shape s)))
  = traced_files (config s).
Proof.
  rewrite compile_eq. cbv zeta. fold (compile_start graph_index s).
  pose proof (compile_start_frame graph_index s) as (_ & _ & _ & _ & Hc & _).
  set (s2 := compile_start graph_index s) in *. clearbody s2.
  pose proof (load_frame graph example_inputs graph_index runtime_shape s2)
    as (Hc3 & _).
  destruct (load _ _ _ _ s2) as [[e|[cg|]] s3]; cbn [fst snd] in *.
  - congruence.
  - destruct (bool_decide _); simpl; congruence.
  - set (s4 := set_events _ s3).
    assert (config s4 = config s) as Hc4 by (subst s4; simpl; congruence).
    clearbody s4.
    destruct (compiler_compile _ _ _ _ _ _) as [[cg|] handle]; cbn [fst snd];
      [|congruence].
    pose proof (store_handle_frame runtime_shape graph_index handle s4)
      as (Hc5 & _).
    destruct (store_handle _ _ _ _) as [[e|[]] s5]; cbn [fst snd] in *;
      [congruence|].
    destruct (bool_decide _); simpl; congruence.
Qed.

Lemma run_targets_traced_files module names targets args : forall s,
  traced_files (config (snd (run_targets module names targets args s)))
  = traced_files (config s).
Proof.
  induction targets as [|target rest IH]; intros s; [done|].
  cbn [run_targets]. unfold bind.
  assert (traced_files (config (snd (call_module module names target args s)))
          = traced_files (config s)) as Hcall.
  { rewrite call_module_eq.
    destruct (bool_decide _); [|done].
    destruct (index_of _ _) as [index|]; [|done].
    destruct (Fx.getattr _ _) as [submod|]; [|done].
    pose proof (compile_traced_files submod args
                  (inductor_compile_config (config s)) (Z.of_nat index)
                  (Z.of_nat (length names)) None s) as H.
    destruct (compile _ _ _ _ _ _ _) as [[e|cg] s1]; done. }
  destruct (call_module _ _ _ _ _) as [[e|[]] s1]; cbn [snd] in *; [done|].
  by rewrite IH.
Qed.

(** The cache directory [__call__] settles on. *)
Definition settled_cache_dir (s : State) : string :=
  if bool_decide (cache_dir (config s) = "")
  then path_join (path_join (VLLM_CACHE_ROOT (envs s)) "torch_compile_cache")
         (hash_key (envs s))
  else cache_dir (config s).

(** What a call that returns leaves in the configuration and in the
    manager. *)
Lemma call_layout
    (traced : list Fx.Node) (example_inputs : list Arg) (s s' : State)
    (returned : Returned) :
  __call__ traced example_inputs s = (inr returned, s') ->
  cache_dir (config s') = settled_cache_dir s
  /\ traced_files (config s')
     = (if bool_decide (cache_dir (config s) = "") then []
        else traced_files (config s))
  /\ local_cache_dir (config s')
     = path_join
         (path_join (settled_cache_dir s)
            ("rank_" +:+ str_of_Z (rank s) +:+ "_"
             +:+ str_of_Z (data_parallel_rank s)))
         (prefix (backend s))
  /\ cache_file_path (manager s')
     = Some (path_join (local_cache_dir (config s')) "vllm_compile_cache.py")
  /\ disable_cache (manager s') = Some (VLLM_DISABLE_COMPILE_CACHE (envs s))
  /\ local_dir s' = local_cache_dir (config s').
Proof.
  intros Hcall.
  pose proof (call_returns _ _ _ _ _ Hcall) as (_ & Hloc & _).
  apply located_local_dir in Hloc. revert Hcall.
  rewrite call_eq. cbv zeta.
  assert (cache_dir (config (derive_cache_dir s)) = settled_cache_dir s
          /\ traced_files (config (derive_cache_dir s))
             = (if bool_decide (cache_dir (config s) = "") then []
                else traced_files (config s))) as (Hd1 & Ht1).
  { unfold derive_cache_dir, settled_cache_dir. by case_bool_decide. }
  pose proof (derive_cache_dir_frame s) as (He1 & Hr1 & Hdp1 & Hb1 & _).
  assert (local_dir (derive_cache_dir s)
          = path_join
              (path_join (settled_cache_dir s)
                 ("rank_" +:+ str_of_Z (rank s) +:+ "_"
                  +:+ str_of_Z (data_parallel_rank s)))
              (prefix (backend s))) as Hlocal.
  { unfold local_dir. by rewrite Hd1, Hr1, Hdp1, Hb1. }
  set (s1 := derive_cache_dir s) in *. clearbody s1.
  set (s2 := set_local_cache_dir s1).
  assert (cache_dir (config s2) = settled_cache_dir s
          /\ traced_files (config s2)
             = (if bool_decide (cache_dir (config s) = "") then []
                else traced_files (config s))
          /\ local_cache_dir (config s2) = local_dir s1
          /\ envs s2 = envs s) as (Hd2 & Ht2 & Hl2 & He2) by done.
  clearbody s2. rewrite He2.
  pose proof (initialize_cache_rest (local_dir s1)
                (VLLM_DISABLE_COMPILE_CACHE (envs s)) (prefix (backend s1)) s2)
    as (Hcfg3 & _ & _ & _ & _ & _ & _ & Hdis3 & Hpath3).
  destruct (initialize_cache _ _ _ _) as [[e|[]] s3]; cbn [fst snd] in *;
    [done|].
  set (s4 := record_dynamo_time s3).
  assert (cache_dir (config s4) = settled_cache_dir s
          /\ traced_files (config s4)
             = (if bool_decide (cache_dir (config s) = "") then []
                else traced_files (config s))
          /\ local_cache_dir (config s4) = local_dir s1
          /\ manager s4 = manager s3) as (Hd4 & Ht4 & Hl4 & Hm4).
  { subst s4. simpl. by rewrite Hcfg3. }
  clearbody s4.
  destruct (_called (backend s4)); [done|].
  unfold split_and_compile.
  pose proof (configure_post_pass_frame s4) as (_ & _ & _ & _ & Hm5 & _).
  pose proof (configure_post_pass_rest s4) as (_ & _ & Hd5 & Hl5 & Ht5 & _).
  destruct (configure_post_pass s4) as [[e|[]] s5]; cbn [fst snd] in *;
    [done|].
  destruct (split_graph _ _) as [e|[gm items]]; [done|]. cbv zeta.
  set (s7 := set_counter _ _).
  assert (config s7 = config s5 /\ manager s7 = manager s5) as (Hc7 & Hm7)
    by done.
  clearbody s7.
  pose proof (run_stable gm
    (map submod_name (filter (fun item => is_splitting_graph item = false) items))
    example_inputs s7) as Hst.
  pose proof (run_targets_traced_files gm
    (map submod_name (filter (fun item => is_splitting_graph item = false) items))
    (map fst (Fx.children gm)) example_inputs s7) as Ht8.
  fold (run gm
          (map submod_name
             (filter (fun item => is_splitting_graph item = false) items))
          example_inputs s7) in Ht8.
  destruct (run _ _ _ s7) as [[e|[]] s8]; cbn [fst snd] in *; [done|].
  pose proof (finish_rest gm (config s5) (local_dir s1) example_inputs s8)
    as (_ & Hc9 & _).
  pose proof (finish_frame gm (config s5) (local_dir s1) example_inputs s8)
    as (_ & _ & _ & _ & Hm9).
  intros Hfin. rewrite Hfin in *. cbn [fst snd] in *.
  rewrite Hc9, Hm9.
  rewrite (stable_cache_dir _ _ Hst), (stable_local_cache_dir _ _ Hst),
    (stable_cache_file_path _ _ Hst), (stable_disable_cache _ _ Hst).
  rewrite Ht8, Hc7, Hm7, Hd5, Hl5, Ht5, Hm5, Hm4, Hd4, Ht4, Hl4, Hdis3, Hpath3.
  by rewrite Hloc, Hlocal.
Qed.

(** X15. Where the cache lives.  A call of [__call__] that returns has
    kept the configured [cache_dir], or, when none was configured, has set
    it to [<VLLM_CACHE_ROOT>/torch_compile_cache/<hash_key>] and cleared
    [traced_files]; [local_cache_dir] is
    [<cache_dir>/rank_<rank>_<data_parallel_rank>/<prefix>]; and the
    manager keeps its cache in [vllm_compile_cache.py] in that directory,
    disabled as the environment says. *)
Theorem call_cache_layout
    (traced : list Fx.Node) (example_inputs : list Arg) (s s' : State)
    (returned : Returned) :
  __call__ traced example_inputs s = (inr returned, s') ->
  cache_dir (config s') = settled_cache_dir s
  /\ traced_files (config s')
     = (if bool_decide (cache_dir (config s) = "") then []
        else traced_files (config s))
  /\ local_cache_dir (config s')
     = path_join
         (path_join (settled_cache_dir s)
            ("rank_" +:+ str_of_Z (rank s) +:+ "_"
             +:+ str_of_Z (data_parallel_rank s)))
         (prefix (backend s))
  /\ cache_file_path (manager s')
     = Some (path_join (local_cache_dir (config s')) "vllm_compile_cache.py")
  /\ disable_cache (manager s') = Some (VLLM_DISABLE_COMPILE_CACHE (envs s)).
Proof.
  intros Hcall.
  destruct (call_layout _ _ _ _ _ Hcall) as (H1 & H2 & H3 & H4 & H5 & _).
  done.
Qed.

(** X16. [__call__] writes one file at most, [computation_graph.py] in the
    local cache directory, and only when no such file exists: every other
    file, the cache file among them, is as it was whatever the outcome of
    the call, an existing [computation_graph.py] is never overwritten, and
    after a call that returns the file exists. *)
Theorem call_writes_one_file
    (traced : list Fx.Node) (example_inputs : list Arg) (s : State) :
  let graph_path :=
    path_join (local_dir (derive_cache_dir s)) "computation_graph.py" in
  let r := __call__ traced example_inputs s in
  (forall path, path <> graph_path -> files (snd r) !! path = files s !! path)
  /\ (forall text,
        files s !! graph_path = Some text ->
        files (snd r) !! graph_path = Some text)
  /\ (forall returned,
        fst r = inr returned -> is_Some (files (snd r) !! graph_path)).
Proof.
  intros graph_path r.
  assert (forall s1 : State, files s1 = files s ->
            (forall path, path <> graph_path -> files s1 !! path = files s !! path)
            /\ (forall text,
                  files s !! graph_path = Some text ->
                  files s1 !! graph_path = Some text)) as Hsame.
  { intros s1 ->. done. }
  subst r. rewrite call_eq. cbv zeta.
  pose proof (derive_cache_dir_frame s) as (_ & _ & _ & _ & Hf1 & _).
  subst graph_path.
  set (s1 := derive_cache_dir s) in *. clearbody s1.
  set (s2 := set_local_cache_dir s1).
  assert (files s2 = files s) as Hf2 by done. clearbody s2.
  pose proof (initialize_cache_frame (local_dir s1)
                (VLLM_DISABLE_COMPILE_CACHE (envs s2)) (prefix (backend s1)) s2)
    as (_ & Hf3 & _).
  destruct (initialize_cache _ _ _ _) as [[e3|[]] s3]; cbn [fst snd] in *.
  { destruct (Hsame s3) as [H1 H2]; [congruence|]. done. }
  set (s4 := record_dynamo_time s3).
  assert (files s4 = files s) as Hf4 by (subst s4; simpl; congruence).
  clearbody s4.
  destruct (_called (backend s4)); cbn [fst snd].
  { destruct (Hsame s4) as [H1 H2]; [congruence|]. done. }
  unfold split_and_compile.
  pose proof (configure_post_pass_frame s4) as (_ & Hf5 & _).
  destruct (configure_post_pass s4) as [[e5|[]] s5]; cbn [fst snd] in *.
  { destruct (Hsame s5) as [H1 H2]; [congruence|]. done. }
  destruct (split_graph _ _) as [e6|[gm items]]; cbn [fst snd].
  { destruct (Hsame (set_events (events s5 ++ [SplitModule traced]) s5))
      as [H1 H2]; [simpl; congruence|]. done. }
  cbv zeta. set (s7 := set_counter _ _).
  assert (files s7 = files s) as Hf7 by (subst s7; simpl; congruence).
  clearbody s7.
  pose proof (run_stable gm
    (map submod_name (filter (fun item => is_splitting_graph item = false) items))
    example_inputs s7) as Hst.
  destruct (run _ _ _ s7) as [[e8|[]] s8]; cbn [fst snd] in *.
  { destruct (Hsame s8) as [H1 H2]; [by rewrite (stable_files _ _ Hst)|]. done. }
  assert (files s8 = files s) as Hf8 by by rewrite (stable_files _ _ Hst).
  clear Hsame. unfold finish. cbv zeta.
  set (graph_path := path_join (local_dir s1) "computation_graph.py").
  set (s9 := if bool_decide (files s8 !! graph_path = None) then _ else s8).
  assert ((forall path, path <> graph_path -> files s9 !! path = files s !! path)
          /\ (forall text,
                files s !! graph_path = Some text ->
                files s9 !! graph_path = Some text)
          /\ is_Some (files s9 !! graph_path)) as (H1 & H2 & H3).
  { subst s9. case_bool_decide as Hnone.
    - cbn [files set_files]. split; [|split].
      + intros path Hne. rewrite lookup_insert_ne by done. by rewrite Hf8.
      + intros text Htext. rewrite Hf8, Htext in Hnone. done.
      + rewrite lookup_insert_eq. by eexists.
    - rewrite Hf8 in *. split; [done|]. split; [done|].
      by destruct (files s !! graph_path); [eexists|]. }
  clearbody s9.
  destruct (negb _ || negb _); cbn [fst snd files set_backend]; [done|].
  destruct (clone_inputs _ _ _); cbn [fst snd files set_backend]; done.
Qed.

(** X17. The assertion on [_called] comes late.  A second call on an
    instance whose first call returned raises the assertion only after it
    has counted the graph, initialized the cache of the adaptor once more
    and added Dynamo's time to [compilation_time]. *)
Theorem second_call_side_effects
    (graph1 graph2 : list Fx.Node) (inputs1 inputs2 : list Arg)
    (s s1 : State) (returned : Returned) :
  __call__ graph1 inputs1 s = (inr returned, s1) ->
  exists s2,
    __call__ graph2 inputs2 s1
    = (inl (AssertionError "VllmBackend can only be called once"), s2)
    /\ num_graphs_seen (compilation_counter s2)
       = S (num_graphs_seen (compilation_counter s1))
    /\ events s2
       = events s1
         ++ [AdaptorInitializeCache (local_cache_dir (config s1))
               (VLLM_DISABLE_COMPILE_CACHE (envs s1)) (prefix (backend s1))]
    /\ clock s2 = S (clock s1)
    /\ compilation_time (config s2)
       = (compilation_time (config s1)
          + (time_source s1 (clock s1) - torch_compile_start_time s1))%float.
Proof.
  intros Hcall.
  pose proof (call_returns _ _ _ _ _ Hcall) as (Hcalled & Hloc & Hfile & Hparse).
  pose proof (call_layout _ _ _ _ _ Hcall) as (_ & _ & _ & _ & _ & Hlocal).
  rewrite call_eq. cbv zeta.
  assert (derive_cache_dir s1 = s1) as ->.
  { apply derive_cache_dir_idem. rewrite (located_cache_dir _ _ Hloc).
    apply derive_cache_dir_nonempty. }
  rewrite <- Hlocal.
  rewrite (located_local_dir _ _ Hloc).
  set (s2 := set_local_cache_dir s1).
  assert (files s2 = files s1 /\ backend s2 = backend s1
          /\ events s2 = events s1 /\ envs s2 = envs s1
          /\ compilation_counter s2 = compilation_counter s1
          /\ clock s2 = clock s1 /\ time_source s2 = time_source s1
          /\ torch_compile_start_time s2 = torch_compile_start_time s1
          /\ compilation_time (config s2) = compilation_time (config s1))
    as (Hf2 & Hb2 & Hev2 & He2 & Hc2 & Hcl2 & Hts2 & Hst2 & Hct2) by done.
  rewrite He2.
  pose proof (initialize_cache_frame (local_dir (derive_cache_dir s))
                (VLLM_DISABLE_COMPILE_CACHE (envs s1)) (prefix (backend s1)) s2)
    as (_ & _ & Hb3 & _).
  pose proof (initialize_cache_rest (local_dir (derive_cache_dir s))
                (VLLM_DISABLE_COMPILE_CACHE (envs s1)) (prefix (backend s1)) s2)
    as (Hcfg3 & Hc3 & Hcl3 & Hts3 & Hst3 & _).
  assert (exists s3,
            initialize_cache (local_dir (derive_cache_dir s))
              (VLLM_DISABLE_COMPILE_CACHE (envs s1)) (prefix (backend s1)) s2
            = (inr tt, s3)
            /\ events s3
               = events s1
                 ++ [AdaptorInitializeCache (local_dir (derive_cache_dir s))
                       (VLLM_DISABLE_COMPILE_CACHE (envs s1))
                       (prefix (backend s1))]) as (s3 & Hinit & Hev3).
  { rewrite initialize_cache_eq. cbv zeta. rewrite Hf2, Hfile.
    pose proof (derive_cache_dir_frame s) as (He & _).
    rewrite (located_envs _ _ Hloc), He.
    destruct (files s !! _) as [text|] eqn:Htext.
    - destruct (VLLM_DISABLE_COMPILE_CACHE (envs s)) eqn:Hdis.
      + eexists. split; [reflexivity|]. done.
      + destruct (Hparse eq_refl text eq_refl) as [v ->].
        eexists. split; [reflexivity|]. done.
    - eexists. split; [reflexivity|]. done. }
  rewrite Hinit in *. cbn [fst snd] in *.
  exists (record_dynamo_time s3).
  replace (_called (backend (record_dynamo_time s3))) with true
    by (simpl; by rewrite Hb3, Hb2, Hcalled).
  split; [done|]. simpl.
  rewrite Hc3, Hc2, Hev3, Hcl3, Hcl2, Hcfg3, Hct2, Hts3, Hts2, Hst3, Hst2.
  done.
Qed.

(** ** VllmBackend.__call__: what it returns *)

(** The buffers are the tensors of the example inputs at the given
    positions. *)
Lemma clone_inputs_data buffers example_inputs indices cloned :
  (forall index, index ∈ indices ->
     exists data, example_inputs !! index = Some (ArgTensor true data)) ->
  clone_inputs buffers example_inputs indices = inr cloned ->
  Forall2
    (fun index buffer => example_inputs !! index = Some (ArgTensor true buffer))
    indices cloned.
Proof.
  revert cloned. induction indices as [|x rest IH]; intros cloned Hsym.
  - intros [= <-]. constructor.
  - cbn [clone_inputs]. destruct (Hsym x) as [data Hdata]; [left|].
    rewrite Hdata. cbn [tensor_data].
    destruct (clone_inputs buffers example_inputs rest) as [e|l] eqn:Hrest;
      [done|].
    intros [= <-]. constructor; [done|].
    apply IH; [|done]. intros index Hin. apply Hsym. by right.
Qed.

(** The flags of the configuration that [__call__] reads at its end are
    those it was called with. *)
Definition copy_flags (s : State) : bool * bool * list string :=
  (use_cudagraph (config s), cudagraph_copy_inputs (config s),
   splitting_ops (config s)).

(** X18. What a call of [__call__] that returns hands to Dynamo.  With
    [use_cudagraph] and [cudagraph_copy_inputs] both set it returns
    [copy_and_call], having recorded the positions of the example inputs
    that are tensors with a symbolic dimension, in ascending order, and
    cloned the tensor at each into a buffer.  With one of the two unset it
    returns the stitched module itself and leaves the recorded positions
    and the buffers as they were. *)
Theorem call_returned_callable
    (traced : list Fx.Node) (example_inputs : list Arg) (s s' : State)
    (returned : Returned) :
  __call__ traced example_inputs s = (inr returned, s') ->
  if use_cudagraph (config s) && cudagraph_copy_inputs (config s)
  then returned = ReturnCopyAndCall
       /\ sym_tensor_indices (backend s') = symbolic_indices 0 example_inputs
       /\ Forall2
            (fun index buffer =>
               example_inputs !! index = Some (ArgTensor true buffer))
            (sym_tensor_indices (backend s')) (input_buffers (backend s'))
  else (exists split_gm items,
          split_graph traced (splitting_ops (config s)) = inr (split_gm, items)
          /\ returned = ReturnSplitGm split_gm)
       /\ sym_tensor_indices (backend s') = sym_tensor_indices (backend s)
       /\ input_buffers (backend s') = input_buffers (backend s).
Proof.
  rewrite call_eq. cbv zeta.
  assert (copy_flags (derive_cache_dir s) = copy_flags s) as Hf1
    by (unfold derive_cache_dir; by case_bool_decide).
  pose proof (derive_cache_dir_frame s) as (_ & _ & _ & Hb1 & _).
  set (s1 := derive_cache_dir s) in *. clearbody s1.
  set (s2 := set_local_cache_dir s1).
  assert (copy_flags s2 = copy_flags s /\ backend s2 = backend s)
    as (Hf2 & Hb2) by done.
  clearbody s2.
  pose proof (initialize_cache_rest (local_dir s1)
                (VLLM_DISABLE_COMPILE_CACHE (envs s2)) (prefix (backend s1)) s2)
    as (Hcfg3 & _).
  pose proof (initialize_cache_frame (local_dir s1)
                (VLLM_DISABLE_COMPILE_CACHE (envs s2)) (prefix (backend s1)) s2)
    as (_ & _ & Hb3 & _).
  destruct (initialize_cache _ _ _ _) as [[e|[]] s3]; cbn [fst snd] in *;
    [done|].
  set (s4 := record_dynamo_time s3).
  assert (copy_flags s4 = copy_flags s /\ backend s4 = backend s)
    as (Hf4 & Hb4).
  { subst s4. unfold copy_flags in *. simpl. rewrite Hcfg3. split; congruence. }
  clearbody s4.
  destruct (_called (backend s4)); [done|].
  unfold split_and_compile.
  pose proof (configure_post_pass_frame s4) as (_ & _ & Hb5 & _).
  assert (copy_flags (snd (configure_post_pass s4)) = copy_flags s4) as Hf5.
  { unfold configure_post_pass. run_monad.
    destruct (post_grad_custom_post_pass (config s4)) as [[[]| |]|]; done. }
  destruct (configure_post_pass s4) as [[e|[]] s5]; cbn [fst snd] in *;
    [done|].
  rewrite Hf4 in Hf5. injection Hf5 as Hcg Hcopy Hops. rewrite Hops.
  destruct (split_graph _ _) as [e|[gm items]]; [done|].
  cbv zeta. set (s7 := set_counter _ _).
  assert (sym_tensor_indices (backend s7) = sym_tensor_indices (backend s)
          /\ input_buffers (backend s7) = input_buffers (backend s))
    as (Hi7 & Hbuf7).
  { subst s7. simpl. by rewrite Hb5, Hb4. }
  clearbody s7.
  pose proof (run_stable gm
    (map submod_name (filter (fun item => is_splitting_graph item = false) items))
    example_inputs s7) as Hst.
  destruct (run _ _ _ s7) as [[e|[]] s8]; cbn [fst snd] in *; [done|].
  apply stable_backend in Hst.
  unfold finish. cbv zeta. rewrite Hcg, Hcopy.
  destruct (use_cudagraph (config s)), (cudagraph_copy_inputs (config s));
    cbn [negb orb andb].
  - destruct (clone_inputs _ _ _) as [e|cloned] eqn:Hclone; [done|].
    intros [= <- <-]. split; [done|]. split; [done|].
    cbn [backend set_backend sym_tensor_indices input_buffers].
    eapply clone_inputs_data; [|done].
    intros index Hin. apply symbolic_indices_lookup in Hin.
    by rewrite Nat.sub_0_r in Hin.
  - intros [= <- <-]. split; [by exists gm, items|].
    case_bool_decide; simpl; by rewrite Hst.
  - intros [= <- <-]. split; [by exists gm, items|].
    case_bool_decide; simpl; by rewrite Hst.
  - intros [= <- <-]. split; [by exists gm, items|].
    case_bool_decide; simpl; by rewrite Hst.
Qed.

(** ** PiecewiseCompileInterpreter: the order of the piecewise backends *)

(** The piecewise backends installed, in order: for each
    [InstallPiecewiseBackend] event its target, its index and the total. *)
Definition installed (evs : list Event) : list (string * nat * nat) :=
  omap
    (fun e =>
       match e with
       | InstallPiecewiseBackend target index total => Some (target, index, total)
       | _ => None
       end)
    evs.

Lemma installed_app evs1 evs2 :
  installed (evs1 ++ evs2) = installed evs1 ++ installed evs2.
Proof. apply omap_app. Qed.

Lemma compile_installed graph example_inputs additional_inductor_config
    graph_index num_graphs runtime_shape s :
  installed
    (events (snd (compile graph example_inputs additional_inductor_config
                    graph_index num_graphs runtime_shape s)))
  = installed (events s).
Proof.
  rewrite compile_eq. cbv zeta. fold (compile_start graph_index s).
  pose proof (compile_start_frame graph_index s) as Hstart.
  assert (events (compile_start graph_index s) = events s) as Hev
    by (unfold compile_start; by case_bool_decide).
  clear Hstart.
  set (s2 := compile_start graph_index s) in *. clearbody s2.
  assert (installed
            (events (snd (load graph example_inputs graph_index runtime_shape s2)))
          = installed (events s)) as Hload.
  { destruct (load_state graph example_inputs graph_index runtime_shape s2)
      as [->|[h ->]]; [by rewrite Hev|].
    simpl. rewrite installed_app, Hev. simpl. by rewrite app_nil_r. }
  destruct (load _ _ _ _ s2) as [[e|[cg|]] s3]; cbn [snd] in *; [done| |].
  - by destruct (bool_decide _).
  - destruct (compiler_compile _ _ _ _ _ _) as [[cg|] handle]; cbn [snd].
    + match goal with
      | |- context [store_handle ?rs ?gi ?h ?st] =>
          pose proof (store_handle_frame rs gi h st)
            as (_ & _ & _ & _ & _ & Hst & _)
      end.
      destruct (store_handle _ _ _ _) as [[e|[]] s5]; cbn [snd] in *.
      * rewrite Hst. simpl. rewrite installed_app, Hload. simpl.
        by rewrite app_nil_r.
      * assert (installed (events s5) = installed (events s)) as H5.
        { rewrite Hst. simpl. rewrite installed_app, Hload. simpl.
          by rewrite app_nil_r. }
        by destruct (bool_decide _).
    + simpl. rewrite installed_app, Hload. simpl. by rewrite app_nil_r.
Qed.

(** Each target that is to be compiled is installed with its position in
    the list of names and the length of that list. *)
Lemma run_targets_installed module names targets args : forall s s',
  run_targets module names targets args s = (inr tt, s') ->
  installed (events s')
  = installed (events s)
    ++ map (fun target => (target, default 0 (index_of target names), length names))
         (filter (fun target => target ∈ names) targets).
Proof.
  induction targets as [|target rest IH]; intros s s' Hrun.
  - injection Hrun as <-. by rewrite app_nil_r.
  - cbn [run_targets] in Hrun. unfold bind in Hrun.
    rewrite call_module_eq in Hrun. rewrite filter_cons.
    destruct (decide (target ∈ names)) as [Hin|Hout].
    + rewrite bool_decide_eq_true_2 in Hrun by done.
      destruct (index_of target names) as [index|] eqn:Hindex; [|done].
      destruct (Fx.getattr _ _) as [submod|]; [|done].
      pose proof (compile_installed submod args
                    (inductor_compile_config (config s)) (Z.of_nat index)
                    (Z.of_nat (length names)) None s) as Hc.
      destruct (compile _ _ _ _ _ _ _) as [[e|cg] s1]; cbn [snd] in *; [done|].
      apply IH in Hrun. rewrite Hrun. cbn [events set_counter set_events].
      rewrite installed_app, Hc. cbn [map]. rewrite <- app_assoc, Hindex. done.
    + rewrite bool_decide_eq_false_2 in Hrun by done.
      by apply IH in Hrun.
Qed.

Lemma index_of_lookup names : forall i target,
  NoDup names -> names !! i = Some target -> index_of target names = Some i.
Proof.
  induction names as [|n rest IH]; intros i target Hnd Hi; [done|].
  apply NoDup_cons in Hnd as [Hn Hnd]. cbn [index_of].
  destruct i as [|i]; simpl in Hi.
  - injection Hi as ->. by rewrite decide_True.
  - rewrite decide_False.
    + by rewrite (IH i target Hnd Hi).
    + intros ->. apply Hn. by eapply list_elem_of_lookup_2.
Qed.

Lemma fmap_inj_on {A B : Type} (f : A -> B) (l : list A) x y :
  NoDup (map f l) -> x ∈ l -> y ∈ l -> f x = f y -> x = y.
Proof.
  induction l as [|a l IH]; intros Hnd Hx Hy Hf; [by apply elem_of_nil in Hx|].
  cbn [map] in Hnd. apply NoDup_cons in Hnd as [Ha Hnd].
  apply elem_of_cons in Hx as [->|Hx]; apply elem_of_cons in Hy as [->|Hy].
  - done.
  - exfalso. apply Ha. rewrite Hf. apply list_elem_of_fmap. by exists y.
  - exfalso. apply Ha. rewrite <- Hf. apply list_elem_of_fmap. by exists x.
  - by apply IH.
Qed.

(** The targets of the stitched module that are to be compiled, in the
    order of the module, are the names of the compilable items. *)
Lemma compiled_targets (items : list SplitItem) :
  NoDup (map submod_name items) ->
  filter (fun target => target ∈ map submod_name (filter compilable items))
    (map submod_name items)
  = map submod_name (filter compilable items).
Proof.
  intros Hnd.
  assert (forall sub, sub ⊆ items ->
            filter
              (fun target => target ∈ map submod_name (filter compilable items))
              (map submod_name sub)
            = map submod_name (filter compilable sub)) as Hsub.
  { induction sub as [|item sub IH]; intros Hsub; [done|].
    assert (item ∈ items) as Hin by (apply Hsub; left).
    assert (sub ⊆ items) as Hsub' by (intros x Hx; apply Hsub; by right).
    cbn [map]. rewrite !filter_cons.
    destruct (decide (compilable item)) as [Hc|Hc].
    - rewrite decide_True.
      + cbn [map]. by rewrite IH.
      + apply list_elem_of_fmap. exists item. split; [done|].
        by apply list_elem_of_filter.
    - rewrite decide_False; [by apply IH|].
      intros [other [Hname [Hco Hother]%list_elem_of_filter]]%list_elem_of_fmap.
      apply Hc. by rewrite (fmap_inj_on submod_name items item other). }
  by apply Hsub.
Qed.

Lemma fmap_index_of (names : list string) (n : nat) :
  NoDup names ->
  map (fun target => (target, default 0 (index_of target names), n)) names
  = imap (fun i target => (target, i, n)) names.
Proof.
  intros Hnd. apply list_eq. intros i.
  rewrite list_lookup_fmap, list_lookup_imap.
  destruct (names !! i) as [target|] eqn:Hi; [|done].
  simpl. by rewrite (index_of_lookup names i target Hnd Hi).
Qed.

(** The interpreter on a stitched module whose submodules are the items:
    the compilable items are installed in the order of the module, the
    [i]-th of them with index [i]. *)
Lemma run_installed (gm : Fx.GraphModule) (items : list SplitItem)
    (args : list Arg) (s s' : State) :
  map fst (Fx.children gm) = map submod_name items ->
  NoDup (map submod_name items) ->
  run gm (map submod_name (filter compilable items)) args s = (inr tt, s') ->
  installed (events s')
  = installed (events s)
    ++ imap
         (fun i item =>
            (submod_name item, i, length (filter compilable items)))
         (filter compilable items).
Proof.
  intros Hchildren Hnd Hrun. unfold run in Hrun.
  apply run_targets_installed in Hrun. rewrite Hrun. f_equal.
  rewrite Hchildren, compiled_targets by done.
  rewrite fmap_index_of.
  - rewrite length_map. by rewrite imap_fmap.
  - eapply sublist_NoDup; [exact Hnd|].
    apply (fmap_sublist submod_name), sublist_filter.
Qed.

Lemma initialize_cache_installed dir disable prefix s :
  installed (events (snd (initialize_cache dir disable prefix s)))
  = installed (events s).
Proof.
  rewrite initialize_cache_eq. cbv zeta.
  destruct (files s !! _); [destruct disable; [|destruct (literal_eval _)]|];
    simpl; rewrite ?installed_app; simpl; by rewrite ?app_nil_r.
Qed.

(** X19. The order of the piecewise backends.  In a call of [__call__]
    that returns, the interpreter installs a piecewise backend for every
    item of the split that is not a splitting item and for no other, in
    the order of the items; the [i]-th of these items is compiled and
    installed with graph index [i], and each with the number of these
    items as the number of graphs. *)
Theorem call_installs_in_order
    (traced : list Fx.Node) (example_inputs : list Arg) (s s' : State)
    (returned : Returned) :
  __call__ traced example_inputs s = (inr returned, s') ->
  exists split_gm items,
    split_graph traced (splitting_ops (config s)) = inr (split_gm, items)
    /\ installed (events s')
       = installed (events s)
         ++ imap
              (fun i item =>
                 (submod_name item, i, length (filter compilable items)))
              (filter compilable items).
Proof.
  rewrite call_eq. cbv zeta.
  assert (events (derive_cache_dir s) = events s
          /\ splitting_ops (config (derive_cache_dir s)) = splitting_ops (config s))
    as (Hev1 & Hops1) by (unfold derive_cache_dir; by case_bool_decide).
  set (s1 := derive_cache_dir s) in *. clearbody s1.
  set (s2 := set_local_cache_dir s1).
  assert (events s2 = events s
          /\ splitting_ops (config s2) = splitting_ops (config s))
    as (Hev2 & Hops2) by done.
  clearbody s2.
  pose proof (initialize_cache_rest (local_dir s1)
                (VLLM_DISABLE_COMPILE_CACHE (envs s2)) (prefix (backend s1)) s2)
    as (Hcfg3 & _).
  pose proof (initialize_cache_installed (local_dir s1)
                (VLLM_DISABLE_COMPILE_CACHE (envs s2)) (prefix (backend s1)) s2)
    as Hev3.
  destruct (initialize_cache _ _ _ _) as [[e|[]] s3]; cbn [fst snd] in *;
    [done|].
  set (s4 := record_dynamo_time s3).
  assert (installed (events s4) = installed (events s)
          /\ splitting_ops (config s4) = splitting_ops (config s))
    as (Hev4 & Hops4).
  { subst s4. simpl. by rewrite Hev3, Hev2, Hcfg3, Hops2. }
  clearbody s4.
  destruct (_called (backend s4)); [done|].
  unfold split_and_compile.
  pose proof (configure_post_pass_frame s4) as (_ & _ & _ & Hev5 & _ & Hops5).
  destruct (configure_post_pass s4) as [[e|[]] s5]; cbn [fst snd] in *;
    [done|].
  rewrite Hops5, Hops4. rewrite split_graph_ascending. cbv zeta.
  set (ops := splitting_ops (config s)).
  set (parts := group [] (assigned ops 0 traced)).
  set (items := map (item_of (split_ids ops 0 traced)) parts).
  set (s7 := set_counter _ _).
  assert (installed (events s7) = installed (events s)) as Hev7.
  { subst s7. simpl. rewrite installed_app, Hev5, Hev4. simpl.
    by rewrite app_nil_r. }
  clearbody s7.
  destruct (run _ _ _ s7) as [[e|[]] s8] eqn:Hrun; cbn [fst snd] in *; [done|].
  assert (map fst (Fx.children (stitched parts)) = map submod_name items)
    as Hchildren.
  { unfold stitched, items. cbn [Fx.children]. by rewrite !map_map. }
  assert (NoDup (map submod_name items)) as Hnd.
  { assert (map submod_name items = submod <$> map fst parts) as ->
      by (unfold items; rewrite map_map;
          exact (eq_sym (map_map fst submod parts))).
    apply NoDup_fmap_2_strong; [|apply group_keys].
    intros x y _ _. apply submod_inj. }
  pose proof (run_installed (stitched parts) items example_inputs s7 s8
                Hchildren Hnd Hrun) as Hinst.
  pose proof (finish_frame (stitched parts) (config s5) (local_dir s1)
                example_inputs s8) as (_ & _ & _ & Hev9 & _).
  intros Hfin. rewrite Hfin in Hev9. cbn [snd] in Hev9.
  exists (stitched parts), items. split; [done|].
  by rewrite Hev9, Hinst, Hev7.
Qed.

(** ** copy_and_call: a tensor that does not fit, and repeated calls *)

(** The loop writes the buffers it is at, no other, and emits nothing. *)
Lemma copy_inputs_frame indices : forall i list_args s,
  let s' := snd (copy_inputs i indices list_args s) in
  events s' = events s
  /\ forall j, j < i \/ i + length indices <= j ->
       input_buffers (backend s') !! j = input_buffers (backend s) !! j.
Proof.
  induction indices as [|index rest IH]; intros i list_args s; [done|].
  cbv zeta. rewrite copy_inputs_cons.
  destruct (list_args !! index) as [arg|]; [|done].
  destruct (tensor_data _ arg) as [runtime_tensor|]; [|done].
  destruct (input_buffers (backend s) !! i) as [buffer|] eqn:Hbuf; [|done].
  cbv zeta. destruct (copy_ _ _) as [e|copied]; [done|].
  destruct (IH (S i)
              (<[index := ArgStaticSlice i
                            (length (take (length runtime_tensor) buffer))]>
                 list_args)
              (set_backend
                 (set_input_buffers
                    (<[i := copied ++ drop (length runtime_tensor) buffer]>
                       (input_buffers (backend s))) (backend s)) s))
    as [Hev Hbufs].
  split; [by rewrite Hev|].
  intros j Hj. rewrite Hbufs by (cbn [length] in Hj; lia).
  cbn [backend set_backend input_buffers set_input_buffers].
  apply list_lookup_insert_ne. cbn [length] in Hj. lia.
Qed.

Lemma copy_inputs_app pre : forall i rest list_args s,
  copy_inputs i (pre ++ rest) list_args s
  = match copy_inputs i pre list_args s with
    | (inl e, s') => (inl e, s')
    | (inr list_args', s') => copy_inputs (i + length pre) rest list_args' s'
    end.
Proof.
  induction pre as [|index pre IH]; intros i rest list_args s.
  - simpl. by rewrite Nat.add_0_r.
  - cbn [app]. rewrite !copy_inputs_cons.
    destruct (list_args !! index) as [arg|]; [|done].
    destruct (tensor_data _ arg) as [runtime_tensor|]; [|done].
    destruct (input_buffers (backend s) !! i) as [buffer|]; [|done].
    cbv zeta. destruct (copy_ _ _) as [e|copied]; [done|].
    rewrite IH. cbn [length]. by replace (S i + length pre) with (i + S (length pre)) by lia.
Qed.

Lemma fits_of_lookup indices : forall i buffers args,
  NoDup indices ->
  (forall j index,
     indices !! j = Some index ->
     exists symbolic data buffer,
       args !! index = Some (ArgTensor symbolic data)
       /\ buffers !! (i + j) = Some buffer
       /\ length data <= length buffer) ->
  fits i indices buffers args.
Proof.
  induction indices as [|index rest IH]; intros i buffers args Hnodup Hall;
    [done|].
  apply NoDup_cons in Hnodup as [Hnotin Hnodup].
  split; [done|]. split.
  - destruct (Hall 0 index eq_refl) as (symbolic & data & buffer & H1 & H2 & H3).
    rewrite Nat.add_0_r in H2. by exists symbolic, data, buffer.
  - apply IH; [done|]. intros j index' Hj.
    destruct (Hall (S j) index' Hj) as (symbolic & data & buffer & H1 & H2 & H3).
    replace (i + S j) with (S i + j) in H2 by lia.
    by exists symbolic, data, buffer.
Qed.

(** What replay being engaged says of the [k]-th recorded position. *)
Lemma replay_engaged_lookup first_observed self k index :
  replay_engaged first_observed self ->
  sym_tensor_indices self !! k = Some index ->
  exists data buffer,
    first_observed !! index = Some (ArgTensor true data)
    /\ input_buffers self !! k = Some buffer
    /\ length buffer = length data.
Proof.
  intros [_ Hbufs] Hk.
  destruct (Forall2_lookup_l _ _ _ _ _ Hbufs Hk)
    as (rows & Hrows & data & Hdata & ->).
  apply list_lookup_fmap_Some in Hrows as (buffer & ? & ?).
  by exists data, buffer.
Qed.

(** X20. A tensor that does not fit.  When the tensor an invocation passes
    at a recorded position has more rows than the tensor first observed
    there (and more than one row), while the tensors at the positions
    recorded before it fit, [copy_and_call] raises the size error of
    [copy_] and the stitched graph is not run. *)
Theorem copy_and_call_too_long
    (first_observed args : list Arg) (s : State) (k index : nat)
    (symbolic : bool) (first runtime_tensor : Tensor) :
  replay_engaged first_observed (backend s) ->
  sym_tensor_indices (backend s) !! k = Some index ->
  first_observed !! index = Some (ArgTensor true first) ->
  args !! index = Some (ArgTensor symbolic runtime_tensor) ->
  length first < length runtime_tensor ->
  1 < length runtime_tensor ->
  (forall j index_j data_j,
     j < k ->
     sym_tensor_indices (backend s) !! j = Some index_j ->
     first_observed !! index_j = Some (ArgTensor true data_j) ->
     exists symbolic_j runtime_j,
       args !! index_j = Some (ArgTensor symbolic_j runtime_j)
       /\ length runtime_j <= length data_j) ->
  exists s',
    copy_and_call args s = (inl (RuntimeError "size mismatch"), s')
    /\ events s' = events s.
Proof.
  intros Hengaged Hk Hfirst Harg Hlong Hrows Hbefore.
  assert (NoDup (sym_tensor_indices (backend s))) as Hnodup.
  { destruct Hengaged as [-> _]. apply symbolic_indices_NoDup. }
  destruct (replay_engaged_lookup _ _ _ _ Hengaged Hk)
    as (first' & buffer & Hfirst' & Hbuf & Hlen).
  rewrite Hfirst in Hfirst'. injection Hfirst' as <-.
  unfold copy_and_call. unfold bind at 1. unfold gets at 1. unfold bind at 1.
  set (indices := sym_tensor_indices (backend s)) in *.
  rewrite <- (take_drop_middle indices k index Hk), copy_inputs_app.
  assert (fits 0 (take k indices) (input_buffers (backend s)) args) as Hfits.
  { apply fits_of_lookup.
    - eapply sublist_NoDup; [done|]. apply sublist_take.
    - intros j index_j Hj. apply lookup_take_Some in Hj as [Hj Hlt].
      destruct (replay_engaged_lookup _ _ _ _ Hengaged Hj)
        as (data_j & buffer_j & Hdata_j & Hbuf_j & Hlen_j).
      destruct (Hbefore j index_j data_j Hlt Hj Hdata_j)
        as (symbolic_j & runtime_j & Harg_j & Hle_j).
      exists symbolic_j, runtime_j, buffer_j. simpl. rewrite Hlen_j. done. }
  pose proof (copy_inputs_frame (take k indices) 0 args s) as [Hev Hframe].
  destruct (copy_inputs_fits _ 0 args s Hfits)
    as (list_args & s1 & Hrun & _ & _ & _ & Hother & _).
  rewrite Hrun in Hev, Hframe |- *. cbn [snd] in Hev, Hframe.
  rewrite copy_inputs_cons, Hother, Harg.
  - cbn [tensor_data]. rewrite Hframe, length_take.
    + assert (k < length indices) as Hklt by by eapply lookup_lt_Some.
      rewrite Nat.add_0_l, Nat.min_l by lia.
      unfold Tensor in *. rewrite Hbuf. cbv zeta.
      rewrite copy_too_long by lia. by exists s1.
    + right. rewrite length_take. lia.
  - intros Hin. apply list_elem_of_lookup in Hin as [j Hj].
    apply lookup_take_Some in Hj as [Hj Hlt].
    pose proof (NoDup_lookup _ _ _ _ Hnodup Hj Hk). lia.
Qed.

Lemma engaged_fits first_observed args self :
  replay_engaged first_observed self ->
  within_first_observed first_observed args ->
  fits 0 (sym_tensor_indices self) (input_buffers self) args.
Proof.
  intros [Hidx Hbufs] Hwithin. apply (fits_intro first_observed).
  - rewrite Hidx. apply symbolic_indices_NoDup.
  - by rewrite drop_0.
  - intros index data Hin. apply Hwithin. by rewrite <- Hidx.
Qed.

(** X21. Invoking [copy_and_call] again with the same arguments changes
    nothing more: the second invocation hands the stitched graph the same
    argument list as the first and leaves every buffer as the first left
    it. *)
Theorem copy_and_call_twice
    (first_observed args list_args : list Arg) (s s1 : State) :
  replay_engaged first_observed (backend s) ->
  within_first_observed first_observed args ->
  copy_and_call args s = (inr list_args, s1) ->
  exists s2,
    copy_and_call args s1 = (inr list_args, s2)
    /\ input_buffers (backend s2) = input_buffers (backend s1).
Proof.
  intros Hengaged Hwithin Hcall.
  pose proof (engaged_fits _ _ _ Hengaged Hwithin) as Hfits.
  destruct (copy_inputs_fits _ 0 args s Hfits)
    as (l1 & t1 & Hrun1 & Hlen1 & Hblen1 & Hsym1 & Hother1 & _ & Hev1 & Hidx1).
  unfold copy_and_call in Hcall. run_monad. rewrite Hrun1 in Hcall.
  injection Hcall as <- <-.
  assert (replay_engaged first_observed (backend t1)) as Hengaged1.
  { destruct Hengaged as [Hidx Hbufs]. split; [by rewrite Hidx1|].
    by rewrite Hidx1, Hblen1. }
  pose proof (engaged_fits _ _ _ Hengaged1 Hwithin) as Hfits1.
  set (s1 := set_events (events t1 ++ [RunStitchedGraph l1]) t1).
  assert (backend s1 = backend t1) as Hb1 by done.
  rewrite <- Hb1 in Hfits1.
  destruct (copy_inputs_fits _ 0 args s1 Hfits1)
    as (l2 & t2 & Hrun2 & Hlen2 & Hblen2 & Hsym2 & Hother2 & _ & Hev2 & Hidx2).
  assert (forall k index,
            sym_tensor_indices (backend s) !! k = Some index ->
            exists symbolic data buffer,
              args !! index = Some (ArgTensor symbolic data)
              /\ input_buffers (backend s) !! k = Some buffer) as Hpos.
  { intros k index Hk.
    destruct (replay_engaged_lookup _ _ _ _ Hengaged Hk)
      as (first & buffer & Hfirst & Hbuf & _).
    destruct (Hwithin index first) as (symbolic & data & Harg & _); [|done|].
    - destruct Hengaged as [<- _]. by eapply list_elem_of_lookup_2.
    - by exists symbolic, data, buffer. }
  assert (l2 = l1) as ->.
  { apply list_eq. intros j.
    destruct (decide (j ∈ sym_tensor_indices (backend s))) as [Hin|Hout].
    - apply list_elem_of_lookup in Hin as [k Hk].
      destruct (Hpos k j Hk) as (symbolic & data & buffer & Harg & Hbuf).
      destruct (Hsym1 k j symbolic data buffer Hk Harg Hbuf) as (-> & Hb & _).
      assert (sym_tensor_indices (backend s1) !! k = Some j) as Hk1
        by by rewrite Hb1, Hidx1.
      rewrite <- Hb1 in Hb.
      by destruct (Hsym2 k j symbolic data _ Hk1 Harg Hb) as (-> & _).
    - rewrite Hother1 by done. apply Hother2. by rewrite Hb1, Hidx1. }
  exists (set_events (events t2 ++ [RunStitchedGraph l1]) t2). split.
  - unfold copy_and_call. run_monad. by rewrite Hrun2.
  - cbn [backend set_events]. apply list_eq. intros k.
    destruct (sym_tensor_indices (backend s) !! k) as [index|] eqn:Hk.
    + destruct (Hpos k index Hk) as (symbolic & data & buffer & Harg & Hbuf).
      destruct (Hsym1 k index symbolic data buffer Hk Harg Hbuf) as (_ & Hb & _).
      assert (sym_tensor_indices (backend s1) !! k = Some index) as Hk1
        by by rewrite Hb1, Hidx1.
      simpl in Hb. rewrite <- Hb1 in Hb.
      destruct (Hsym2 k index symbolic data _ Hk1 Harg Hb) as (_ & Hb2 & _).
      simpl in Hb2. rewrite drop_app_length in Hb2. rewrite Hb1 in Hb.
      unfold Tensor in *. congruence.
    + apply lookup_ge_None in Hk.
      assert (length (input_buffers (backend s))
              = length (sym_tensor_indices (backend s))) as Hlen.
      { destruct Hengaged as [_ Hbufs]. apply Forall2_length in Hbufs.
        by rewrite length_fmap in Hbufs. }
      assert (length (input_buffers (backend t1))
              = length (input_buffers (backend s))) as Hl1.
      { pose proof (f_equal length Hblen1) as H.
        by rewrite !length_fmap in H. }
      assert (length (input_buffers (backend t2))
              = length (input_buffers (backend t1))) as Hl2.
      { pose proof (f_equal length Hblen2) as H.
        by rewrite !length_fmap, Hb1 in H. }
      rewrite Hb1, !lookup_ge_None_2; [done|lia|lia].
Qed.

(** ** Examples of calls *)

Lemma call_counters_witness :
  exists split_gm items,
    split_graph example_graph
      (splitting_ops (config (example_state false true)))
    = inr (split_gm, items)
    /\ let c := compilation_counter (example_state false true) in
       let c' := compilation_counter replay_state in
       let n := length (filter compilable items) in
       num_graphs_seen c' = S (num_graphs_seen c)
       /\ num_piecewise_graphs_seen c'
          = num_piecewise_graphs_seen c + length items
       /\ num_piecewise_capturable_graphs_seen c'
          = num_piecewise_capturable_graphs_seen c + n
       /\ num_backend_compilations c' = num_backend_compilations c + n.
Proof.
  assert (fst (__call__ example_graph example_inputs (example_state false true))
          = inr ReturnCopyAndCall) as H by (vm_compute; reflexivity).
  exact (call_counters example_graph example_inputs _ _ _ (pair_of_fst _ _ H)).
Defined.

(** A process whose configuration holds a post pass that is neither a pass
    manager nor an Inductor pass. *)
Definition foreign_pass_state : State :=
  set_config
    (set_post_pass (Some OtherObject) (config (example_state false true)))
    (example_state false true).

Lemma call_failure_leaves_flag_witness :
  let s' := snd (__call__ example_graph example_inputs foreign_pass_state) in
  _called (backend s') = _called (backend foreign_pass_state)
  /\ prefix (backend s') = prefix (backend foreign_pass_state)
  /\ sym_tensor_indices (backend s')
     = sym_tensor_indices (backend foreign_pass_state)
  /\ input_buffers (backend s') = input_buffers (backend foreign_pass_state).
Proof.
  assert (fst (__call__ example_graph example_inputs foreign_pass_state)
          = inl (AssertionError "")) as H by (vm_compute; reflexivity).
  exact (call_failure_leaves_flag example_graph example_inputs _ _ _
           (pair_of_fst _ _ H)).
Defined.

Lemma call_cache_layout_witness :
  cache_dir (config replay_state) = settled_cache_dir (example_state false true)
  /\ traced_files (config replay_state)
     = (if bool_decide (cache_dir (config (example_state false true)) = "")
        then [] else traced_files (config (example_state false true)))
  /\ local_cache_dir (config replay_state)
     = path_join
         (path_join (settled_cache_dir (example_state false true))
            ("rank_" +:+ str_of_Z (rank (example_state false true)) +:+ "_"
             +:+ str_of_Z (data_parallel_rank (example_state false true))))
         (prefix (backend (example_state false true)))
  /\ cache_file_path (manager replay_state)
     = Some (path_join (local_cache_dir (config replay_state))
               "vllm_compile_cache.py")
  /\ disable_cache (manager replay_state)
     = Some (VLLM_DISABLE_COMPILE_CACHE (envs (example_state false true))).
Proof.
  assert (fst (__call__ example_graph example_inputs (example_state false true))
          = inr ReturnCopyAndCall) as H by (vm_compute; reflexivity).
  exact (call_cache_layout example_graph example_inputs _ _ _
           (pair_of_fst _ _ H)).
Defined.

Lemma second_call_side_effects_witness :
  exists s2,
    __call__ example_graph example_inputs replay_state
    = (inl (AssertionError "VllmBackend can only be called once"), s2)
    /\ num_graphs_seen (compilation_counter s2)
       = S (num_graphs_seen (compilation_counter replay_state))
    /\ events s2
       = events replay_state
         ++ [AdaptorInitializeCache (local_cache_dir (config replay_state))
               (VLLM_DISABLE_COMPILE_CACHE (envs replay_state))
               (prefix (backend replay_state))]
    /\ clock s2 = S (clock replay_state)
    /\ compilation_time (config s2)
       = (compilation_time (config replay_state)
          + (time_source replay_state (clock replay_state)
             - torch_compile_start_time replay_state))%float.
Proof.
  assert (fst (__call__ example_graph example_inputs (example_state false true))
          = inr ReturnCopyAndCall) as H by (vm_compute; reflexivity).
  exact (second_call_side_effects example_graph example_graph example_inputs
           example_inputs _ _ _ (pair_of_fst _ _ H)).
Defined.

(** An invocation with a tensor of three rows, one more than the buffer. *)
Definition long_args : list Arg :=
  [ArgTensor false [[5%Z; 6%Z]; [7%Z; 8%Z]; [9%Z; 10%Z]]; ArgOther "weight"].

Lemma replay_state_engaged : replay_engaged example_inputs (backend replay_state).
Proof.
  assert (fst (__call__ example_graph example_inputs
                 (example_state false true))
          = inr ReturnCopyAndCall) as H by (vm_compute; reflexivity).
  exact (call_engages _ _ _ _ (pair_of_fst _ _ H)).
Defined.

Lemma copy_and_call_too_long_witness :
  exists s',
    copy_and_call long_args replay_state
    = (inl (RuntimeError "size mismatch"), s')
    /\ events s' = events replay_state.
Proof.
  assert (sym_tensor_indices (backend replay_state) !! 0 = Some 0) as Hk
    by (vm_compute; reflexivity).
  refine (copy_and_call_too_long example_inputs long_args replay_state 0 0
            false [[1%Z; 2%Z]; [3%Z; 4%Z]]
            [[5%Z; 6%Z]; [7%Z; 8%Z]; [9%Z; 10%Z]]
            replay_state_engaged Hk eq_refl eq_refl _ _ _).
  - simpl. lia.
  - simpl. lia.
  - intros j index_j data_j Hj. lia.
Defined.

Lemma copy_and_call_twice_witness :
  exists s2,
    copy_and_call runtime_args (snd (copy_and_call runtime_args replay_state))
    = (inr [ArgStaticSlice 0 1; ArgOther "weight"], s2)
    /\ input_buffers (backend s2)
       = input_buffers (backend (snd (copy_and_call runtime_args replay_state))).
Proof.
  assert (within_first_observed example_inputs runtime_args) as Hwithin.
  { intros index data Hin Hfirst. simpl in Hin.
    apply list_elem_of_singleton in Hin as ->.
    injection Hfirst as <-. exists false, [[5%Z; 6%Z]].
    split; [reflexivity | simpl; lia]. }
  assert (fst (copy_and_call runtime_args replay_state)
          = inr [ArgStaticSlice 0 1; ArgOther "weight"]) as H
    by (vm_compute; reflexivity).
  exact (copy_and_call_twice example_inputs runtime_args _ replay_state _
           replay_state_engaged Hwithin (pair_of_fst _ _ H)).
Defined.

Lemma call_returned_callable_witness :
  if use_cudagraph (config (example_state false true))
     && cudagraph_copy_inputs (config (example_state false true))
  then ReturnCopyAndCall = ReturnCopyAndCall
       /\ sym_tensor_indices (backend replay_state)
          = symbolic_indices 0 example_inputs
       /\ Forall2
            (fun index buffer =>
               example_inputs !! index = Some (ArgTensor true buffer))
            (sym_tensor_indices (backend replay_state))
            (input_buffers (backend replay_state))
  else (exists split_gm items,
          split_graph example_graph
            (splitting_ops (config (example_state false true)))
          = inr (split_gm, items)
          /\ ReturnCopyAndCall = ReturnSplitGm split_gm)
       /\ sym_tensor_indices (backend replay_state)
          = sym_tensor_indices (backend (example_state false true))
       /\ input_buffers (backend replay_state)
          = input_buffers (backend (example_state false true)).
Proof.
  assert (fst (__call__ example_graph example_inputs (example_state false true))
          = inr ReturnCopyAndCall) as H by (vm_compute; reflexivity).
  exact (call_returned_callable example_graph example_inputs _ _ _
           (pair_of_fst _ _ H)).
Defined.

Lemma call_installs_in_order_witness :
  exists split_gm items,
    split_graph example_graph
      (splitting_ops (config (example_state false true)))
    = inr (split_gm, items)
    /\ installed (events replay_state)
       = installed (events (example_state false true))
         ++ imap
              (fun i item =>
                 (submod_name item, i, length (filter compilable items)))
              (filter compilable items).
Proof.
  assert (fst (__call__ example_graph example_inputs (example_state false true))
          = inr ReturnCopyAndCall) as H by (vm_compute; reflexivity).
  exact (call_installs_in_order example_graph example_inputs _ _ _
           (pair_of_fst _ _ H)).
Defined.

(** ** set_model_tag *)


(** X23. A backend constructed without a prefix inside
    [with set_model_tag(tag)] takes the tag as its prefix, a backend
    constructed with a prefix keeps its own; either way the tag is the old
    one again after the statement, and inside a nested statement the tag of
    the inner one counts. *)
Theorem construct_backend_under_tag
    (outer inner name : string) (g : Tagged) :
  outer <> model_tag g -> inner <> outer ->
  let named tag :=
    if bool_decide (name = "") then tag else name in
  let r1 := set_model_tag outer (construct_backend name) g in
  let r2 :=
    set_model_tag outer (set_model_tag inner (construct_backend name)) g in
  fst r1 = inr tt
  /\ prefix (backend (process (snd r1))) = named outer
  /\ model_tag (snd r1) = model_tag g
  /\ fst r2 = inr tt
  /\ prefix (backend (process (snd r2))) = named inner
  /\ model_tag (snd r2) = model_tag g.
Proof.
  intros Houter Hinner. cbv zeta. unfold set_model_tag, construct_backend.
  cbn [model_tag process].
  rewrite (bool_decide_eq_false_2 (outer = model_tag g)) by done.
  rewrite (bool_decide_eq_false_2 (inner = outer)) by done.
  done.
Qed.

Lemma construct_backend_under_tag_witness :
  let g := mkTagged "backbone" (example_state false true) in
  let r2 :=
    set_model_tag "draft" (set_model_tag "eagle_head" (construct_backend "")) g in
  fst r2 = inr tt
  /\ prefix (backend (process (snd r2))) = "eagle_head"
  /\ model_tag (snd r2) = "backbone".
Proof.
  assert ("draft" <> "backbone") as H1 by done.
  assert ("eagle_head" <> "draft") as H2 by done.
  destruct (construct_backend_under_tag "draft" "eagle_head" ""
              (mkTagged "backbone" (example_state false true)) H1 H2)
    as (_ & _ & _ & H4 & H5 & H6).
  exact (conj H4 (conj H5 H6)).
Defined.
